(** * PixelFruit: pixel transforms, histogram, colour replacement, result cache
      and worker task queue, embedded from the JavaScript sources.

    JavaScript numbers are IEEE-754 binary64 values; they are embedded as
    Rocq's primitive [float]s, so every arithmetic step of the sources
    ([+], [-], [*], [/], [Math.sqrt], comparisons) is evaluated bit for bit.
    [Uint8ClampedArray]s are lists of octets (as [Z]) indexed from 0, with
    the store conversion of the typed array written out. *)

From Stdlib Require Import ZArith Lia Bool List Ascii String.
From Stdlib Require Import Floats.
From stdpp Require Import base list strings gmap pretty sorting.
Set Warnings "-inexact-float".
Local Open Scope Z_scope.

(* ===================================================================== *)
(** ** ECMAScript numbers *)
(* ===================================================================== *)

Module JS.

Abbreviation number := float (only parsing).

(** The Number value of a mathematical integer (round to nearest, ties to
    even; exact below 2^53).  Below 2^62 the conversion of the machine
    integer is used, which rounds the same way. *)
Definition of_Z (z : Z) : number :=
  if Z.abs z <? 4611686018427387904
  then
    let f := of_uint63 (Uint63.of_Z (Z.abs z)) in
    if z <? 0 then (- f)%float else f
  else SF2Prim (binary_normalize prec emax z 0 false).

Definition of_nat (n : nat) : number := of_Z (Z.of_nat n).

(** A finite double as [(-1)^s * m * 2^e]; [None] for NaN and the infinities. *)
Definition finite_parts (x : number) : option (bool * Z * Z) :=
  if is_nan x || is_infinity x then None
  else if is_zero x then Some (get_sign x, 0, 0)
  else
    let (m, e) := frshiftexp x in
    Some (get_sign x, Uint63.to_Z (normfr_mantissa m), Uint63.to_Z e - FloatOps.shift - FloatOps.prec).

(** Exact truncation and rounding of a finite double. *)
Definition truncZ (x : number) : option Z :=
  match finite_parts x with
  | Some (s, m, e) =>
      let q := if 0 <=? e then Z.shiftl m e else Z.shiftr m (- e) in
      Some (if s then - q else q)
  | None => None
  end.

(** Nearest integer, ties to even (the rule of the clamped octet store). *)
Definition roundEvenZ (x : number) : option Z :=
  match finite_parts x with
  | Some (s, m, e) =>
      let q :=
        if 0 <=? e then Z.shiftl m e
        else
          let d := Z.shiftl 1 (- e) in
          let q := Z.shiftr m (- e) in
          let r := m - Z.shiftl q (- e) in
          if 2 * r <? d then q
          else if d <? 2 * r then q + 1
          else if Z.even q then q else q + 1 in
      Some (if s then - q else q)
  | None => None
  end.

Definition signed_zero (neg : bool) : number :=
  if neg then neg_zero else zero.

(** 2^52: from here on every double is an integer. *)
Definition two52 : number := 4503599627370496%float.

(** The nearest integer, ties to even, by the rounding of the addition
    itself; a zero result loses its sign, which the callers restore. *)
Definition nearest_even (x : number) : number :=
  if is_nan x then x
  else if (two52 <=? abs x)%float then x
  else if (0 <=? x)%float then ((x + two52) - two52)%float
  else ((x - two52) + two52)%float.

Definition keep_sign (x y : number) : number :=
  if is_zero y then signed_zero (get_sign x) else y.

Definition Math_floor (x : number) : number :=
  let t := nearest_even x in
  keep_sign x (if (x <? t)%float then (t - 1)%float else t).

Definition Math_ceil (x : number) : number :=
  let t := nearest_even x in
  keep_sign x (if (t <? x)%float then (t + 1)%float else t).

(** [Math.round]: the nearest integer, ties towards +infinity. *)
Definition Math_round (x : number) : number :=
  let t := nearest_even x in
  keep_sign x (if (x - t =? 0.5)%float then (t + 1)%float else t).

Definition Math_sqrt : number -> number := PrimFloat.sqrt.

(** [Math.fround], the rounding of every store into a [Float32Array]. *)
Definition Math_fround (x : number) : number :=
  match Prim2SF x with
  | S754_finite s m e => SF2Prim (binary_round 24 128 s m e)
  | _ => x
  end.

Definition is_neg_zero (x : number) : bool := is_zero x && get_sign x.

(** [Math.min] and [Math.max] of two arguments: NaN is contagious and
    [-0] is below [+0]. *)
Definition Math_min (a b : number) : number :=
  if is_nan a || is_nan b then nan
  else if (a <? b)%float then a
  else if (b <? a)%float then b
  else if is_neg_zero a then a else b.

Definition Math_max (a b : number) : number :=
  if is_nan a || is_nan b then nan
  else if (a <? b)%float then b
  else if (b <? a)%float then a
  else if is_neg_zero a then b else a.

(** [a !== b] and [a === b] on numbers. *)
Definition strict_neq (a b : number) : bool := negb (a =? b)%float.
Definition strict_eq (a b : number) : bool := (a =? b)%float.

(** ToBoolean of a number: [0], [-0] and NaN are falsy. *)
Definition truthy (x : number) : bool := negb (is_zero x || is_nan x).

(** [v || d] where [v] may be [undefined]. *)
Definition or_default (v : option number) (d : number) : number :=
  match v with
  | Some x => if truthy x then x else d
  | None => d
  end.

(** [v !== undefined ? v : d]. *)
Definition defined_or (v : option number) (d : number) : number :=
  match v with
  | Some x => x
  | None => d
  end.

(** A number used as a key into an array of [len] elements: [Some n] when
    it is the index [n] of one of them, [None] for any other property key.
    The [min] is the identity on what the test lets through. *)
Definition is_index (len x : number) : bool :=
  (Math_floor x =? x)%float && (0 <=? x)%float && (x <? len)%float.

Definition index_in (len : nat) (x : number) : option nat :=
  if is_index (of_nat len) x
  then Some (Nat.min (Z.to_nat (default 0 (truncZ x))) (len - 1))
  else None.

(** 32-bit integers of the bitwise operators. *)
Definition wrap32 (z : Z) : Z :=
  let w := z `mod` 2 ^ 32 in
  if 2 ^ 31 <=? w then w - 2 ^ 32 else w.

Definition ToInt32 (x : number) : Z :=
  match truncZ x with
  | Some z => wrap32 z
  | None => 0
  end.

(** [x >> k], [x << k], [x & y], [x | 0] on already converted operands. *)
Definition sar (x : Z) (k : Z) : Z := Z.shiftr (wrap32 x) (k `mod` 32).
Definition shl (x : Z) (k : Z) : Z := wrap32 (Z.shiftl (wrap32 x) (k `mod` 32)).
Definition band (x y : Z) : Z := wrap32 (Z.land (wrap32 x) (wrap32 y)).

End JS.

Import JS.

(* ===================================================================== *)
(** ** Uint8ClampedArray *)
(* ===================================================================== *)

Module U8C.

(** The conversion applied by every store into a [Uint8ClampedArray]:
    NaN becomes 0, the value is clamped to [0,255] and rounded to the
    nearest integer, ties to even.  The outer [Z] clamp is the identity on
    what the two guards let through. *)
Definition ToUint8Clamp (x : number) : Z :=
  if is_nan x then 0
  else if (x <=? 0)%float then 0
  else if (255 <=? x)%float then 255
  else match roundEvenZ x with
       | Some z => Z.max 0 (Z.min 255 z)
       | None => 0
       end.

Definition octet (v : Z) : Prop := 0 <= v <= 255.

(** [a[i]]: the element as a number; an index outside the array reads
    [undefined], which every use below turns into NaN. *)
Definition get (a : list Z) (i : nat) : number :=
  match a !! i with
  | Some v => of_Z v
  | None => nan
  end.

(** The integer at [i], for the places that have checked it is there. *)
Definition octet_at (a : list Z) (i : nat) : Z :=
  match a !! i with
  | Some v => v
  | None => 0
  end.

(** [a[i] = x]: stores outside the array are ignored. *)
Definition set (a : list Z) (i : nat) (x : number) : list Z :=
  <[i := ToUint8Clamp x]> a.

(** The octets, in order. *)
Definition octets : list Z := map Z.of_nat (seq 0 256).

End U8C.

Import U8C.


(* ===================================================================== *)
(** ** Colour grading: [applyColorAdjustments] *)
(* ===================================================================== *)

Module Color.

(** The properties of [settings] the pass reads; [None] is [undefined]. *)
Record settings := mk_settings {
  bright : option number;
  exp_shift : option number;
  shadows : option number;
  highlights : option number;
  whites : option number;
  user_mul : option (list number)
}.

(** The page as the pass reads it: [parseInt] of the value of each slider
    of [colorElements], and of the temperature and tint sliders, which
    [document.getElementById] may fail to find ([None]). *)
Record sliders := mk_sliders {
  contrastSlider : number;
  saturationSlider : number;
  shadowsSlider : number;
  highlightsSlider : number;
  whitesSlider : number;
  tempSlider : option number;
  tintSlider : option number
}.

(** [data[i] = r; data[i + 1] = g; data[i + 2] = b] *)
Definition write_rgb (data : list Z) (i : nat) (rgb : number * number * number) : list Z :=
  let '(r, g, b) := rgb in
  set (set (set data i r) (i + 1) g) (i + 2) b.

(** [for (let i = 0; i < dataLength; i += 4)] with the body reading the
    three colour channels at [i], transforming them and writing them back. *)
Definition pixel_loop (body : number * number * number → number * number * number)
    (data : list Z) : list Z :=
  foldl (λ data k,
           let i := (4 * k)%nat in
           write_rgb data i (body (get data i, get data (i + 1), get data (i + 2))))
        data (seq 0 (Nat.div (length data + 3) 4)).

Section Adjust.

(** [Math.pow]: an implementation-approximated function of the host. *)
Variable Math_pow : number → number → number.

Definition applyColorAdjustments (data : list Z) (width height : Z)
    (settings : settings) (dom : sliders) : list Z :=
  let min := Math_min in
  let max := Math_max in
  let brightness := or_default settings.(bright) 1 in
  let contrast := dom.(contrastSlider) in
  let saturation := dom.(saturationSlider) in
  let exposure := or_default settings.(exp_shift) 0 in
  let shadows := defined_or settings.(shadows) dom.(shadowsSlider) in
  let temperature := defined_or dom.(tempSlider) 0 in
  let tint := defined_or dom.(tintSlider) 0 in
  let useUserMul :=
    match settings.(user_mul) with
    | Some m => bool_decide (length m = 4%nat)
    | None => false
    end in
  let user_mul k := nth k (default [] settings.(user_mul)) nan in
  let contrastFactor :=
    (if strict_neq contrast 0
     then (259 * (contrast + 255)) / (255 * (259 - contrast)) else 1)%float in
  let exposureFactor :=
    (if strict_neq exposure 0 then Math_pow 2 exposure else 1)%float in
  let saturationFactor :=
    (if strict_neq saturation 100 then saturation / 100 else 1)%float in
  let highlights := defined_or settings.(highlights) dom.(highlightsSlider) in
  let whites := defined_or settings.(whites) dom.(whitesSlider) in
  let needBrightness := strict_neq brightness 1 in
  let needContrast := strict_neq contrast 0 in
  let needSaturation := strict_neq saturation 100 in
  let needTemperature := strict_neq temperature 0 in
  let needTint := strict_neq tint 0 in
  let needExposure := strict_neq exposure 0 in
  let needShadows := strict_neq shadows 0 in
  let needHighlights := strict_neq highlights 0 in
  let needWhites := strict_neq whites 100 in
  if negb needBrightness && negb needContrast && negb needSaturation &&
     negb needTemperature && negb needTint && negb needExposure &&
     negb useUserMul && negb needShadows && negb needHighlights && negb needWhites
  then data
  else
    pixel_loop (λ '(r, g, b),
      let '(r, g, b) :=
        (if useUserMul
         then (min 255 (max 0 (r * user_mul 0%nat)),
               min 255 (max 0 (g * user_mul 1%nat)),
               min 255 (max 0 (b * user_mul 2%nat)))
         else (r, g, b))%float in
      let '(r, g, b) :=
        (if needBrightness
         then (min 255 (max 0 (r * brightness)),
               min 255 (max 0 (g * brightness)),
               min 255 (max 0 (b * brightness)))
         else (r, g, b))%float in
      let '(r, g, b) :=
        (if needContrast
         then (min 255 (max 0 (contrastFactor * (r - 128) + 128)),
               min 255 (max 0 (contrastFactor * (g - 128) + 128)),
               min 255 (max 0 (contrastFactor * (b - 128) + 128)))
         else (r, g, b))%float in
      let '(r, g, b) :=
        (if needSaturation
         then
           let gray := 0.299 * r + 0.587 * g + 0.114 * b in
           (min 255 (max 0 (gray + saturationFactor * (r - gray))),
            min 255 (max 0 (gray + saturationFactor * (g - gray))),
            min 255 (max 0 (gray + saturationFactor * (b - gray))))
         else (r, g, b))%float in
      let '(r, g, b) :=
        (if needTemperature
         then
           let '(r, b) :=
             if 0 <? temperature
             then (r + temperature, b - of_Z (sar (ToInt32 temperature) 1))
             else (r + of_Z (sar (ToInt32 temperature) 1), b - temperature) in
           (min 255 (max 0 r), g, min 255 (max 0 b))
         else (r, g, b))%float in
      let '(r, g, b) :=
        (if needTint
         then
           let '(r, g) :=
             if 0 <? tint
             then (r - of_Z (sar (ToInt32 tint) 1), g + tint)
             else (r - tint, g + of_Z (sar (ToInt32 tint) 1)) in
           (min 255 (max 0 r), min 255 (max 0 g), b)
         else (r, g, b))%float in
      let '(r, g, b) :=
        (if needExposure
         then (min 255 (max 0 (r * exposureFactor)),
               min 255 (max 0 (g * exposureFactor)),
               min 255 (max 0 (b * exposureFactor)))
         else (r, g, b))%float in
      let '(r, g, b) :=
        (if needShadows
         then
           let shadowThreshold := 64 in
           let shadowAdjustment := shadows / 100 in
           let lift v :=
             if v <? shadowThreshold
             then min shadowThreshold (max 0 (v + (shadowThreshold - v) * shadowAdjustment))
             else v in
           (lift r, lift g, lift b)
         else (r, g, b))%float in
      let '(r, g, b) :=
        (if needHighlights
         then
           let highlightThreshold := 192 in
           let highlightAdjustment := highlights / 100 in
           let push v :=
             if highlightThreshold <? v
             then max highlightThreshold (min 255 (v + (v - highlightThreshold) * highlightAdjustment))
             else v in
           (push r, push g, push b)
         else (r, g, b))%float in
      let '(r, g, b) :=
        (if needWhites
         then
           let whiteThreshold := 220 in
           let whiteAdjustment := whites / 100 in
           if (whiteThreshold <? r) || (whiteThreshold <? g) || (whiteThreshold <? b)
           then
             let brightness := (r + g + b) / 3 in
             if whiteThreshold <? brightness
             then
               let adjustFactor := whiteAdjustment in
               (min 255 (r * adjustFactor),
                min 255 (g * adjustFactor),
                min 255 (b * adjustFactor))
             else (r, g, b)
           else (r, g, b)
         else (r, g, b))%float in
      (r, g, b)) data.

End Adjust.

(** Every stage at its identity value, read off the values the pass
    works with: brightness 1, contrast 0, saturation 100, temperature 0,
    tint 0, exposure 0, shadows 0, highlights 0, whites 100, and no
    white-balance multipliers. *)
Definition at_identity (settings : settings) (dom : sliders) : Prop :=
  or_default settings.(bright) 1 = 1%float ∧
  dom.(contrastSlider) = 0%float ∧
  dom.(saturationSlider) = 100%float ∧
  defined_or dom.(tempSlider) 0 = 0%float ∧
  defined_or dom.(tintSlider) 0 = 0%float ∧
  or_default settings.(exp_shift) 0 = 0%float ∧
  defined_or settings.(shadows) dom.(shadowsSlider) = 0%float ∧
  defined_or settings.(highlights) dom.(highlightsSlider) = 0%float ∧
  defined_or settings.(whites) dom.(whitesSlider) = 100%float ∧
  settings.(user_mul) = None.

(** Settings and sliders at which every stage is the identity. *)
Definition identity_settings : settings :=
  mk_settings (Some 1%float) (Some 0%float) (Some 0%float) (Some 0%float)
              (Some 100%float) None.

Definition identity_sliders : sliders :=
  mk_sliders 0 100 0 0 100 (Some 0%float) (Some 0%float).

(** The three tint sliders of [colorElements], after [parseInt]. *)
Record tintSliders := mk_tintSliders {
  redTintSlider : number;
  greenTintSlider : number;
  blueTintSlider : number
}.

(** [updateWhiteBalanceCoefficients(settings)]: [settings] afterwards. *)
Definition updateWhiteBalanceCoefficients : settings → tintSliders → settings :=
  λ settings dom,
  let redTint := dom.(redTintSlider) in
  let greenTint := dom.(greenTintSlider) in
  let blueTint := dom.(blueTintSlider) in
  let redMultiplier := (1 + redTint / 100)%float in
  let greenMultiplier := (1 + greenTint / 100)%float in
  let blueMultiplier := (1 + blueTint / 100)%float in
  mk_settings settings.(bright) settings.(exp_shift) settings.(shadows)
              settings.(highlights) settings.(whites)
              (Some [redMultiplier; greenMultiplier; blueMultiplier; greenMultiplier]).

(** [applyContrast(rgbaData, contrast)]: the buffer afterwards.  Each
    channel is read when its own assignment runs. *)
Definition applyContrast (rgbaData : list Z) (contrast : number) : list Z :=
  let factor := ((259 * (contrast + 255)) / (255 * (259 - contrast)))%float in
  foldl (λ rgbaData k,
           let i := (4 * k)%nat in
           let rgbaData :=
             set rgbaData i
                 (Math_min 255 (Math_max 0 (factor * (get rgbaData i - 128) + 128)))%float in
           let rgbaData :=
             set rgbaData (i + 1)
                 (Math_min 255 (Math_max 0 (factor * (get rgbaData (i + 1) - 128) + 128)))%float in
           set rgbaData (i + 2)
               (Math_min 255 (Math_max 0 (factor * (get rgbaData (i + 2) - 128) + 128)))%float)
        rgbaData (seq 0 (Nat.div (length rgbaData + 3) 4)).

End Color.

(* ===================================================================== *)
(** ** The worker: median filter, Gaussian filter and histogram *)
(* ===================================================================== *)

Module Worker.

(** [[arr[i], arr[j]] = [arr[j], arr[i]]] on a plain array. *)
Definition swap (arr : list number) (i j : nat) : list number :=
  let ai := nth i arr nan in
  let aj := nth j arr nan in
  <[j := ai]> (<[i := aj]> arr).

(** [partition(arr, left, right)]: the array after the call and the index
    it returns. *)
Definition partition (arr : list number) (left right : nat) : list number * nat :=
  let pivot := nth right arr nan in
  let '(arr, i) :=
    foldl (λ '(arr, i) j,
             if (nth j arr nan <=? pivot)%float
             then (swap arr i j, S i)
             else (arr, i))
          (arr, left) (seq left (right - left)) in
  (swap arr i right, i).

(** [quickselect(arr, left, right, k)]; [fuel] bounds the depth of the
    recursion and [None] is its exhaustion. *)
Fixpoint quickselect (fuel : nat) (arr : list number) (left right k : nat) : option number :=
  match fuel with
  | O => None
  | S fuel =>
      if decide (left = right) then Some (nth left arr nan)
      else
        let '(arr, pivotIndex) := partition arr left right in
        if decide (k = pivotIndex) then Some (nth k arr nan)
        else if decide (k < pivotIndex)%nat
             then quickselect fuel arr left (pivotIndex - 1) k
             else quickselect fuel arr (pivotIndex + 1) right k
  end.

(** [findKthSmallest(arr, k)]: works on a copy, so [arr] is left as it was. *)
Definition findKthSmallest (arr : list number) (k : nat) : option number :=
  let clonedArr := arr in
  quickselect (S (length clonedArr)) clonedArr 0 (length clonedArr - 1) k.

(** The neighbourhood of pixel [(x, y)], row by row, of channel offset [c]. *)
Definition neighbourhood (imageData : list Z) (width radius x y c : nat) : list number :=
  flat_map (λ jy,
    map (λ jx,
           let neighborIndex := (((y - radius + jy) * width + (x - radius + jx)) * 4)%nat in
           get imageData (neighborIndex + c))
        (seq 0 (2 * radius + 1)))
    (seq 0 (2 * radius + 1)).

(** [applyMedianFilterOptimized]: the buffer it posts, or [None] when the
    selection runs out of stack. *)
Definition applyMedianFilterOptimized (imageData : list Z) (width height radius : nat)
    : option (list Z) :=
  let result := imageData in
  foldl (λ acc y,
    foldl (λ acc x,
      result ← acc;
      let rValues := neighbourhood imageData width radius x y 0 in
      let gValues := neighbourhood imageData width radius x y 1 in
      let bValues := neighbourhood imageData width radius x y 2 in
      let midIndex := (length rValues / 2)%nat in
      let index := ((y * width + x) * 4)%nat in
      mr ← findKthSmallest rValues midIndex;
      mg ← findKthSmallest gValues midIndex;
      mb ← findKthSmallest bValues midIndex;
      let result := set result index mr in
      let result := set result (index + 1) mg in
      let result := set result (index + 2) mb in
      Some (set result (index + 3) (get imageData (index + 3))))
    acc (seq radius (width - radius - radius)))
  (Some result) (seq radius (height - radius - radius)).

Section Gaussian.

(** [Math.exp]: an implementation-approximated function of the host. *)
Variable Math_exp : number → number.

(** [createGaussianKernel(size, sigma)] for [size = 2 * radius + 1]: the
    elements of the [Float32Array]. *)
Definition createGaussianKernel (radius : nat) (sigma : number) : list number :=
  let sigmaSq := (sigma * sigma)%float in
  let '(kernel, sum) :=
    foldl (λ '(kernel, sum) index,
             let i := of_Z (Z.of_nat index - Z.of_nat radius) in
             let w := Math_fround (Math_exp (- (i * i) / (2 * sigmaSq)))%float in
             (<[index := w]> kernel, (sum + w)%float))
          (replicate (2 * radius + 1) 0%float, 0%float)
          (seq 0 (2 * radius + 1)) in
  map (λ w, Math_fround (w / sum)%float) kernel.

(** One separable pass over [src], writing the blurred colour channels and
    the copied alpha of every pixel into [dst]; [horizontal] selects the
    axis the kernel runs along and [taps] is the number of turns of the
    kernel loop ([2 * radius + 1], or none when [radius] is NaN). *)
Definition blur_pass (horizontal : bool) (kernel : list number) (radius taps : nat)
    (width height : nat) (src dst : list Z) : list Z :=
  let min := Math_min in
  let max := Math_max in
  foldl (λ dst y,
    foldl (λ dst x,
      let '(r, g, b, weightSum) :=
        foldl (λ '(r, g, b, weightSum) j,
                 let k := Z.of_nat j - Z.of_nat radius in
                 let n :=
                   if horizontal
                   then Z.min (Z.max (Z.of_nat x + k) 0) (Z.of_nat width - 1)
                   else Z.min (Z.max (Z.of_nat y + k) 0) (Z.of_nat height - 1) in
                 let weight := nth j kernel nan in
                 let index :=
                   Z.to_nat (if horizontal
                             then (Z.of_nat y * Z.of_nat width + n) * 4
                             else (n * Z.of_nat width + Z.of_nat x) * 4) in
                 ((r + get src index * weight)%float,
                  (g + get src (index + 1) * weight)%float,
                  (b + get src (index + 2) * weight)%float,
                  (weightSum + weight)%float))
              (0%float, 0%float, 0%float, 0%float) (seq 0 taps) in
      let index := ((y * width + x) * 4)%nat in
      let dst := set dst index (min 255 (max 0 (Math_round (r / weightSum))))%float in
      let dst := set dst (index + 1) (min 255 (max 0 (Math_round (g / weightSum))))%float in
      let dst := set dst (index + 2) (min 255 (max 0 (Math_round (b / weightSum))))%float in
      set dst (index + 3) (get src (index + 3)))
    dst (seq 0 width))
  dst (seq 0 height).

(** [applyGaussianFilterOptimized]: the buffer it posts, or [None] when
    [new Float32Array(size)] throws a [RangeError] (a negative size, or one
    above 2^53 - 1).  A NaN size gives an empty kernel, a NaN radius and
    kernel loops that never run. *)
Definition applyGaussianFilterOptimized (imageData : list Z) (width height : nat)
    (sigma : number) : option (list Z) :=
  let result := imageData in
  let kernelSize := (Math_ceil (sigma * 3) * 2 + 1)%float in
  if is_nan kernelSize then
    let kernel := [] in
    let tempBuffer := replicate (length imageData) 0 in
    let tempBuffer := blur_pass true kernel 0 0 width height imageData tempBuffer in
    Some (blur_pass false kernel 0 0 width height tempBuffer result)
  else if (kernelSize <? 0)%float || (9007199254740991 <? kernelSize)%float then None
  else
    match truncZ (Math_floor (kernelSize / 2))%float with
    | Some c =>
        let radius := Z.to_nat c in
        let kernel := createGaussianKernel radius sigma in
        let tempBuffer := replicate (length imageData) 0 in
        let tempBuffer :=
          blur_pass true kernel radius (2 * radius + 1) width height imageData tempBuffer in
        Some (blur_pass false kernel radius (2 * radius + 1) width height tempBuffer result)
    | None => None
    end.

End Gaussian.

(** *** The worker's colour adjustments *)

(** The [params] of a colour adjustment; a property left out is [None]. *)
Record params := mk_params {
  brightness : option number;
  contrast : option number;
  saturation : option number;
  temperature : option number;
  exposure : option number;
  shadows : option number;
  highlights : option number
}.

(** [if (params.x)]: the value when it is there and truthy. *)
Definition when_truthy (v : option number) : option number :=
  match v with
  | Some x => if truthy x then Some x else None
  | None => None
  end.

Record hsl := mk_hsl {
  h : number;
  s : number;
  l : number
}.

(** [rgbToHsl(r, g, b)]; the [switch] compares with [===], and [h] stays
    [undefined], NaN after the division, when no case is taken. *)
Definition rgbToHsl (r g b : number) : hsl :=
  let r := (r / 255)%float in
  let g := (g / 255)%float in
  let b := (b / 255)%float in
  let max := Math_max (Math_max r g) b in
  let min := Math_min (Math_min r g) b in
  let l := ((max + min) / 2)%float in
  if strict_eq max min then mk_hsl 0 0 l
  else
    let d := (max - min)%float in
    let s := (if 0.5 <? l then d / (2 - max - min) else d / (max + min))%float in
    let h :=
      (if strict_eq max r then (g - b) / d + (if g <? b then 6 else 0)
       else if strict_eq max g then (b - r) / d + 2
       else if strict_eq max b then (r - g) / d + 4
       else nan)%float in
    mk_hsl (h / 6)%float s l.

Definition hue2rgb (p q t : number) : number :=
  let t := (if t <? 0 then t + 1 else t)%float in
  let t := (if 1 <? t then t - 1 else t)%float in
  (if t <? 1 / 6 then p + (q - p) * 6 * t
   else if t <? 1 / 2 then q
   else if t <? 2 / 3 then p + (q - p) * (2 / 3 - t) * 6
   else p)%float.

(** [hslToRgb(h, s, l)]: the channels [{ r, g, b }]. *)
Definition hslToRgb (h s l : number) : number * number * number :=
  let '(r, g, b) :=
    if strict_eq s 0 then (l, l, l)
    else
      let q := (if l <? 0.5 then l * (1 + s) else l + s - l * s)%float in
      let p := (2 * l - q)%float in
      (hue2rgb p q (h + 1 / 3)%float, hue2rgb p q h, hue2rgb p q (h - 1 / 3)%float) in
  (Math_round (r * 255)%float, Math_round (g * 255)%float, Math_round (b * 255)%float).

Section Adjustments.

(** [Math.pow]: an implementation-approximated function of the host. *)
Variable Math_pow : number → number → number.

(** [adjustPixelColor(imageData, index, params)]: the buffer afterwards. *)
Definition adjustPixelColor (imageData : list Z) (index : nat) (params : params) : list Z :=
  let min := Math_min in
  let max := Math_max in
  let r := get imageData index in
  let g := get imageData (index + 1) in
  let b := get imageData (index + 2) in
  let a := get imageData (index + 3) in
  let '(r, g, b) :=
    match when_truthy params.(brightness) with
    | Some brightness =>
        let brightnessFactor := (1 + brightness / 100)%float in
        (min 255 (max 0 (r * brightnessFactor)),
         min 255 (max 0 (g * brightnessFactor)),
         min 255 (max 0 (b * brightnessFactor)))%float
    | None => (r, g, b)
    end in
  let '(r, g, b) :=
    match when_truthy params.(contrast) with
    | Some contrast =>
        let contrastFactor := (1 + contrast / 100)%float in
        (min 255 (max 0 (128 + (r - 128) * contrastFactor)),
         min 255 (max 0 (128 + (g - 128) * contrastFactor)),
         min 255 (max 0 (128 + (b - 128) * contrastFactor)))%float
    | None => (r, g, b)
    end in
  let '(r, g, b) :=
    match when_truthy params.(saturation) with
    | Some saturation =>
        let hsl := rgbToHsl r g b in
        let s := (min 1 (max 0 (hsl.(s) * (1 + saturation / 100))))%float in
        hslToRgb hsl.(h) s hsl.(l)
    | None => (r, g, b)
    end in
  let '(r, g, b) :=
    match when_truthy params.(temperature) with
    | Some temperature =>
        let tempFactor := (temperature / 100)%float in
        if (0 <? tempFactor)%float
        then (min 255 (r + tempFactor * 20), min 255 (g + tempFactor * 10), b)%float
        else (r, g, min 255 (b - tempFactor * 20))%float
    | None => (r, g, b)
    end in
  let '(r, g, b) :=
    match when_truthy params.(exposure) with
    | Some exposure =>
        let exposureFactor := Math_pow 2 (exposure / 3)%float in
        (min 255 (max 0 (r * exposureFactor)),
         min 255 (max 0 (g * exposureFactor)),
         min 255 (max 0 (b * exposureFactor)))%float
    | None => (r, g, b)
    end in
  let '(r, g, b) :=
    match params.(shadows) with
    | Some shadows =>
        let shadowFactor := (1 + shadows / 100)%float in
        let lift v := (if v <? 128 then min 128 (v * shadowFactor) else v)%float in
        (lift r, lift g, lift b)
    | None => (r, g, b)
    end in
  let '(r, g, b) :=
    match params.(highlights) with
    | Some highlights =>
        let highlightFactor := (1 - highlights / 100)%float in
        let pull v :=
          (if 128 <? v then max 128 (255 - (255 - v) * highlightFactor) else v)%float in
        (pull r, pull g, pull b)
    | None => (r, g, b)
    end in
  let imageData := set imageData index (Math_round r) in
  let imageData := set imageData (index + 1) (Math_round g) in
  let imageData := set imageData (index + 2) (Math_round b) in
  set imageData (index + 3) a.

(** [applyColorAdjustments(data)] of the worker: the buffer it posts. *)
Definition applyColorAdjustments (imageData : list Z) (width height : nat) (params : params)
    : list Z :=
  let result := imageData in
  foldl (λ result k, adjustPixelColor result (4 * k) params)
        result (seq 0 (Nat.div (length imageData + 3) 4)).

End Adjustments.

End Worker.

(** [computeHistogram] of the worker: four [Uint32Array(256)]. *)
Module WorkerHistogram.

Record histogram := mk_histogram {
  red : list Z;
  green : list Z;
  blue : list Z;
  luminance : list Z
}.

(** [h[idx]++] on a [Uint32Array]: counts wrap at 2^32, and a key that is
    no index of the array changes no element. *)
Definition incr (h : list Z) (idx : number) : list Z :=
  match index_in (length h) idx with
  | Some n =>
      match h !! n with
      | Some c => <[n := (c + 1) `mod` 2 ^ 32]> h
      | None => h
      end
  | None => h
  end.

Definition computeHistogram (imageData : list Z) (width height : nat) : histogram :=
  foldl (λ histogram k,
           let i := (4 * k)%nat in
           let r := get imageData i in
           let g := get imageData (i + 1) in
           let b := get imageData (i + 2) in
           let a := get imageData (i + 3) in
           if (a <? 128)%float then histogram
           else
             let luminance := Math_round (0.2126 * r + 0.7152 * g + 0.0722 * b)%float in
             mk_histogram (incr histogram.(red) r) (incr histogram.(green) g)
                          (incr histogram.(blue) b)
                          (incr histogram.(WorkerHistogram.luminance) luminance))
        (mk_histogram (replicate 256 0) (replicate 256 0) (replicate 256 0) (replicate 256 0))
        (seq 0 (Nat.div (length imageData + 3) 4)).

End WorkerHistogram.

(* ===================================================================== *)
(** ** The histogram manager: [calculateHistogram] with its change detector *)
(* ===================================================================== *)

Module Histogram.

(** One element [{ r, g, b, l }] of the histogram array. *)
Record bucket := mk_bucket {
  r : Z;
  g : Z;
  b : Z;
  l : Z
}.

(** The module-level variables.  [lastImageDataHash] holds the 32-bit hash
    itself: [toString(36)] is one-to-one on it. *)
Record state := mk_state {
  cachedHistogramData : option (list bucket);
  lastImageDataHash : option Z
}.

Definition initial : state := mk_state None None.

(** [calculateDataHash(data)]: the loop runs while [i < sampleSize], and
    [sampleSize] is at most 1000. *)
Definition calculateDataHash (data : list Z) : Z :=
  let length := of_nat (length data) in
  let sampleSize := Math_min 1000 (length / 4)%float in
  foldl (λ hash i,
           if (of_nat i <? sampleSize)%float
           then
             let index := Math_floor (of_nat i * length / sampleSize)%float in
             let sample :=
               match index_in (base.length data) index with
               | Some n => get data n
               | None => nan
               end in
             ToInt32 (of_Z (shl hash 5) - of_Z hash + sample)%float
           else hash)
        0 (seq 0 1000).

(** [histogram[idx].field++]: a [TypeError] ([None]) when [histogram[idx]]
    is [undefined]. *)
Definition bump (f : bucket → bucket) (histogram : list bucket) (idx : number)
    : option (list bucket) :=
  n ← index_in (length histogram) idx;
  bk ← histogram !! n;
  Some (<[n := f bk]> histogram).

Definition bump_r := bump (λ k, mk_bucket (k.(r) + 1) k.(g) k.(b) k.(l)).
Definition bump_g := bump (λ k, mk_bucket k.(r) (k.(g) + 1) k.(b) k.(l)).
Definition bump_b := bump (λ k, mk_bucket k.(r) k.(g) (k.(b) + 1) k.(l)).
Definition bump_l := bump (λ k, mk_bucket k.(r) k.(g) k.(b) (k.(l) + 1)).

(** The counting loop; both branches of the size test of the source run
    this same loop. *)
Definition count_pixels (data : list Z) : option (list bucket) :=
  foldl (λ acc k,
           histogram ← acc;
           let i := (4 * k)%nat in
           let r := get data i in
           let g := get data (i + 1) in
           let b := get data (i + 2) in
           let l := Math_round (0.299 * r + 0.587 * g + 0.114 * b)%float in
           histogram ← bump_r histogram r;
           histogram ← bump_g histogram g;
           histogram ← bump_b histogram b;
           bump_l histogram l)
        (Some (replicate 256 (mk_bucket 0 0 0 0)))
        (seq 0 (Nat.div (length data + 3) 4)).

(** [calculateHistogram(imageData)]: [None] is a thrown [TypeError];
    otherwise the value returned ([None] for [null]) and the new state.
    [imageData] is [None] when the argument or its [data] is missing. *)
Definition calculateHistogram (st : state) (imageData : option (list Z))
    : option (option (list bucket) * state) :=
  match imageData with
  | None => Some (None, st)
  | Some data =>
      let currentHash := calculateDataHash data in
      match st.(cachedHistogramData) with
      | Some cached =>
          if bool_decide (Some currentHash = st.(lastImageDataHash))
          then Some (Some cached, st)
          else
            histogram ← count_pixels data;
            Some (Some histogram, mk_state (Some histogram) (Some currentHash))
      | None =>
          histogram ← count_pixels data;
          Some (Some histogram, mk_state (Some histogram) (Some currentHash))
      end
  end.

End Histogram.

(* ===================================================================== *)
(** ** Colour-range replacement: matching, replacing, history and undo *)
(* ===================================================================== *)

Module ColorReplace.

(** *** Strings: [hexToRgb] and [rgbToHex] *)

Definition hex_digit_value (c : ascii) : option Z :=
  let n := Z.of_N (Ascii.N_of_ascii c) in
  if (48 <=? n) && (n <=? 57) then Some (n - 48)
  else if (97 <=? n) && (n <=? 102) then Some (n - 87)
  else if (65 <=? n) && (n <=? 70) then Some (n - 55)
  else None.

(** The digits of [parseInt(_, 16)]: the longest prefix of hex digits,
    [None] when it is empty. *)
Fixpoint hex_prefix (s : string) (acc : option Z) : option Z :=
  match s with
  | EmptyString => acc
  | String c s' =>
      match hex_digit_value c with
      | Some d => hex_prefix s' (Some (16 * default 0 acc + d))
      | None => acc
      end
  end.

Definition is_space (c : ascii) : bool :=
  let n := Ascii.N_of_ascii c in
  ((9 <=? n) && (n <=? 13))%N || (n =? 32)%N.

Fixpoint skip_spaces (s : string) : string :=
  match s with
  | String c s' => if is_space c then skip_spaces s' else s
  | EmptyString => s
  end.

(** [parseInt(s, 16)]: blanks, a sign and [0x] may come first; NaN when no
    digit follows. *)
Definition parseInt16 (s : string) : number :=
  let s := skip_spaces s in
  let '(neg, s) :=
    match s with
    | String "-" s' => (true, s')
    | String "+" s' => (false, s')
    | _ => (false, s)
    end in
  let s :=
    match s with
    | String "0" (String "x" s') => s'
    | String "0" (String "X" s') => s'
    | _ => s
    end in
  match hex_prefix s None with
  | Some z => of_Z (if neg then - z else z)
  | None => nan
  end.

(** A colour [{ r, g, b }]. *)
Record color := mk_color {
  r : number;
  g : number;
  b : number
}.

Definition hexToRgb (hex : string) : color :=
  let hex :=
    match hex with
    | String "#" s' => s'
    | _ => hex
    end in
  let bigint := parseInt16 hex in
  mk_color (of_Z (band (sar (ToInt32 bigint) 16) 255))
           (of_Z (band (sar (ToInt32 bigint) 8) 255))
           (of_Z (band (ToInt32 bigint) 255)).

Definition hex_digit (d : Z) : ascii :=
  Ascii.ascii_of_N (Z.to_N (if d <? 10 then 48 + d else 55 + d)).

(** The digits of a positive integer in base 16, upper case. *)
Fixpoint hex_digits (fuel : nat) (n : Z) (acc : string) : string :=
  match fuel with
  | O => acc
  | S fuel =>
      let acc := String (hex_digit (n `mod` 16)) acc in
      if n `div` 16 =? 0 then acc else hex_digits fuel (n `div` 16) acc
  end.

(** [rgbToHex(r, g, b)] on channel values read from the buffer:
    [((1 << 24) + (r << 16) + (g << 8) + b).toString(16).slice(1).toUpperCase()]
    after a ["#"]. *)
Definition rgbToHex (r g b : Z) : string :=
  let n := shl 1 24 + shl r 16 + shl g 8 + b in
  let digits := if n <? 0 then String "-" (hex_digits 64 (- n) EmptyString)
                else hex_digits 64 n EmptyString in
  String "#" (match digits with String _ rest => rest | EmptyString => EmptyString end).

(** *** Matching *)

(** [Math.pow(v, 2)], taken as the correctly rounded square. *)
Definition pow2 (v : number) : number := (v * v)%float.

Definition isColorInRangeOptimized (pixelRgb startRgb endRgb startToEnd : color)
    (startToEndLengthSquared : number) (isSameColor : bool) (tolerance : number) : bool :=
  if isSameColor then
    let distance :=
      Math_sqrt (pow2 (pixelRgb.(r) - startRgb.(r)) +
                 pow2 (pixelRgb.(g) - startRgb.(g)) +
                 pow2 (pixelRgb.(b) - startRgb.(b)))%float in
    (distance <=? tolerance)%float
  else
    let pixelToStart :=
      mk_color (pixelRgb.(r) - startRgb.(r))%float
               (pixelRgb.(g) - startRgb.(g))%float
               (pixelRgb.(b) - startRgb.(b))%float in
    let dotProduct :=
      (pixelToStart.(r) * startToEnd.(r) + pixelToStart.(g) * startToEnd.(g) +
       pixelToStart.(b) * startToEnd.(b))%float in
    let projectionRatio := (dotProduct / startToEndLengthSquared)%float in
    if (0 <=? projectionRatio)%float && (projectionRatio <=? 1)%float then
      let projectedPoint :=
        mk_color (startRgb.(r) + projectionRatio * startToEnd.(r))%float
                 (startRgb.(g) + projectionRatio * startToEnd.(g))%float
                 (startRgb.(b) + projectionRatio * startToEnd.(b))%float in
      let distance :=
        Math_sqrt (pow2 (pixelRgb.(r) - projectedPoint.(r)) +
                   pow2 (pixelRgb.(g) - projectedPoint.(g)) +
                   pow2 (pixelRgb.(b) - projectedPoint.(b)))%float in
      let rangeLength := Math_sqrt startToEndLengthSquared in
      let dynamicTolerance :=
        Math_max (tolerance * 0.5)%float
                 (Math_min (tolerance * 1.5)%float (rangeLength * 0.2)%float) in
      (distance <=? dynamicTolerance)%float
    else false.

(** The values [findColorsInRange] computes once per call and passes to
    every test of a pixel. *)
Definition startToEnd_of (startRgb endRgb : color) : color :=
  mk_color (endRgb.(r) - startRgb.(r))%float
           (endRgb.(g) - startRgb.(g))%float
           (endRgb.(b) - startRgb.(b))%float.

Definition lengthSquared (v : color) : number :=
  (v.(r) * v.(r) + v.(g) * v.(g) + v.(b) * v.(b))%float.

(** The test of one pixel as [findColorsInRange] runs it. *)
Definition pixel_in_range (pixelRgb startRgb endRgb : color) (tolerance : number) : bool :=
  let startToEnd := startToEnd_of startRgb endRgb in
  let startToEndLengthSquared := lengthSquared startToEnd in
  let isSameColor := strict_eq startToEndLengthSquared 0 in
  isColorInRangeOptimized pixelRgb startRgb endRgb startToEnd
                          startToEndLengthSquared isSameColor tolerance.

(** [isColorInRange(pixelRgb, startRgb, endRgb, tolerance)], which works
    the vector and its length out for itself. *)
Definition isColorInRange (pixelRgb startRgb endRgb : color) (tolerance : number) : bool :=
  let startToEnd :=
    mk_color (endRgb.(r) - startRgb.(r))%float
             (endRgb.(g) - startRgb.(g))%float
             (endRgb.(b) - startRgb.(b))%float in
  let pixelToStart :=
    mk_color (pixelRgb.(r) - startRgb.(r))%float
             (pixelRgb.(g) - startRgb.(g))%float
             (pixelRgb.(b) - startRgb.(b))%float in
  let dotProduct :=
    (pixelToStart.(r) * startToEnd.(r) + pixelToStart.(g) * startToEnd.(g) +
     pixelToStart.(b) * startToEnd.(b))%float in
  let startToEndLengthSquared :=
    (startToEnd.(r) * startToEnd.(r) + startToEnd.(g) * startToEnd.(g) +
     startToEnd.(b) * startToEnd.(b))%float in
  if strict_eq startToEndLengthSquared 0 then
    let distance :=
      Math_sqrt (pow2 (pixelRgb.(r) - startRgb.(r)) +
                 pow2 (pixelRgb.(g) - startRgb.(g)) +
                 pow2 (pixelRgb.(b) - startRgb.(b)))%float in
    (distance <=? tolerance)%float
  else
    let projectionRatio := (dotProduct / startToEndLengthSquared)%float in
    if (0 <=? projectionRatio)%float && (projectionRatio <=? 1)%float then
      let projectedPoint :=
        mk_color (startRgb.(r) + projectionRatio * startToEnd.(r))%float
                 (startRgb.(g) + projectionRatio * startToEnd.(g))%float
                 (startRgb.(b) + projectionRatio * startToEnd.(b))%float in
      let distance :=
        Math_sqrt (pow2 (pixelRgb.(r) - projectedPoint.(r)) +
                   pow2 (pixelRgb.(g) - projectedPoint.(g)) +
                   pow2 (pixelRgb.(b) - projectedPoint.(b)))%float in
      let rangeLength := Math_sqrt startToEndLengthSquared in
      let dynamicTolerance :=
        Math_max (tolerance * 0.5)%float
                 (Math_min (tolerance * 1.5)%float (rangeLength * 0.2)%float) in
      (distance <=? dynamicTolerance)%float
    else false.

(** *** The canvas and [findColorsInRange] with its cache *)

(** The 2D canvas: its size and the RGBA octets [getImageData] copies out
    and [putImageData] copies in. *)
Record canvas := mk_canvas {
  width : nat;
  height : nat;
  pixels : list Z
}.

Record position := mk_position {
  x : nat;
  y : nat;
  index : nat
}.

(** One entry [{ hex, rgb, positions }] of the result. *)
Record colorInfo := mk_colorInfo {
  hex : string;
  rgb : color;
  positions : list position
}.

(** [colorMap.get(pixelHex).positions.push(pos)], after the entry was made
    when missing; a [Map] keeps its keys in the order of their insertion. *)
Fixpoint record_position (colorMap : list colorInfo) (pixelHex : string)
    (pixelRgb : color) (pos : position) : list colorInfo :=
  match colorMap with
  | [] => [mk_colorInfo pixelHex pixelRgb [pos]]
  | c :: rest =>
      if String.eqb c.(hex) pixelHex
      then mk_colorInfo c.(hex) c.(rgb) (c.(positions) ++ [pos]) :: rest
      else c :: record_position rest pixelHex pixelRgb pos
  end.

Definition cacheKey_of (startColor endColor : string) (tolerance : Z) (cv : canvas) : string :=
  startColor +:+ "-" +:+ endColor +:+ "-" +:+ pretty tolerance +:+ "-" +:+
  pretty cv.(width) +:+ "-" +:+ pretty cv.(height).

(** The scan of the canvas, run on a cache miss. *)
Definition scanColorsInRange (cv : canvas) (startColor endColor : string) (tolerance : Z)
    : list colorInfo :=
  let data := cv.(pixels) in
  let startRgb := hexToRgb startColor in
  let endRgb := hexToRgb endColor in
  let startToEnd := startToEnd_of startRgb endRgb in
  let startToEndLengthSquared := lengthSquared startToEnd in
  let isSameColor := strict_eq startToEndLengthSquared 0 in
  foldl (λ colorMap k,
           let i := (4 * k)%nat in
           let a := get data (i + 3) in
           if (0 <? a)%float then
             let pixelRgb := mk_color (get data i) (get data (i + 1)) (get data (i + 2)) in
             let pixelHex := rgbToHex (octet_at data i) (octet_at data (i + 1))
                                      (octet_at data (i + 2)) in
             if isColorInRangeOptimized pixelRgb startRgb endRgb startToEnd
                  startToEndLengthSquared isSameColor (of_Z tolerance)
             then
               let pixelIndex := k in
               record_position colorMap pixelHex pixelRgb
                 (mk_position (pixelIndex `mod` cv.(width))%nat
                              (pixelIndex `div` cv.(width))%nat i)
             else colorMap
           else colorMap)
        [] (seq 0 (Nat.div (length data + 3) 4)).

(** [findColorsInRange(startColor, endColor, tolerance)]: the array it
    returns and the cache afterwards. *)
Definition findColorsInRange (cv : canvas) (colorCache : gmap string (list colorInfo))
    (startColor endColor : string) (tolerance : Z)
    : list colorInfo * gmap string (list colorInfo) :=
  let cacheKey := cacheKey_of startColor endColor tolerance cv in
  match colorCache !! cacheKey with
  | Some cached => (cached, colorCache)
  | None =>
      let colorsInRange := scanColorsInRange cv startColor endColor tolerance in
      (colorsInRange, <[cacheKey := colorsInRange]> colorCache)
  end.

Definition clearColorCache (colorCache : gmap string (list colorInfo))
    : gmap string (list colorInfo) := ∅.

(** *** Replacing *)

Definition calculateColorPosition (pixelRgb startRgb endRgb : color) : number :=
  let startToEnd := startToEnd_of startRgb endRgb in
  let pixelToStart :=
    mk_color (pixelRgb.(r) - startRgb.(r))%float
             (pixelRgb.(g) - startRgb.(g))%float
             (pixelRgb.(b) - startRgb.(b))%float in
  let dotProduct :=
    (pixelToStart.(r) * startToEnd.(r) + pixelToStart.(g) * startToEnd.(g) +
     pixelToStart.(b) * startToEnd.(b))%float in
  let startToEndLengthSquared := lengthSquared startToEnd in
  if strict_eq startToEndLengthSquared 0 then 0%float
  else
    let projectionRatio := (dotProduct / startToEndLengthSquared)%float in
    Math_max 0 (Math_min 1 projectionRatio).

Definition interpolateColor (color1 color2 : color) (ratio : number) : color :=
  mk_color (Math_round (color1.(r) + (color2.(r) - color1.(r)) * ratio)%float)
           (Math_round (color1.(g) + (color2.(g) - color1.(g)) * ratio)%float)
           (Math_round (color1.(b) + (color2.(b) - color1.(b)) * ratio)%float).

Definition mixColors (color1 color2 : color) (ratio : number) : color :=
  mk_color (Math_round (color1.(r) + (color2.(r) - color1.(r)) * ratio)%float)
           (Math_round (color1.(g) + (color2.(g) - color1.(g)) * ratio)%float)
           (Math_round (color1.(b) + (color2.(b) - color1.(b)) * ratio)%float).

(** [applyColorReplaceToImageData]: the buffer of [imageData] after the
    call and the count it returns. *)
Definition applyColorReplaceToImageData (data : list Z) (colorsInRange : list colorInfo)
    (startColor endColor targetStartColor targetEndColor : string) (mixRatio : number)
    : list Z * nat :=
  let startRgb := hexToRgb startColor in
  let endRgb := hexToRgb endColor in
  let targetStartRgb := hexToRgb targetStartColor in
  let targetEndRgb := hexToRgb targetEndColor in
  foldl (λ '(data, replacedPixels) color,
           let positionRatio := calculateColorPosition color.(rgb) startRgb endRgb in
           let targetRgb := interpolateColor targetStartRgb targetEndRgb positionRatio in
           let finalRgb := mixColors color.(rgb) targetRgb mixRatio in
           foldl (λ '(data, replacedPixels) position,
                    let index := position.(index) in
                    let data := set data index finalRgb.(r) in
                    let data := set data (index + 1) finalRgb.(g) in
                    let data := set data (index + 2) finalRgb.(b) in
                    (data, S replacedPixels))
                 (data, replacedPixels) color.(positions))
        (data, O) colorsInRange.

(** *** History and undo *)

(** The controls of the panel the handlers read: the four colour inputs,
    the mix-ratio slider (per cent) and the tolerance slider. *)
Record controls := mk_controls {
  colorRangeStart : string;
  colorRangeEnd : string;
  targetColorStart : string;
  targetColorEnd : string;
  mixRatio : Z;
  colorTolerance : Z
}.

(** One entry of [colorReplaceHistory]; [originalImageData] is the copy of
    the buffer taken before the replacement. *)
Record changeRecord := mk_changeRecord {
  id : Z;
  startColor : string;
  endColor : string;
  targetStartColor : string;
  targetEndColor : string;
  rec_mixRatio : Z;
  tolerance : Z;
  replacedPixels : nat;
  originalImageData : list Z;
  colorsInRange : list (string * nat)
}.

(** The state the handlers share.  [colorReplaceHistory] is a JavaScript
    array: an assignment past its end leaves holes ([None]). *)
Record page := mk_page {
  the_canvas : canvas;
  the_controls : controls;
  colorReplaceHistory : list (option changeRecord);
  currentEditingIndex : Z;
  colorCache : gmap string (list colorInfo)
}.

(** [ctx.putImageData(imageData, 0, 0)] for an [imageData] read from the
    whole of this canvas: every pixel is overwritten. *)
Definition putImageData (cv : canvas) (data : list Z) : canvas :=
  mk_canvas cv.(width) cv.(height) data.

(** [array[i] = v] *)
Definition array_assign {A} (array : list (option A)) (i : nat) (v : A) : list (option A) :=
  if decide (i < length array)%nat then <[i := Some v]> array
  else array ++ replicate (i - length array) None ++ [Some v].

(** [updateUIComponents()], as far as this state goes: the colour cache is
    cleared. *)
Definition updateUIComponents (p : page) : page :=
  mk_page p.(the_canvas) p.(the_controls) p.(colorReplaceHistory)
          p.(currentEditingIndex) (clearColorCache p.(colorCache)).

(** [applyColorReplaceEffect()] at time [now]: the page afterwards and the
    count shown, [None] when the handler gives up with an alert. *)
Definition applyColorReplaceEffect (now : Z) (p : page) : page * option nat :=
  let startColor := p.(the_controls).(colorRangeStart) in
  let endColor := p.(the_controls).(colorRangeEnd) in
  let targetStartColor := p.(the_controls).(targetColorStart) in
  let targetEndColor := p.(the_controls).(targetColorEnd) in
  let mixRatioValue := (of_Z p.(the_controls).(mixRatio) / 100)%float in
  let tolerance := p.(the_controls).(colorTolerance) in
  let '(colorsInRange, colorCache) :=
    findColorsInRange p.(the_canvas) p.(colorCache) startColor endColor tolerance in
  if decide (length colorsInRange = 0)%nat
  then (mk_page p.(the_canvas) p.(the_controls) p.(colorReplaceHistory)
                p.(currentEditingIndex) colorCache, None)
  else
    let imageData := p.(the_canvas).(pixels) in
    let originalImageData := imageData in
    let '(imageData, replacedPixels) :=
      applyColorReplaceToImageData imageData colorsInRange startColor endColor
                                   targetStartColor targetEndColor mixRatioValue in
    let cv := putImageData p.(the_canvas) imageData in
    let changeRecord :=
      mk_changeRecord now startColor endColor targetStartColor targetEndColor
                      p.(the_controls).(mixRatio) tolerance replacedPixels
                      originalImageData
                      (map (λ color, (color.(hex), length color.(positions))) colorsInRange) in
    let '(history, editing) :=
      if 0 <=? p.(currentEditingIndex)
      then (array_assign p.(colorReplaceHistory) (Z.to_nat p.(currentEditingIndex))
                         changeRecord, -1)
      else (p.(colorReplaceHistory) ++ [Some changeRecord], p.(currentEditingIndex)) in
    (updateUIComponents (mk_page cv p.(the_controls) history editing colorCache),
     Some replacedPixels).

(** [undoLastColorReplace()]: [None] is the [TypeError] of reading a hole. *)
Definition undoLastColorReplace (p : page) : option page :=
  match last p.(colorReplaceHistory) with
  | None => Some p
  | Some None => None
  | Some (Some lastChange) =>
      let cv := putImageData p.(the_canvas) lastChange.(originalImageData) in
      let history := removelast p.(colorReplaceHistory) in
      Some (updateUIComponents
              (mk_page cv p.(the_controls) history p.(currentEditingIndex) p.(colorCache)))
  end.

(** [window.editColorReplace(index)] *)
Definition editColorReplace (index : nat) (p : page) : page :=
  match p.(colorReplaceHistory) !! index with
  | Some (Some record) =>
      mk_page p.(the_canvas)
              (mk_controls record.(startColor) record.(endColor)
                           record.(targetStartColor) record.(targetEndColor)
                           record.(rec_mixRatio) record.(tolerance))
              p.(colorReplaceHistory) (Z.of_nat index) p.(colorCache)
  | _ => p
  end.

(** [window.deleteColorReplace(index)]; [confirmed] is the answer to the
    [confirm] dialog, and [None] is the [TypeError] of reading
    [originalImageData] off a record that is not there. *)
Definition deleteColorReplace (confirmed : bool) (index : nat) (p : page) : option page :=
  if confirmed then
    match p.(colorReplaceHistory) !! index with
    | Some (Some record) =>
        let cv := putImageData p.(the_canvas) record.(originalImageData) in
        let history := delete index p.(colorReplaceHistory) in
        Some (updateUIComponents
                (mk_page cv p.(the_controls) history p.(currentEditingIndex) p.(colorCache)))
    | _ => None
    end
  else Some p.

(** [clearColorReplaceHistory()] *)
Definition clearColorReplaceHistory (p : page) : page :=
  mk_page p.(the_canvas) p.(the_controls) [] (-1) p.(colorCache).

End ColorReplace.

(* ===================================================================== *)
(** ** [Map]: keys in the order of their first insertion *)
(* ===================================================================== *)

Module JsMap.

Section Ops.

Context {K V : Type} `{EqDecision K}.

Fixpoint get (m : list (K * V)) (k : K) : option V :=
  match m with
  | [] => None
  | (k', v) :: rest => if decide (k' = k) then Some v else get rest k
  end.

Definition has (m : list (K * V)) (k : K) : bool :=
  match get m k with
  | Some _ => true
  | None => false
  end.

(** [m.set(k, v)]: a key already present keeps its place. *)
Fixpoint set (m : list (K * V)) (k : K) (v : V) : list (K * V) :=
  match m with
  | [] => [(k, v)]
  | (k', v') :: rest =>
      if decide (k' = k) then (k, v) :: rest else (k', v') :: set rest k v
  end.

Fixpoint delete (m : list (K * V)) (k : K) : list (K * V) :=
  match m with
  | [] => []
  | (k', v') :: rest =>
      if decide (k' = k) then rest else (k', v') :: delete rest k
  end.

Definition size (m : list (K * V)) : Z := Z.of_nat (length m).

End Ops.

End JsMap.

(* ===================================================================== *)
(** ** The result cache of [PerformanceOptimizer] *)
(* ===================================================================== *)

Module Cache.

(** The maps of [this.cache] that hold values. *)
Inductive cacheType := imageData | processed | operations.

Definition type_name (type : cacheType) : string :=
  match type with
  | imageData => "imageData"
  | processed => "processed"
  | operations => "operations"
  end.

(** [`${type}_${key}`] *)
Definition timestampKey_of (type : cacheType) (key : string) : string :=
  type_name type +:+ "_" +:+ key.

(** [s] without its first [n] characters. *)
Fixpoint drop_chars (n : nat) (s : string) : string :=
  match n, s with
  | S n, String _ rest => drop_chars n rest
  | _, _ => s
  end.

(** [s.replace(pat, '')] for a string pattern: the first occurrence goes. *)
Fixpoint replace_first (pat s : string) : string :=
  if String.prefix pat s then drop_chars (String.length pat) s
  else match s with
       | EmptyString => s
       | String c rest => String c (replace_first pat rest)
       end.

Record cacheConfig := mk_cacheConfig {
  maxSize : Z;
  ttl : Z;
  enabled : bool
}.

Section WithValues.

(** What the cache stores: processed buffers, opaque to the cache. *)
Context {V : Type}.

Record state := mk_state {
  cache_imageData : list (string * V);
  cache_processed : list (string * V);
  cache_operations : list (string * V);
  timestamps : list (string * Z);
  config : cacheConfig;
  cachedOperations : nat
}.

(** The state the constructor builds. *)
Definition initial : state :=
  mk_state [] [] [] [] (mk_cacheConfig 5 (5 * 60 * 1000) true) O.

(** [this.cache[type]] *)
Definition cache_of (type : cacheType) (st : state) : list (string * V) :=
  match type with
  | imageData => st.(cache_imageData)
  | processed => st.(cache_processed)
  | operations => st.(cache_operations)
  end.

Definition with_cache (type : cacheType) (m : list (string * V)) (ts : list (string * Z))
    (st : state) : state :=
  match type with
  | imageData =>
      mk_state m st.(cache_processed) st.(cache_operations) ts st.(config) st.(cachedOperations)
  | processed =>
      mk_state st.(cache_imageData) m st.(cache_operations) ts st.(config) st.(cachedOperations)
  | operations =>
      mk_state st.(cache_imageData) st.(cache_processed) m ts st.(config) st.(cachedOperations)
  end.

(** [configureCache({ maxSize })] *)
Definition configureCache_maxSize (n : Z) (st : state) : state :=
  mk_state st.(cache_imageData) st.(cache_processed) st.(cache_operations) st.(timestamps)
           (mk_cacheConfig n st.(config).(ttl) st.(config).(enabled)) st.(cachedOperations).

(** [getOldestCacheKey(type)]: [oldestTime] starts at [Infinity] ([None]);
    [None] as a result is [null]. *)
Definition getOldestCacheKey (type : cacheType) (st : state) : option string :=
  fst (foldl (λ '(oldestKey, oldestTime) '(key, timestamp),
                if String.prefix (type_name type +:+ "_") key then
                  if match oldestTime with
                     | Some t => timestamp <? t
                     | None => true
                     end
                  then (Some (replace_first (type_name type +:+ "_") key), Some timestamp)
                  else (oldestKey, oldestTime)
                else (oldestKey, oldestTime))
             (None, None) st.(timestamps)).

(** A string in a condition: only the empty one is falsy. *)
Definition truthy_string (s : string) : bool :=
  negb (String.eqb s EmptyString).

(** [setCache(key, value, type)] when the clock reads [now]. *)
Definition setCache (now : Z) (key : string) (value : V) (type : cacheType) (st : state)
    : state :=
  if negb st.(config).(enabled) || negb (truthy_string key) then st
  else
    let st :=
      if st.(config).(maxSize) <=? JsMap.size (cache_of type st) then
        match getOldestCacheKey type st with
        | Some oldestKey =>
            if truthy_string oldestKey then
              with_cache type (JsMap.delete (cache_of type st) oldestKey)
                         (JsMap.delete st.(timestamps) (timestampKey_of type oldestKey)) st
            else st
        | None => st
        end
      else st in
    with_cache type (JsMap.set (cache_of type st) key value)
               (JsMap.set st.(timestamps) (timestampKey_of type key) now) st.

(** [getCache(key, type)] when the clock reads [now]: the value returned
    ([None] for [null]) and the state afterwards. *)
Definition getCache (now : Z) (key : string) (type : cacheType) (st : state)
    : option V * state :=
  if negb st.(config).(enabled) || negb (truthy_string key) ||
     negb (JsMap.has (cache_of type st) key)
  then (None, st)
  else
    let timestampKey := timestampKey_of type key in
    let timestamp := JsMap.get st.(timestamps) timestampKey in
    if match timestamp with
       | Some t => negb (t =? 0) && (st.(config).(ttl) <? now - t)
       | None => false
       end
    then (None, with_cache type (JsMap.delete (cache_of type st) key)
                           (JsMap.delete st.(timestamps) timestampKey) st)
    else
      let st := with_cache type (cache_of type st)
                           (JsMap.set st.(timestamps) timestampKey now) st in
      (JsMap.get (cache_of type st) key,
       mk_state st.(cache_imageData) st.(cache_processed) st.(cache_operations)
                st.(timestamps) st.(config) (S st.(cachedOperations))).

(** [clearCache(type)] for one of the three maps, and [clearCache()]
    ([None]) for all of them. *)
Definition clearCache (type : option cacheType) (st : state) : state :=
  match type with
  | Some type =>
      with_cache type []
        (filter (λ e, String.prefix (type_name type +:+ "_") e.1 = false) st.(timestamps)) st
  | None => mk_state [] [] [] [] st.(config) st.(cachedOperations)
  end.

End WithValues.

Arguments state : clear implicits.

End Cache.

(* ===================================================================== *)
(** ** The task queue of [ImageProcessor] and the worker's message handler *)
(* ===================================================================== *)

Module Scheduler.

(** The [data] of a task: the buffer with its size, and the parameter of
    the filter asked for. *)
Record taskData := mk_taskData {
  imageData : list Z;
  width : nat;
  height : nat;
  radius : nat;
  sigma : number
}.

(** What a task computes. *)
Inductive resultValue :=
  | Buffer (data : list Z)
  | Histogram (h : WorkerHistogram.histogram).

(** The object the main thread posts: [{ task, data, taskId }]. *)
Record request := mk_request {
  req_task : string;
  req_data : taskData;
  req_taskId : nat
}.

(** The object the worker posts back; a property left out is [None]. *)
Record workerMessage := mk_workerMessage {
  taskId : option nat;
  success : option bool;
  task : option string;
  result : option resultValue;
  error : option string;
  progress : option number;
  complete : option bool
}.

(** *** The worker side: [self.onmessage] *)

(** A task function either throws ([inl] of the error's message) or posts
    messages ([inr]). *)
Definition handler := taskData → string + list workerMessage.

Definition posted_result (task : string) (r : resultValue) : workerMessage :=
  mk_workerMessage None (Some true) (Some task) (Some r) None None None.

Definition failure (message : string) : workerMessage :=
  mk_workerMessage None (Some false) None None (Some message) None None.

Section Worker.

Variable Math_exp : number → number.

(** The two task functions not embedded here: the batched [processImage]
    and the worker's own [applyColorAdjustments]. *)
Variables processImage applyColorAdjustments : handler.

Definition applyMedianFilter_task : handler := λ data,
  match Worker.applyMedianFilterOptimized data.(imageData) data.(width) data.(height)
                                          data.(radius) with
  | Some result => inr [posted_result "applyMedianFilter" (Buffer result)]
  | None => inl "Maximum call stack size exceeded"
  end.

Definition applyGaussianFilter_task : handler := λ data,
  match Worker.applyGaussianFilterOptimized Math_exp data.(imageData) data.(width)
                                            data.(height) data.(sigma) with
  | Some result => inr [posted_result "applyGaussianFilter" (Buffer result)]
  | None => inl "Invalid typed array length"
  end.

Definition computeHistogram_task : handler := λ data,
  inr [posted_result "computeHistogram"
         (Histogram (WorkerHistogram.computeHistogram data.(imageData) data.(width)
                                                      data.(height)))].

(** [self.onmessage(e)]: the messages posted while handling [e]. *)
Definition onmessage (e : request) : list workerMessage :=
  let task := e.(req_task) in
  let data := e.(req_data) in
  let run (f : handler) :=
    match f data with
    | inr messages => messages
    | inl message => [failure message]
    end in
  if String.eqb task "processImage" then run processImage
  else if String.eqb task "applyMedianFilter" then run applyMedianFilter_task
  else if String.eqb task "applyGaussianFilter" then run applyGaussianFilter_task
  else if String.eqb task "computeHistogram" then run computeHistogram_task
  else if String.eqb task "applyColorAdjustments" then run applyColorAdjustments
  else [failure ("Unknown task: " +:+ task)].

End Worker.

(** *** The main-thread side *)

(** The [success] property of the object handed to a callback:
    [handleWorkerMessage] writes [success: Boolean], the constructor
    function itself. *)
Inductive successValue :=
  | BooleanConstructor
  | Bool (b : bool).

Definition truthy_success (v : successValue) : bool :=
  match v with
  | BooleanConstructor => true
  | Bool b => b
  end.

(** The object a callback receives. *)
Record response := mk_response {
  resp_success : successValue;
  resp_result : option resultValue;
  resp_error : option string;
  resp_progress : option number;
  resp_partialResult : option resultValue
}.

Section MainThread.

(** Callbacks are opaque to the queue. *)
Context {C : Type}.

Record queuedTask := mk_queuedTask {
  q_taskId : nat;
  q_taskType : string;
  q_data : taskData;
  q_callback : C
}.

(** What the queue does to the outside, in order: calls of callbacks,
    messages to the worker, and zero-delay timers to be run later. *)
Inductive effect :=
  | Call (callback : C) (r : response)
  | PostMessage (e : request)
  | SetTimeout (t : queuedTask) (cachedResult : resultValue).

Record state := mk_state {
  taskQueue : list queuedTask;
  isProcessing : bool;
  resultCache : gmap string resultValue;
  callbacks : gmap nat C;
  taskIdCounter : nat;
  effects : list effect
}.

Definition initial : state := mk_state [] false ∅ ∅ O [].

(** [generateCacheKey(taskType, data)]; [None] is [null]. *)
Definition generateCacheKey (taskType : string) (data : taskData) : option string :=
  if String.eqb taskType "computeHistogram" then
    let imageData := data.(imageData) in
    let hash :=
      foldl (λ hash k,
               let i := (4 * k)%nat in
               ToInt32 (of_Z (shl hash 5) - of_Z hash + get imageData i)%float)
            0 (seq 0 (Nat.div (Nat.min 1000 (length imageData) + 3) 4)) in
    Some ("computeHistogram_" +:+ pretty hash)
  else None.

(** [processNextTask()] *)
Definition processNextTask (st : state) : state :=
  match st.(taskQueue) with
  | [] => st
  | t :: rest =>
      let cacheKey := generateCacheKey t.(q_taskType) t.(q_data) in
      match (if String.eqb t.(q_taskType) "processImage" then None
             else cacheKey ≫= λ k, st.(resultCache) !! k) with
      | Some cachedResult =>
          mk_state rest st.(isProcessing) st.(resultCache) st.(callbacks)
                   st.(taskIdCounter) (st.(effects) ++ [SetTimeout t cachedResult])
      | None =>
          mk_state rest true st.(resultCache) st.(callbacks) st.(taskIdCounter)
                   (st.(effects) ++
                    [PostMessage (mk_request t.(q_taskType) t.(q_data) t.(q_taskId))])
      end
  end.

(** The function a [SetTimeout] effect runs when its timer fires. *)
Definition run_timeout (t : queuedTask) (cachedResult : resultValue) (st : state) : state :=
  let st :=
    mk_state st.(taskQueue) st.(isProcessing) st.(resultCache)
             (delete t.(q_taskId) st.(callbacks)) st.(taskIdCounter)
             (st.(effects) ++
              [Call t.(q_callback) (mk_response (Bool true) (Some cachedResult) None None None)]) in
  processNextTask st.

(** [addTask(taskType, data, callback)]: the state afterwards and the id
    returned. *)
Definition addTask (taskType : string) (data : taskData) (callback : C) (st : state)
    : state * nat :=
  let taskId := S st.(taskIdCounter) in
  let st :=
    mk_state (st.(taskQueue) ++ [mk_queuedTask taskId taskType data callback])
             st.(isProcessing) st.(resultCache) (<[taskId := callback]> st.(callbacks))
             taskId st.(effects) in
  (if st.(isProcessing) then st else processNextTask st, taskId).

(** A string in a condition. *)
Definition truthy_error (error : option string) : bool :=
  match error with
  | Some s => negb (String.eqb s EmptyString)
  | None => false
  end.

(** [handleWorkerMessage(e)] for [e.data = m]. *)
Definition handleWorkerMessage (m : workerMessage) (st : state) : state :=
  let st :=
    match m.(taskId) with
    | Some (S n) =>
        let taskId := S n in
        match st.(callbacks) !! taskId with
        | Some callback =>
            if truthy_error m.(error) then
              mk_state st.(taskQueue) st.(isProcessing) st.(resultCache)
                       (delete taskId st.(callbacks)) st.(taskIdCounter)
                       (st.(effects) ++
                        [Call callback (mk_response BooleanConstructor None m.(error) None None)])
            else if bool_decide (is_Some m.(progress)) then
              mk_state st.(taskQueue) st.(isProcessing) st.(resultCache)
                       st.(callbacks) st.(taskIdCounter)
                       (st.(effects) ++
                        [Call callback (mk_response BooleanConstructor None None
                                                    m.(progress) m.(result))])
            else if default false m.(complete) then
              mk_state st.(taskQueue) st.(isProcessing) st.(resultCache)
                       (delete taskId st.(callbacks)) st.(taskIdCounter)
                       (st.(effects) ++
                        [Call callback (mk_response BooleanConstructor m.(result) None None None)])
            else st
        | None => st
        end
    | _ => st
    end in
  if default false m.(complete) || truthy_error m.(error) then
    processNextTask
      (mk_state st.(taskQueue) false st.(resultCache) st.(callbacks)
                st.(taskIdCounter) st.(effects))
  else st.

(** [handleWorkerError(error)] *)
Definition handleWorkerError (st : state) : state :=
  processNextTask
    (mk_state st.(taskQueue) false st.(resultCache) st.(callbacks)
              st.(taskIdCounter) st.(effects)).

(** [cancelTask(taskId)] *)
Definition cancelTask (taskId : nat) (st : state) : state :=
  match st.(callbacks) !! taskId with
  | Some _ =>
      mk_state (filter (λ t, t.(q_taskId) ≠ taskId) st.(taskQueue)) st.(isProcessing)
               st.(resultCache) (delete taskId st.(callbacks)) st.(taskIdCounter)
               st.(effects)
  | None => st
  end.

(** [clearCache()] *)
Definition clearCache (st : state) : state :=
  mk_state st.(taskQueue) st.(isProcessing) ∅ st.(callbacks) st.(taskIdCounter)
           st.(effects).

End MainThread.

Arguments state : clear implicits.
Arguments effect : clear implicits.
Arguments queuedTask : clear implicits.

(** How the promise of a filter or histogram request is settled by the
    callback [applyMedianFilter], [applyGaussianFilter],
    [computeHistogram] and [applyColorAdjustments] register. *)
Inductive settlement :=
  | Resolved (value : option resultValue)
  | Rejected (message : option string).

Definition filter_callback (r : response) : settlement :=
  if truthy_success r.(resp_success) then Resolved r.(resp_result)
  else Rejected r.(resp_error).

End Scheduler.

(* ===================================================================== *)
(** ** Vocabulary of the properties *)
(* ===================================================================== *)

(** Every recorded position starts a pixel. *)
Definition aligned (c : ColorReplace.colorInfo) : Prop :=
  Forall (λ pos, ∃ k, pos.(ColorReplace.index) = (4 * k)%nat) c.(ColorReplace.positions).

(** What the loop of the filter keeps: a buffer of the length of the
    input whose alpha octets are those of the input. *)
Definition keeps_alpha (imageData : list Z) (acc : option (list Z)) : Prop :=
  ∃ result, acc = Some result ∧ length result = length imageData ∧
            ∀ j, (j `mod` 4 = 3)%nat → result !! j = imageData !! j.

(** The alpha places one pass writes, row by row. *)
Definition alpha_places (width height : nat) : list nat :=
  flat_map (λ y, map (λ x, ((y * width + x) * 4 + 3)%nat) (seq 0 width)) (seq 0 height).

(** What a pass keeps while it runs: at the alpha places written so far
    the destination holds the alpha of the source, elsewhere its own. *)
Definition pass_state (src dst0 : list Z) (written : list nat) (dst : list Z) : Prop :=
  length dst = length src ∧
  ∀ j, (j `mod` 4 = 3)%nat →
       (j ∈ written → dst !! j = src !! j) ∧ (j ∉ written → dst !! j = dst0 !! j).

(** The three filters on a 3 x 3 picture whose nine alpha octets differ. *)
Definition sample_3x3 : list Z :=
  [  1;   2;   3; 255;     9;   8;   7; 254;     4;   4;   4; 253;
     5;   5;   5; 252;   100; 100; 100; 251;     6;   6;   6; 250;
     7;   1;   2; 249;     8;   3;   4; 248;     9;   9;   9; 247].

(** The Number values of the octets, in order. *)
Definition octet_numbers : list number := map of_Z octets.

(** A test of three channel values run over every triple of octets. *)
Definition every_triple (P : number → number → number → bool) : bool :=
  forallb (λ r, forallb (λ g, forallb (λ b, P r g b) octet_numbers) octet_numbers)
          octet_numbers.

(** The sum of one count over the 256 elements of a histogram. *)
Definition total (count : Histogram.bucket → Z) (histogram : list Histogram.bucket) : Z :=
  foldr (λ k acc, count k + acc) 0 histogram.

(** The sum of a count array. *)
Definition sum_counts (counts : list Z) : Z := foldr Z.add 0 counts.

(** The pixels the worker's histogram counts: alpha at least 128. *)
Definition opaque_pixels (data : list Z) : list nat :=
  filter (λ k, 128 ≤ octet_at data (4 * k + 3)) (seq 0 ((length data + 3) / 4)).

(** A count array in the middle of the loop: 256 counts, none negative,
    adding up to [c]. *)
Definition counted (c : Z) (counts : list Z) : Prop :=
  length counts = 256%nat ∧ Forall (λ c, 0 ≤ c) counts ∧ sum_counts counts = c.

(** One count of the histogram a call of [calculateHistogram] returned,
    summed over the buckets. *)
Definition returned_total (count : Histogram.bucket → Z)
    (outcome : option (option (list Histogram.bucket) * Histogram.state)) : option Z :=
  match outcome with
  | Some (Some histogram, _) => Some (total count histogram)
  | _ => None
  end.

(** The state of the histogram manager after one call on a buffer. *)
Definition state_after (data : list Z) : Histogram.state :=
  match Histogram.calculateHistogram Histogram.initial (Some data) with
  | Some (_, st) => st
  | None => Histogram.initial
  end.

(** The user sets the inputs of the replacement panel. *)
Definition set_controls (c : ColorReplace.controls) (p : ColorReplace.page) : ColorReplace.page :=
  ColorReplace.mk_page p.(ColorReplace.the_canvas) c p.(ColorReplace.colorReplaceHistory)
                       p.(ColorReplace.currentEditingIndex) p.(ColorReplace.colorCache).

(** The entry [applyColorReplaceEffect] stores is the last of the history:
    it is pushed, or it replaces the last slot or one past the end. *)
Definition stores_last (p : ColorReplace.page) : Prop :=
  p.(ColorReplace.currentEditingIndex) < 0 ∨
  (length p.(ColorReplace.colorReplaceHistory) ≤
   Z.to_nat p.(ColorReplace.currentEditingIndex) + 1)%nat.

(** A 2 x 1 picture, one red and one green pixel, and a session on it:
    red is replaced by blue, green by white, then the first entry is put
    into edit and the inputs are changed to replace blue by red. *)
Definition red_green : ColorReplace.page :=
  ColorReplace.mk_page
    (ColorReplace.mk_canvas 2 1 [255; 0; 0; 255; 0; 255; 0; 255])
    (ColorReplace.mk_controls "#ff0000" "#ff0000" "#0000ff" "#0000ff" 100 0)
    [] (-1) ∅.

Definition editing_session : ColorReplace.page :=
  let p1 := (ColorReplace.applyColorReplaceEffect 1 red_green).1 in
  let p2 :=
    (ColorReplace.applyColorReplaceEffect 2
       (set_controls (ColorReplace.mk_controls "#00ff00" "#00ff00" "#ffffff" "#ffffff" 100 0)
                     p1)).1 in
  set_controls (ColorReplace.mk_controls "#0000ff" "#0000ff" "#ff0000" "#ff0000" 100 0)
               (ColorReplace.editColorReplace 0 p2).

(** The ids of the entries of a history, holes apart. *)
Definition history_ids (p : ColorReplace.page) : list (option Z) :=
  map (fmap ColorReplace.id) p.(ColorReplace.colorReplaceHistory).

(** *** The matching rule in the words of its description *)

(** A colour whose three channels are the octets [r], [g] and [b], as the
    scan reads them from the buffer and [hexToRgb] from a colour input. *)
Definition octet_color (r g b : Z) : ColorReplace.color :=
  ColorReplace.mk_color (of_Z r) (of_Z g) (of_Z b).

(** The Euclidean distance of two colours in RGB space. *)
Definition distance (p q : ColorReplace.color) : number :=
  Math_sqrt (ColorReplace.pow2 (p.(ColorReplace.r) - q.(ColorReplace.r)) +
             ColorReplace.pow2 (p.(ColorReplace.g) - q.(ColorReplace.g)) +
             ColorReplace.pow2 (p.(ColorReplace.b) - q.(ColorReplace.b)))%float.






(** The pixel is within [tol] of the one colour of a degenerate range. *)
Definition within_radius (pixel start_ : ColorReplace.color) (tol : number) : Prop :=
  (distance pixel start_ <=? tol)%float = true.

(** The squares of the octets as Numbers, and the square of the
    difference of two channels. *)
Definition squares : list number := map (λ k, of_Z (k * k)) octets.

Definition channel_square (a b : Z) : number :=
  ((of_Z b - of_Z a) * (of_Z b - of_Z a))%float.

(** *** The cache and its timestamps in step *)

(** The maps hold each key once; the timestamps are those of the entries
    of the three maps, under their [type_key] names; no key is empty. *)
Definition synced {V} (st : Cache.state V) : Prop :=
  NoDup st.(Cache.timestamps).*1 ∧
  (∀ type, NoDup (Cache.cache_of type st).*1) ∧
  (∀ s, s ∈ st.(Cache.timestamps).*1 ↔
        ∃ type key, s = Cache.timestampKey_of type key ∧ key ∈ (Cache.cache_of type st).*1) ∧
  (∀ type key, key ∈ (Cache.cache_of type st).*1 → key ≠ EmptyString).

(** *** A failing task in the queue *)

(** A Gaussian blur asked for with [sigma = -1], which makes the worker
    throw on [new Float32Array(-5)], and a median filter queued behind it;
    the callbacks are named by strings. *)
Definition failing_blur : Scheduler.taskData :=
  Scheduler.mk_taskData [10; 20; 30; 255] 1 1 1 (-1)%float.

Definition queued_median : Scheduler.taskData :=
  Scheduler.mk_taskData [1; 2; 3; 255] 1 1 1 1%float.

Definition two_tasks : Scheduler.state string :=
  (Scheduler.addTask "applyMedianFilter" queued_median "median callback"
     (Scheduler.addTask "applyGaussianFilter" failing_blur "blur callback"
        Scheduler.initial).1).1.

(** A failure report as it would look had the worker copied the id of the
    task into it. *)
Definition failure_for (taskId : nat) (message : string) : Scheduler.workerMessage :=
  Scheduler.mk_workerMessage (Some taskId) (Some false) None None (Some message) None None.

(** The state with the in-flight flag cleared, from which the next task is
    dispatched. *)
Definition idle {C} (st : Scheduler.state C) : Scheduler.state C :=
  Scheduler.mk_state st.(Scheduler.taskQueue) false st.(Scheduler.resultCache)
                     st.(Scheduler.callbacks) st.(Scheduler.taskIdCounter)
                     st.(Scheduler.effects).

(** *** Runs of the task queue *)

(** The states the processor goes through from [st0]: the calls made on
    it, the messages and errors of its worker, and the timers it set
    firing.  Callbacks are taken not to call back into the processor
    while they run. *)
Inductive runs {C} (st0 : Scheduler.state C) : Scheduler.state C → Prop :=
  | run_start : runs st0 st0
  | run_addTask st taskType data callback :
      runs st0 st → runs st0 (Scheduler.addTask taskType data callback st).1
  | run_message st m :
      runs st0 st → runs st0 (Scheduler.handleWorkerMessage m st)
  | run_error st :
      runs st0 st → runs st0 (Scheduler.handleWorkerError st)
  | run_cancel st taskId :
      runs st0 st → runs st0 (Scheduler.cancelTask taskId st)
  | run_clear st :
      runs st0 st → runs st0 (Scheduler.clearCache st)
  | run_timer st t cachedResult :
      runs st0 st → Scheduler.SetTimeout t cachedResult ∈ st.(Scheduler.effects) →
      runs st0 (Scheduler.run_timeout t cachedResult st).

(** The states reached from the one the constructor builds. *)
Definition reachable {C} (st : Scheduler.state C) : Prop := runs Scheduler.initial st.

(** The ids of the tasks posted to the worker, in the order of posting. *)
Definition posted_ids {C} (effects : list (Scheduler.effect C)) : list nat :=
  omap (λ e, match e with
             | Scheduler.PostMessage e => Some e.(Scheduler.req_taskId)
             | _ => None
             end) effects.

(** The ids of the tasks waiting in the queue, first to last. *)
Definition queued_ids {C} (st : Scheduler.state C) : list nat :=
  Scheduler.q_taskId <$> st.(Scheduler.taskQueue).

Definition is_timer {C} (e : Scheduler.effect C) : bool :=
  match e with
  | Scheduler.SetTimeout _ _ => true
  | _ => false
  end.

(** What every state of a run from the constructor satisfies, whatever is
    in flight: the result cache is empty and no timer was set; the ids
    posted and then those waiting are in increasing order and were all
    handed out; so were the ids with a callback. *)
Definition queue_invariant {C} (st : Scheduler.state C) : Prop :=
  st.(Scheduler.resultCache) = ∅ ∧
  Forall (λ e, is_timer e = false) st.(Scheduler.effects) ∧
  StronglySorted lt (posted_ids st.(Scheduler.effects) ++ queued_ids st) ∧
  Forall (λ i, (i ≤ st.(Scheduler.taskIdCounter))%nat)
         (posted_ids st.(Scheduler.effects) ++ queued_ids st) ∧
  (∀ i, is_Some (st.(Scheduler.callbacks) !! i) →
        (1 ≤ i ≤ st.(Scheduler.taskIdCounter))%nat).

(** The flag is down only when nothing waits. *)
Definition settled {C} (st : Scheduler.state C) : Prop :=
  st.(Scheduler.isProcessing) = false → st.(Scheduler.taskQueue) = [].

(** A task that is gone for good: not posted, not waiting, without a
    callback, and with an id that will not be handed out again. *)
Definition forgotten {C} (taskId : nat) (st : Scheduler.state C) : Prop :=
  (taskId ∉ posted_ids st.(Scheduler.effects)) ∧
  (taskId ∉ queued_ids st) ∧
  st.(Scheduler.callbacks) !! taskId = None ∧
  (taskId ≤ st.(Scheduler.taskIdCounter))%nat.

(** The processor after a first task was sent off and its worker answered
    [{ complete: true }] without naming a task. *)
Definition after_one_task : Scheduler.state string :=
  Scheduler.handleWorkerMessage
    (Scheduler.mk_workerMessage None (Some true) None None None None (Some true))
    (Scheduler.addTask "applyMedianFilter" queued_median "median callback"
       Scheduler.initial).1.

(** *** The cache over its life *)

Global Instance cacheType_eq_dec : EqDecision Cache.cacheType.
Proof. solve_decision. Defined.

(** A cache that holds ["a"] and ["b"] among its processed results, with
    room for two. *)
Definition two_entries : Cache.state nat :=
  Cache.setCache 11 "b" 2%nat Cache.processed
    (Cache.setCache 10 "a" 1%nat Cache.processed
       (Cache.configureCache_maxSize 2 Cache.initial)).

(** *** Neutral adjustments *)

(** Every stage of the grading pass at its identity value but the
    contrast, which is at work. *)
Definition only_contrast (settings : Color.settings) (dom : Color.sliders) : Prop :=
  or_default settings.(Color.bright) 1 = 1%float ∧
  strict_neq dom.(Color.contrastSlider) 0 = true ∧
  dom.(Color.saturationSlider) = 100%float ∧
  defined_or dom.(Color.tempSlider) 0 = 0%float ∧
  defined_or dom.(Color.tintSlider) 0 = 0%float ∧
  or_default settings.(Color.exp_shift) 0 = 0%float ∧
  defined_or settings.(Color.shadows) dom.(Color.shadowsSlider) = 0%float ∧
  defined_or settings.(Color.highlights) dom.(Color.highlightsSlider) = 0%float ∧
  defined_or settings.(Color.whites) dom.(Color.whitesSlider) = 100%float ∧
  settings.(Color.user_mul) = None.

(** The three tint sliders in the middle. *)
Definition neutral_tints : Color.tintSliders := Color.mk_tintSliders 0 0 0.

(** Parameters of the worker's adjustment that ask for nothing: what is
    tested for truth is missing, 0 or NaN, and shadows and highlights are
    missing or 0. *)
Definition neutral_params (params : Worker.params) : Prop :=
  Worker.when_truthy params.(Worker.brightness) = None ∧
  Worker.when_truthy params.(Worker.contrast) = None ∧
  Worker.when_truthy params.(Worker.saturation) = None ∧
  Worker.when_truthy params.(Worker.temperature) = None ∧
  Worker.when_truthy params.(Worker.exposure) = None ∧
  (params.(Worker.shadows) = None ∨ params.(Worker.shadows) = Some 0%float) ∧
  (params.(Worker.highlights) = None ∨ params.(Worker.highlights) = Some 0%float).

(** A picture of two pixels. *)
Definition two_pixels : list Z := [10; 20; 30; 255; 200; 100; 50; 7].

(** *** What the scan finds *)

(** The pixels [findColorsInRange] reports when it scans: those that are
    not fully transparent and pass the range test, by their number in
    the buffer. *)
Definition matching_pixels (cv : ColorReplace.canvas) (startColor endColor : string)
    (tolerance : Z) : list nat :=
  let data := cv.(ColorReplace.pixels) in
  filter (λ k,
            (0 <? get data (4 * k + 3))%float = true ∧
            ColorReplace.pixel_in_range
              (ColorReplace.mk_color (get data (4 * k)) (get data (4 * k + 1))
                                     (get data (4 * k + 2)))
              (ColorReplace.hexToRgb startColor) (ColorReplace.hexToRgb endColor)
              (of_Z tolerance) = true)
         (seq 0 ((length data + 3) / 4)).

(** The position recorded for pixel number [k]. *)
Definition position_of (cv : ColorReplace.canvas) (k : nat) : ColorReplace.position :=
  ColorReplace.mk_position (k `mod` cv.(ColorReplace.width))%nat
                           (k `div` cv.(ColorReplace.width))%nat (4 * k).

(** All the positions of a result, colour by colour. *)
Definition recorded_positions (colors : list ColorReplace.colorInfo)
    : list ColorReplace.position :=
  flat_map ColorReplace.positions colors.

(** A 2 x 2 picture: two reds, a transparent red and a blue. *)
Definition reds_and_blue : ColorReplace.canvas :=
  ColorReplace.mk_canvas 2 2
    [255; 0; 0; 255;   250; 5; 5; 128;   255; 0; 0; 0;   0; 0; 255; 255].

(** *** Selection *)

(** The array while [partition] scans for the pivot [p] of the window
    [left .. right] of [zs0]: a rearrangement of [zs0] within the window,
    with the pivot still at [right], the values up to the pivot in
    [left .. i - 1] and the larger ones in [i .. j - 1]. *)
Definition scanned (zs0 : list Z) (left right : nat) (p : Z) (zs : list Z) (i j : nat)
    : Prop :=
  zs ≡ₚ zs0 ∧ (left ≤ i ≤ j)%nat ∧ zs !! right = Some p ∧
  (∀ m, (m < left ∨ right < m)%nat → zs !! m = zs0 !! m) ∧
  (∀ m x, (left ≤ m ≤ right)%nat → zs !! m = Some x →
          ∃ m', (left ≤ m' ≤ right)%nat ∧ zs0 !! m' = Some x) ∧
  (∀ m x, (left ≤ m < i)%nat → zs !! m = Some x → x ≤ p) ∧
  (∀ m x, (i ≤ m < j)%nat → zs !! m = Some x → p < x).

(** The window [left .. right] is fenced: nothing before it is larger
    than anything in or after it, and nothing after it is smaller than
    anything in or before it. *)
Definition fenced (zs : list Z) (left right : nat) : Prop :=
  ∀ j m x y, zs !! j = Some x → zs !! m = Some y →
             ((j < left ≤ m)%nat → x ≤ y) ∧ ((m ≤ right < j)%nat → y ≤ x).

(** [v] is at place [k]; nothing before it is larger, nothing after it
    smaller. *)
Definition placed (zs : list Z) (k : nat) (v : Z) : Prop :=
  zs !! k = Some v ∧
  (∀ j x, (j < k)%nat → zs !! j = Some x → x ≤ v) ∧
  (∀ j x, (k < j)%nat → zs !! j = Some x → v ≤ x).

(** Five values of a neighbourhood. *)
Definition sample_window : list Z := [9; 3; 200; 3; 77].

(** *** The median filter, pixel by pixel *)

(** The octets of channel [c] in the neighbourhood of pixel [(x, y)], in
    the order the filter collects them. *)
Definition window (imageData : list Z) (width radius x y c : nat) : list Z :=
  flat_map (λ jy,
    map (λ jx,
           octet_at imageData
                    (((y - radius + jy) * width + (x - radius + jx)) * 4 + c))
        (seq 0 (2 * radius + 1)))
    (seq 0 (2 * radius + 1)).

(** The pixels the filter visits: those at least [radius] away from every
    edge. *)
Definition interior (width height radius x y : nat) : Prop :=
  (radius ≤ x < width - radius)%nat ∧ (radius ≤ y < height - radius)%nat.

(** A median of [zs]: a value of [zs] of rank [length zs / 2]. *)
Definition is_median (zs : list Z) (v : Z) : Prop :=
  v ∈ zs ∧
  (length (filter (λ z, (z < v)%Z) zs) ≤ length zs / 2)%nat ∧
  (length zs / 2 < length (filter (λ z, (z ≤ v)%Z) zs))%nat.

(** Pixel [(x, y)] of [result] holds, in each colour channel, a median of
    the neighbourhood in the input, and the alpha of the input. *)
Definition filtered_pixel (imageData : list Z) (width radius x y : nat) (result : list Z)
    : Prop :=
  (∀ c, (c < 3)%nat →
     ∃ v, result !! ((y * width + x) * 4 + c)%nat = Some v ∧
          is_median (window imageData width radius x y c) v) ∧
  result !! ((y * width + x) * 4 + 3)%nat = imageData !! ((y * width + x) * 4 + 3)%nat.

(** The buffer of the filter while it runs: the pixels [D] holds are
    filtered, the bytes of every other pixel are those of the input. *)
Definition median_state (imageData : list Z) (width radius : nat) (D : nat → nat → Prop)
    (acc : option (list Z)) : Prop :=
  ∃ result,
    acc = Some result ∧ length result = length imageData ∧
    (∀ x y c, (x < width)%nat → (c < 4)%nat → ¬ D x y →
              result !! ((y * width + x) * 4 + c)%nat
              = imageData !! ((y * width + x) * 4 + c)%nat) ∧
    (∀ x y, D x y → (x < width)%nat ∧ filtered_pixel imageData width radius x y result).

(** *** A pass of the blur that has nothing to sum *)

(** The destination while a pass without taps runs over it: the pixels
    [D] holds are black with the alpha of the source, the bytes of every
    other pixel are those the destination had. *)
Definition blacked (src dst0 : list Z) (width : nat) (D : nat → nat → Prop) (dst : list Z)
    : Prop :=
  length dst = length dst0 ∧
  (∀ x y c, (x < width)%nat → (c < 4)%nat → ¬ D x y →
            dst !! ((y * width + x) * 4 + c)%nat = dst0 !! ((y * width + x) * 4 + c)%nat) ∧
  (∀ x y, D x y →
          (x < width)%nat ∧
          dst !! ((y * width + x) * 4)%nat = Some 0 ∧
          dst !! ((y * width + x) * 4 + 1)%nat = Some 0 ∧
          dst !! ((y * width + x) * 4 + 2)%nat = Some 0 ∧
          dst !! ((y * width + x) * 4 + 3)%nat = src !! ((y * width + x) * 4 + 3)%nat).

(** *** Editing an entry of the history *)

(** A session on the two-pixel canvas: two replacements are applied, the
    second entry is opened for editing, both are undone, and the controls
    are set to turn red into blue again.  The index in edit is then 1 and
    the history is empty. *)
Definition stale_session : ColorReplace.page :=
  let p1 := (ColorReplace.applyColorReplaceEffect 1 red_green).1 in
  let p2 :=
    (ColorReplace.applyColorReplaceEffect 2
       (set_controls (ColorReplace.mk_controls "#00ff00" "#00ff00" "#ffffff" "#ffffff" 100 0)
                     p1)).1 in
  let p3 := ColorReplace.editColorReplace 1 p2 in
  let p4 := default p3 (ColorReplace.undoLastColorReplace p3) in
  let p5 := default p4 (ColorReplace.undoLastColorReplace p4) in
  set_controls (ColorReplace.mk_controls "#ff0000" "#ff0000" "#0000ff" "#0000ff" 100 0) p5.
(* ===================================================================== *)
(** * Properties *)
(* ===================================================================== *)

(** ** Stores into a [Uint8ClampedArray] *)

Lemma ToUint8Clamp_octet (x : number) : octet (ToUint8Clamp x).
Proof.
  unfold ToUint8Clamp, octet.
  destruct (is_nan x); [lia|].
  destruct (x <=? 0)%float; [lia|].
  destruct (255 <=? x)%float; [lia|].
  destruct (roundEvenZ x); lia.
Qed.

Lemma set_length (a : list Z) i x : length (set a i x) = length a.
Proof. apply length_insert. Qed.

Lemma set_lookup_ne (a : list Z) i j x : i ≠ j → set a i x !! j = a !! j.
Proof. intros. by apply list_lookup_insert_ne. Qed.


Lemma octet_in_octets v : octet v → In v octets.
Proof.
  intros [H0 H255]. unfold octets.
  apply in_map_iff. exists (Z.to_nat v). split; [lia|].
  apply in_seq. lia.
Qed.

(** A property of every octet, decided by running through all 256. *)
Lemma octets_forall (P : Z → bool) :
  forallb P octets = true → ∀ v, octet v → P v = true.
Proof.
  intros H v Hv. rewrite forallb_forall in H. apply H. by apply octet_in_octets.
Qed.

(** Storing an octet read from a buffer stores that very octet. *)
Lemma ToUint8Clamp_of_octet v : octet v → ToUint8Clamp (of_Z v) = v.
Proof.
  intros Hv.
  apply (octets_forall (λ v, ToUint8Clamp (of_Z v) =? v)) in Hv.
  - by apply Z.eqb_eq.
  - vm_compute. reflexivity.
Qed.

Lemma set_get_same (a src : list Z) j :
  Forall octet src → length a = length src →
  set a j (get src j) !! j = src !! j.
Proof.
  intros Hoct Hlen. unfold set, get.
  destruct (src !! j) as [v|] eqn:Hj.
  - rewrite list_lookup_insert_eq.
    + f_equal. apply ToUint8Clamp_of_octet.
      eapply Forall_lookup_1; eauto.
    + rewrite Hlen. by eapply lookup_lt_Some.
  - rewrite list_insert_ge; [|rewrite Hlen; by apply lookup_ge_None].
    apply lookup_ge_None. rewrite Hlen. by apply lookup_ge_None.
Qed.

(** ** The pixel loop of the grading pass *)

Lemma write_rgb_length data i rgb : length (Color.write_rgb data i rgb) = length data.
Proof. destruct rgb as [[r g] b]. unfold Color.write_rgb. by rewrite !set_length. Qed.


Lemma alpha_offset j : (j `mod` 4 = 3)%nat → ∃ q, j = (4 * q + 3)%nat.
Proof.
  intros Hj. exists (j `div` 4)%nat.
  pose proof (Nat.div_mod_eq j 4). lia.
Qed.

Lemma write_rgb_alpha data k rgb j :
  (j `mod` 4 = 3)%nat → Color.write_rgb data (4 * k) rgb !! j = data !! j.
Proof.
  intros [q ->]%alpha_offset. destruct rgb as [[r g] b]. unfold Color.write_rgb.
  rewrite !set_lookup_ne; [done|lia..].
Qed.

Lemma pixel_loop_length body data : length (Color.pixel_loop body data) = length data.
Proof.
  unfold Color.pixel_loop. generalize (seq 0 ((length data + 3) / 4)) as ks.
  intros ks. revert data. induction ks as [|k ks IH]; intros data; [done|].
  simpl. rewrite IH. apply write_rgb_length.
Qed.


Lemma pixel_loop_alpha body data j :
  (j `mod` 4 = 3)%nat → Color.pixel_loop body data !! j = data !! j.
Proof.
  intros Hj. unfold Color.pixel_loop. generalize (seq 0 ((length data + 3) / 4)) as ks.
  intros ks. revert data. induction ks as [|k ks IH]; intros data; [done|].
  simpl. rewrite IH. by apply write_rgb_alpha.
Qed.

(** The pass either returns its argument or runs the pixel loop over it. *)
Lemma applyColorAdjustments_cases Math_pow data width height settings dom :
  Color.applyColorAdjustments Math_pow data width height settings dom = data ∨
  ∃ body, Color.applyColorAdjustments Math_pow data width height settings dom
          = Color.pixel_loop body data.
Proof.
  unfold Color.applyColorAdjustments.
  match goal with |- context [if ?c then data else _] => destruct c end.
  - by left.
  - right. eexists. reflexivity.
Qed.

(** C1. With every stage at its identity value (brightness 1, contrast 0,
    saturation 100, temperature 0, tint 0, exposure 0, shadows 0,
    highlights 0, whites 100, no white-balance multipliers) the grading
    pass returns the buffer it was given, whatever the buffer holds: the
    early return is taken and the pixel loop never runs. *)
Theorem applyColorAdjustments_identity Math_pow data width height settings dom :
  Color.at_identity settings dom →
  Color.applyColorAdjustments Math_pow data width height settings dom = data.
Proof.
  intros (Hb & Hc & Hs & Htemp & Htint & He & Hsh & Hh & Hw & Hmul).
  unfold Color.applyColorAdjustments.
  rewrite Hb, Hc, Hs, Htemp, Htint, He, Hsh, Hh, Hw, Hmul.
  reflexivity.
Qed.

Lemma applyColorAdjustments_identity_witness :
  Color.applyColorAdjustments (λ x _, x) [10; 20; 30; 255; 300; -4; 7; 128] 2 1
    Color.identity_settings Color.identity_sliders
  = [10; 20; 30; 255; 300; -4; 7; 128].
Proof.
  apply (applyColorAdjustments_identity (λ x _, x) [10; 20; 30; 255; 300; -4; 7; 128] 2 1
           Color.identity_settings Color.identity_sliders).
  repeat split; reflexivity.
Defined.

(** Unset fields count as identity values too: [bright] and [exp_shift]
    left [undefined] (or 0 for [bright], which [||] replaces by 1). *)
Example applyColorAdjustments_unset_is_identity :
  Color.at_identity (Color.mk_settings None None None None None None)
                    (Color.mk_sliders 0 100 0 0 100 None None) ∧
  Color.at_identity (Color.mk_settings (Some 0%float) None None None None None)
                    (Color.mk_sliders 0 100 0 0 100 None None).
Proof. split; repeat split; reflexivity. Qed.




(** The whites stage has no lower clamp: at whites = -100 a white pixel
    leaves the stages as (-255, -255, -255), and it is the store that
    brings the channels back to 0. *)
Example whites_stage_relies_on_the_store :
  Color.applyColorAdjustments (λ x _, x) [255; 255; 255; 255] 1 1
    (Color.mk_settings None None None None (Some (-100)%float) None)
    (Color.mk_sliders 0 100 0 0 100 None None)
  = [0; 0; 0; 255] ∧
  Math_min 255 (255 * ((-100) / 100))%float = (-255)%float.
Proof. split; vm_compute; reflexivity. Qed.

(** ** Alpha under the colour replacement *)

Lemma record_position_aligned colorMap pixelHex pixelRgb pos :
  Forall aligned colorMap →
  (∃ k, pos.(ColorReplace.index) = (4 * k)%nat) →
  Forall aligned (ColorReplace.record_position colorMap pixelHex pixelRgb pos).
Proof.
  intros Hmap Hpos. induction Hmap as [|c rest Hc Hrest IH]; simpl.
  - repeat constructor. done.
  - destruct (String.eqb _ _).
    + constructor; [|done]. unfold aligned in *. simpl.
      apply Forall_app. split; [done|]. by constructor.
    + by constructor.
Qed.

Lemma scanColorsInRange_aligned cv startColor endColor tolerance :
  Forall aligned (ColorReplace.scanColorsInRange cv startColor endColor tolerance).
Proof.
  unfold ColorReplace.scanColorsInRange.
  generalize (seq 0 ((length (ColorReplace.pixels cv) + 3) / 4)) as ks.
  intros ks.
  assert (Hnil : Forall aligned []) by constructor.
  revert Hnil. generalize (@nil ColorReplace.colorInfo) as colorMap.
  induction ks as [|k ks IH]; intros colorMap Hmap; [done|].
  cbn [foldl]. apply IH.
  destruct (0 <? _)%float; [|done].
  destruct (ColorReplace.isColorInRangeOptimized _ _ _ _ _ _ _); [|done].
  apply record_position_aligned; [done|]. by exists k.
Qed.

Lemma replace_positions_alpha (finalRgb : ColorReplace.color) positions data n j :
  Forall (λ pos, ∃ k, pos.(ColorReplace.index) = (4 * k)%nat) positions →
  (j `mod` 4 = 3)%nat →
  (foldl (λ '(data, replacedPixels) position,
            let index := position.(ColorReplace.index) in
            let data := set data index finalRgb.(ColorReplace.r) in
            let data := set data (index + 1) finalRgb.(ColorReplace.g) in
            let data := set data (index + 2) finalRgb.(ColorReplace.b) in
            (data, S replacedPixels))
         (data, n) positions).1 !! j = data !! j.
Proof.
  intros Hpos [q ->]%alpha_offset. revert data n.
  induction Hpos as [|pos positions [k Hk] _ IH]; intros data n; [done|].
  cbn [foldl]. rewrite IH, Hk. rewrite !set_lookup_ne; [done|lia..].
Qed.

Lemma replace_colors_alpha (startRgb endRgb targetStartRgb targetEndRgb : ColorReplace.color)
    mixRatio colors data n j :
  Forall aligned colors →
  (j `mod` 4 = 3)%nat →
  (foldl (λ '(data, replacedPixels) color,
           let positionRatio :=
             ColorReplace.calculateColorPosition color.(ColorReplace.rgb) startRgb endRgb in
           let targetRgb :=
             ColorReplace.interpolateColor targetStartRgb targetEndRgb positionRatio in
           let finalRgb := ColorReplace.mixColors color.(ColorReplace.rgb) targetRgb mixRatio in
           foldl (λ '(data, replacedPixels) position,
                    let index := position.(ColorReplace.index) in
                    let data := set data index finalRgb.(ColorReplace.r) in
                    let data := set data (index + 1) finalRgb.(ColorReplace.g) in
                    let data := set data (index + 2) finalRgb.(ColorReplace.b) in
                    (data, S replacedPixels))
                 (data, replacedPixels) color.(ColorReplace.positions))
        (data, n) colors).1 !! j = data !! j.
Proof.
  intros Hcolors Hj. revert data n.
  induction Hcolors as [|c colors Hc _ IH]; intros data n; [done|].
  cbn [foldl].
  match goal with
  | |- context [foldl ?f (data, n) (ColorReplace.positions c)] =>
      pose proof (replace_positions_alpha
                    (ColorReplace.mixColors (ColorReplace.rgb c)
                       (ColorReplace.interpolateColor targetStartRgb targetEndRgb
                          (ColorReplace.calculateColorPosition (ColorReplace.rgb c)
                             startRgb endRgb))
                       mixRatio)
                    (ColorReplace.positions c) data n j Hc Hj) as Hstep;
      destruct (foldl f (data, n) (ColorReplace.positions c)) as [data' n'] eqn:Hfold
  end.
  rewrite IH. rewrite <- Hstep. reflexivity.
Qed.

Lemma applyColorReplaceToImageData_alpha data colorsInRange
    startColor endColor targetStartColor targetEndColor mixRatio j :
  Forall aligned colorsInRange →
  (j `mod` 4 = 3)%nat →
  (ColorReplace.applyColorReplaceToImageData data colorsInRange startColor endColor
     targetStartColor targetEndColor mixRatio).1 !! j = data !! j.
Proof.
  intros Hcolors Hj. unfold ColorReplace.applyColorReplaceToImageData.
  by apply replace_colors_alpha.
Qed.

(** ** The selection of the median filter terminates *)

Lemma partition_scan_bounds (pivot : number) js arr i :
  let out :=
    foldl (λ '(arr, i) j,
             if (nth j arr nan <=? pivot)%float
             then (Worker.swap arr i j, S i)
             else (arr, i))
          (arr, i) js in
  (i ≤ out.2 ≤ i + length js)%nat.
Proof.
  revert arr i. induction js as [|j js IH]; intros arr i; cbn [foldl length].
  - simpl. lia.
  - destruct (nth j arr nan <=? pivot)%float.
    + specialize (IH (Worker.swap arr i j) (S i)). simpl in IH. lia.
    + specialize (IH arr i). simpl in IH. lia.
Qed.

Lemma partition_bounds arr left right :
  (left ≤ right)%nat →
  (left ≤ (Worker.partition arr left right).2 ≤ right)%nat.
Proof.
  intros Hle. unfold Worker.partition.
  pose proof (partition_scan_bounds (nth right arr nan) (seq left (right - left)) arr left)
    as Hscan.
  cbv zeta in Hscan. rewrite length_seq in Hscan.
  destruct (foldl _ (arr, left) (seq left (right - left))) as [arr' i].
  simpl in *. lia.
Qed.

Lemma quickselect_total fuel arr left right k :
  (left ≤ k ≤ right)%nat → (right - left < fuel)%nat →
  is_Some (Worker.quickselect fuel arr left right k).
Proof.
  revert arr left right. induction fuel as [|fuel IH]; intros arr left right Hk Hfuel; [lia|].
  cbn [Worker.quickselect].
  destruct (decide (left = right)); [by eexists|].
  pose proof (partition_bounds arr left right ltac:(lia)) as Hp.
  destruct (Worker.partition arr left right) as [arr' p]. simpl in Hp.
  destruct (decide (k = p)); [by eexists|].
  destruct (decide (k < p)%nat); apply IH; lia.
Qed.

(** The median of any neighbourhood is found. *)
Lemma findKthSmallest_middle_total arr :
  is_Some (Worker.findKthSmallest arr (length arr / 2)).
Proof.
  unfold Worker.findKthSmallest.
  destruct (decide (length arr = 0)%nat) as [Hz|Hnz].
  - rewrite Hz. cbn [Worker.quickselect]. simpl. by eexists.
  - pose proof (Nat.div_lt (length arr) 2 ltac:(lia) ltac:(lia)).
    apply quickselect_total; lia.
Qed.

(** ** Alpha under the median filter *)

Lemma median_pixel_keeps_alpha imageData width radius x y acc :
  Forall octet imageData →
  keeps_alpha imageData acc →
  keeps_alpha imageData
    (result ← acc;
     let rValues := Worker.neighbourhood imageData width radius x y 0 in
     let gValues := Worker.neighbourhood imageData width radius x y 1 in
     let bValues := Worker.neighbourhood imageData width radius x y 2 in
     let midIndex := (length rValues / 2)%nat in
     let index := ((y * width + x) * 4)%nat in
     mr ← Worker.findKthSmallest rValues midIndex;
     mg ← Worker.findKthSmallest gValues midIndex;
     mb ← Worker.findKthSmallest bValues midIndex;
     let result := set result index mr in
     let result := set result (index + 1) mg in
     let result := set result (index + 2) mb in
     Some (set result (index + 3) (get imageData (index + 3)))).
Proof.
  intros Hoct (result & -> & Hlen & Halpha). cbn [mbind option_bind].
  assert (Hlens : ∀ c, length (Worker.neighbourhood imageData width radius x y c)
                       = length (Worker.neighbourhood imageData width radius x y 0)).
  { intros c. unfold Worker.neighbourhood.
    rewrite !flat_map_concat_map, !length_concat. f_equal.
    rewrite !map_map. apply map_ext. intros. by rewrite !length_map. }
  cbv zeta.
  destruct (findKthSmallest_middle_total (Worker.neighbourhood imageData width radius x y 0))
    as [mr ->].
  pose proof (findKthSmallest_middle_total (Worker.neighbourhood imageData width radius x y 1))
    as [mg Hg]. rewrite Hlens in Hg. rewrite Hg.
  pose proof (findKthSmallest_middle_total (Worker.neighbourhood imageData width radius x y 2))
    as [mb Hb]. rewrite Hlens in Hb. rewrite Hb.
  cbn [mbind option_bind].
  eexists. split; [reflexivity|]. split; [by rewrite !set_length|].
  intros j Hj. set (k := (y * width + x)%nat).
  destruct (decide (j = k * 4 + 3)%nat) as [->|Hne].
  - apply set_get_same; [done|by rewrite !set_length].
  - destruct (alpha_offset j Hj) as [q Hq].
    rewrite !set_lookup_ne by lia. by apply Halpha.
Qed.

Lemma median_keeps_alpha imageData width height radius :
  Forall octet imageData →
  keeps_alpha imageData (Worker.applyMedianFilterOptimized imageData width height radius).
Proof.
  intros Hoct. unfold Worker.applyMedianFilterOptimized.
  assert (Hinit : keeps_alpha imageData (Some imageData)) by (by eexists).
  revert Hinit. generalize (Some imageData) as acc.
  generalize (seq radius (height - radius - radius)) as ys.
  induction ys as [|y ys IHy]; intros acc Hacc; [done|].
  cbn [foldl]. apply IHy. clear IHy.
  revert acc Hacc. generalize (seq radius (width - radius - radius)) as xs.
  induction xs as [|x xs IHx]; intros acc Hacc; [done|].
  cbn [foldl]. apply IHx. by apply median_pixel_keeps_alpha.
Qed.

(** ** Alpha under the Gaussian filter *)

Lemma set_octets (a : list Z) i x : Forall octet a → Forall octet (set a i x).
Proof. intros H. unfold set. apply Forall_insert; [done|]. apply ToUint8Clamp_octet. Qed.

Lemma pass_state_pixel src dst0 written dst k v1 v2 v3 :
  Forall octet src →
  pass_state src dst0 written dst →
  pass_state src dst0 (written ++ [(k * 4 + 3)%nat])
    (set (set (set (set dst (k * 4) v1) (k * 4 + 1) v2) (k * 4 + 2) v3)
         (k * 4 + 3) (get src (k * 4 + 3))).
Proof.
  intros Hoct [Hlen Hinv]. split; [by rewrite !set_length|].
  intros j Hj. destruct (alpha_offset j Hj) as [q Hq].
  destruct (decide (j = k * 4 + 3)%nat) as [->|Hne].
  - split.
    + intros _. apply set_get_same; [done|by rewrite !set_length].
    + intros Hnot. exfalso. apply Hnot. apply elem_of_app. right. by apply list_elem_of_singleton.
  - rewrite !set_lookup_ne by lia. destruct (Hinv j Hj) as [Hin Hout]. split.
    + intros [H|H%list_elem_of_singleton]%elem_of_app; [by apply Hin|done].
    + intros Hnot. apply Hout. intros H. apply Hnot. apply elem_of_app. by left.
Qed.

Lemma blur_pass_state horizontal kernel radius taps width height src dst0 :
  Forall octet src → length dst0 = length src →
  pass_state src dst0 (alpha_places width height)
    (Worker.blur_pass horizontal kernel radius taps width height src dst0).
Proof.
  intros Hoct Hlen. unfold Worker.blur_pass, alpha_places.
  assert (Hinit : pass_state src dst0 [] dst0).
  { split; [done|]. intros j _. split; [|done]. by intros ?%elem_of_nil. }
  revert Hinit.
  change (flat_map (λ y, map (λ x, ((y * width + x) * 4 + 3)%nat) (seq 0 width)) (seq 0 height))
    with ([] ++ flat_map (λ y, map (λ x, ((y * width + x) * 4 + 3)%nat) (seq 0 width))
                         (seq 0 height)).
  generalize (@nil nat) as written. generalize dst0 at 2 4 as dst.
  generalize (seq 0 height) as ys.
  induction ys as [|y ys IHy]; intros dst written Hst.
  - cbn [foldl flat_map]. by rewrite app_nil_r.
  - cbn [foldl flat_map]. rewrite app_assoc. apply IHy. clear IHy.
    revert dst written Hst. generalize (seq 0 width) as xs.
    induction xs as [|x xs IHx]; intros dst written Hst.
    + cbn [foldl map]. by rewrite app_nil_r.
    + cbn [foldl map]. rewrite (cons_middle _ written), app_assoc. apply IHx.
      destruct (foldl _ (0%float, 0%float, 0%float, 0%float) (seq 0 taps))
        as [[[r g] b] weightSum].
      by apply pass_state_pixel.
Qed.

Lemma blur_pass_octets horizontal kernel radius taps width height src dst :
  Forall octet dst →
  Forall octet (Worker.blur_pass horizontal kernel radius taps width height src dst).
Proof.
  unfold Worker.blur_pass. revert dst. generalize (seq 0 height) as ys.
  induction ys as [|y ys IHy]; intros dst Hdst; [done|].
  cbn [foldl]. apply IHy. clear IHy.
  revert dst Hdst. generalize (seq 0 width) as xs.
  induction xs as [|x xs IHx]; intros dst Hdst; [done|].
  cbn [foldl]. apply IHx.
  destruct (foldl _ (0%float, 0%float, 0%float, 0%float) (seq 0 taps))
    as [[[r g] b] weightSum].
  by repeat apply set_octets.
Qed.

(** Two passes, the second from the buffer the first filled into a copy
    of the input: the alpha octets of the input come out. *)
Lemma two_passes_keep_alpha kernel radius taps width height imageData j :
  Forall octet imageData → (j `mod` 4 = 3)%nat →
  Worker.blur_pass false kernel radius taps width height
    (Worker.blur_pass true kernel radius taps width height imageData
       (replicate (length imageData) 0))
    imageData !! j = imageData !! j.
Proof.
  intros Hoct Hj.
  set (tempBuffer := Worker.blur_pass true kernel radius taps width height imageData
                       (replicate (length imageData) 0)).
  assert (Htemp : pass_state imageData (replicate (length imageData) 0)
                             (alpha_places width height) tempBuffer).
  { apply blur_pass_state; [done|]. by rewrite length_replicate. }
  assert (Htemp_oct : Forall octet tempBuffer).
  { apply blur_pass_octets. apply Forall_replicate. unfold octet. lia. }
  destruct Htemp as [Hlen Htemp].
  destruct (blur_pass_state false kernel radius taps width height
              tempBuffer imageData Htemp_oct (eq_sym Hlen)) as [_ Hout].
  destruct (Hout j Hj) as [Hin Hnot], (Htemp j Hj) as [Htin _].
  destruct (decide (j ∈ alpha_places width height)) as [Hv|Hv].
  - rewrite Hin by done. by apply Htin.
  - by apply Hnot.
Qed.

Lemma gaussian_keeps_alpha Math_exp imageData width height sigma out j :
  Forall octet imageData → (j `mod` 4 = 3)%nat →
  Worker.applyGaussianFilterOptimized Math_exp imageData width height sigma = Some out →
  out !! j = imageData !! j.
Proof.
  intros Hoct Hj. unfold Worker.applyGaussianFilterOptimized.
  destruct (is_nan _).
  - intros [= <-]. by apply two_passes_keep_alpha.
  - destruct (_ || _); [done|].
    destruct (truncZ _); [|done].
    intros [= <-]. by apply two_passes_keep_alpha.
Qed.


(** C9. The alpha octet of every pixel (offset [index + 3], that is every
    [j] with [j mod 4 = 3]) comes out as it went in: from the grading pass
    for any settings; from the worker's median filter, which always posts
    a buffer; from the worker's Gaussian filter whenever it posts one; and
    from the colour-range replacement over whatever the scan of a canvas
    matched. *)
Theorem alpha_channel_unchanged :
  (∀ Math_pow data width height settings dom j,
     (j `mod` 4 = 3)%nat →
     Color.applyColorAdjustments Math_pow data width height settings dom !! j = data !! j) ∧
  (∀ imageData width height radius,
     Forall octet imageData →
     ∃ out, Worker.applyMedianFilterOptimized imageData width height radius = Some out ∧
            length out = length imageData ∧
            ∀ j, (j `mod` 4 = 3)%nat → out !! j = imageData !! j) ∧
  (∀ Math_exp imageData width height sigma out,
     Forall octet imageData →
     Worker.applyGaussianFilterOptimized Math_exp imageData width height sigma = Some out →
     ∀ j, (j `mod` 4 = 3)%nat → out !! j = imageData !! j) ∧
  (∀ data cv startColor endColor tolerance targetStartColor targetEndColor mixRatio j,
     (j `mod` 4 = 3)%nat →
     (ColorReplace.applyColorReplaceToImageData data
        (ColorReplace.scanColorsInRange cv startColor endColor tolerance)
        startColor endColor targetStartColor targetEndColor mixRatio).1 !! j = data !! j).
Proof.
  split; [|split; [|split]].
  - intros Math_pow data width height settings dom j Hj.
    destruct (applyColorAdjustments_cases Math_pow data width height settings dom)
      as [->|[body ->]]; [done|].
    by apply pixel_loop_alpha.
  - intros imageData width height radius Hoct.
    by apply median_keeps_alpha.
  - intros Math_exp imageData width height sigma out Hoct Hout j Hj.
    by eapply gaussian_keeps_alpha.
  - intros data cv startColor endColor tolerance targetStartColor targetEndColor mixRatio j Hj.
    apply applyColorReplaceToImageData_alpha; [|done].
    apply scanColorsInRange_aligned.
Qed.

Lemma alpha_channel_unchanged_witness :
  (∃ out, Worker.applyMedianFilterOptimized sample_3x3 3 3 1 = Some out ∧
          length out = length sample_3x3 ∧
          ∀ j, (j `mod` 4 = 3)%nat → out !! j = sample_3x3 !! j) ∧
  Worker.applyMedianFilterOptimized sample_3x3 3 3 1
  = Some [  1;   2;   3; 255;     9;   8;   7; 254;     4;   4;   4; 253;
            5;   5;   5; 252;     7;   5;   5; 251;     6;   6;   6; 250;
            7;   1;   2; 249;     8;   3;   4; 248;     9;   9;   9; 247].
Proof.
  split.
  - apply (proj1 (proj2 alpha_channel_unchanged) sample_3x3 3%nat 3%nat 1%nat).
    unfold sample_3x3. repeat constructor; unfold octet; lia.
  - vm_compute. reflexivity.
Defined.

(** ** Histogram sums *)

Lemma of_Z_octet_number v : octet v → In (of_Z v) octet_numbers.
Proof. intros Hv. unfold octet_numbers. apply in_map. by apply octet_in_octets. Qed.

Lemma every_triple_spec P :
  every_triple P = true →
  ∀ r g b, octet r → octet g → octet b → P (of_Z r) (of_Z g) (of_Z b) = true.
Proof.
  unfold every_triple. intros H r g b Hr Hg Hb.
  rewrite forallb_forall in H. specialize (H _ (of_Z_octet_number r Hr)).
  rewrite forallb_forall in H. specialize (H _ (of_Z_octet_number g Hg)).
  rewrite forallb_forall in H. exact (H _ (of_Z_octet_number b Hb)).
Qed.

(** The luminance of every colour, with the weights of either histogram,
    rounds to one of the 256 buckets: checked on all 2^24 colours. *)
Lemma luminance_is_bucket r g b :
  octet r → octet g → octet b →
  is_index 256 (Math_round (0.299 * of_Z r + 0.587 * of_Z g + 0.114 * of_Z b)%float) = true.
Proof.
  apply (every_triple_spec
           (λ r g b, is_index 256 (Math_round (0.299 * r + 0.587 * g + 0.114 * b)%float))).
  vm_compute. reflexivity.
Qed.

Lemma luminance709_is_bucket r g b :
  octet r → octet g → octet b →
  is_index 256 (Math_round (0.2126 * of_Z r + 0.7152 * of_Z g + 0.0722 * of_Z b)%float) = true.
Proof.
  apply (every_triple_spec
           (λ r g b, is_index 256 (Math_round (0.2126 * r + 0.7152 * g + 0.0722 * b)%float))).
  vm_compute. reflexivity.
Qed.

Lemma octet_is_bucket v : octet v → is_index 256 (of_Z v) = true.
Proof.
  apply (octets_forall (λ v, is_index 256 (of_Z v))). vm_compute. reflexivity.
Qed.

Lemma octet_alpha_test v : octet v → (of_Z v <? 128)%float = (v <? 128).
Proof.
  intros Hv.
  apply (octets_forall (λ v, Bool.eqb (of_Z v <? 128)%float (v <? 128))) in Hv.
  - by apply Bool.eqb_prop.
  - vm_compute. reflexivity.
Qed.

Lemma index_in_256 x : is_index 256 x = true → ∃ n, index_in 256 x = Some n ∧ (n < 256)%nat.
Proof.
  intros H. unfold index_in.
  change (of_nat 256) with 256%float. rewrite H.
  eexists. split; [reflexivity|]. lia.
Qed.

Lemma get_lookup (data : list Z) i v : data !! i = Some v → get data i = of_Z v.
Proof. intros H. unfold get. by rewrite H. Qed.

Lemma total_insert count histogram n k k' :
  histogram !! n = Some k →
  total count (<[n := k']> histogram) = total count histogram - count k + count k'.
Proof.
  revert n. induction histogram as [|k0 histogram IH]; intros n Hn; [done|].
  destruct n as [|n]; simpl in *.
  - injection Hn as ->. lia.
  - rewrite (IH n Hn). lia.
Qed.

Lemma bump_total f histogram idx :
  length histogram = 256%nat → is_index 256 idx = true →
  ∃ n k, histogram !! n = Some k ∧
         Histogram.bump f histogram idx = Some (<[n := f k]> histogram).
Proof.
  intros Hlen Hidx. unfold Histogram.bump. rewrite Hlen.
  destruct (index_in_256 idx Hidx) as (n & -> & Hn).
  destruct (lookup_lt_is_Some_2 histogram n) as [k Hk]; [lia|].
  exists n, k. split; [done|]. cbn. by rewrite Hk.
Qed.

(** What the counting loop has after [n] pixels. *)
Lemma count_step (histogram : list Histogram.bucket) r g b l :
  length histogram = 256%nat →
  is_index 256 r = true → is_index 256 g = true →
  is_index 256 b = true → is_index 256 l = true →
  ∃ histogram',
    (histogram ← Histogram.bump_r histogram r;
     histogram ← Histogram.bump_g histogram g;
     histogram ← Histogram.bump_b histogram b;
     Histogram.bump_l histogram l) = Some histogram' ∧
    length histogram' = 256%nat ∧
    total Histogram.r histogram' = total Histogram.r histogram + 1 ∧
    total Histogram.g histogram' = total Histogram.g histogram + 1 ∧
    total Histogram.b histogram' = total Histogram.b histogram + 1 ∧
    total Histogram.l histogram' = total Histogram.l histogram + 1.
Proof.
  intros Hlen Hr Hg Hb Hl.
  unfold Histogram.bump_r, Histogram.bump_g, Histogram.bump_b, Histogram.bump_l.
  destruct (bump_total (λ k, Histogram.mk_bucket (Histogram.r k + 1) (Histogram.g k)
                               (Histogram.b k) (Histogram.l k)) histogram r Hlen Hr)
    as (n1 & k1 & Hk1 & ->).
  cbn [mbind option_bind].
  set (h1 := <[n1 := _]> histogram).
  assert (Hlen1 : length h1 = 256%nat) by (subst h1; by rewrite length_insert).
  destruct (bump_total (λ k, Histogram.mk_bucket (Histogram.r k) (Histogram.g k + 1)
                               (Histogram.b k) (Histogram.l k)) h1 g Hlen1 Hg)
    as (n2 & k2 & Hk2 & ->).
  cbn [mbind option_bind].
  set (h2 := <[n2 := _]> h1).
  assert (Hlen2 : length h2 = 256%nat) by (subst h2; by rewrite length_insert).
  destruct (bump_total (λ k, Histogram.mk_bucket (Histogram.r k) (Histogram.g k)
                               (Histogram.b k + 1) (Histogram.l k)) h2 b Hlen2 Hb)
    as (n3 & k3 & Hk3 & ->).
  cbn [mbind option_bind].
  set (h3 := <[n3 := _]> h2).
  assert (Hlen3 : length h3 = 256%nat) by (subst h3; by rewrite length_insert).
  destruct (bump_total (λ k, Histogram.mk_bucket (Histogram.r k) (Histogram.g k)
                               (Histogram.b k) (Histogram.l k + 1)) h3 l Hlen3 Hl)
    as (n4 & k4 & Hk4 & ->).
  eexists. split; [reflexivity|]. split; [by rewrite length_insert|].
  subst h3 h2 h1.
  rewrite !(total_insert _ _ _ _ _ Hk4), !(total_insert _ _ _ _ _ Hk3),
          !(total_insert _ _ _ _ _ Hk2), !(total_insert _ _ _ _ _ Hk1).
  simpl. lia.
Qed.

Lemma count_fold data ks histogram :
  Forall octet data →
  Forall (λ k, 4 * k + 3 < length data)%nat ks →
  length histogram = 256%nat →
  ∃ histogram',
    foldl (λ acc k,
             histogram ← acc;
             let i := (4 * k)%nat in
             let r := get data i in
             let g := get data (i + 1) in
             let b := get data (i + 2) in
             let l := Math_round (0.299 * r + 0.587 * g + 0.114 * b)%float in
             histogram ← Histogram.bump_r histogram r;
             histogram ← Histogram.bump_g histogram g;
             histogram ← Histogram.bump_b histogram b;
             Histogram.bump_l histogram l)
          (Some histogram) ks = Some histogram' ∧
    length histogram' = 256%nat ∧
    total Histogram.r histogram' = total Histogram.r histogram + Z.of_nat (length ks) ∧
    total Histogram.g histogram' = total Histogram.g histogram + Z.of_nat (length ks) ∧
    total Histogram.b histogram' = total Histogram.b histogram + Z.of_nat (length ks) ∧
    total Histogram.l histogram' = total Histogram.l histogram + Z.of_nat (length ks).
Proof.
  intros Hoct Hks.
  match goal with |- context [foldl ?f _ ks] => set (step := f) end.
  revert histogram.
  induction Hks as [|k ks Hk _ IH]; intros histogram Hlen.
  - exists histogram. cbn [foldl length]. repeat split; (done || lia).
  - cbn [foldl].
    destruct (lookup_lt_is_Some_2 data (4 * k)) as [r Hr]; [lia|].
    destruct (lookup_lt_is_Some_2 data (4 * k + 1)) as [g Hg]; [lia|].
    destruct (lookup_lt_is_Some_2 data (4 * k + 2)) as [b Hb]; [lia|].
    pose proof (Forall_lookup_1 _ _ _ _ Hoct Hr) as Hro.
    pose proof (Forall_lookup_1 _ _ _ _ Hoct Hg) as Hgo.
    pose proof (Forall_lookup_1 _ _ _ _ Hoct Hb) as Hbo.
    destruct (count_step histogram (of_Z r) (of_Z g) (of_Z b)
                (Math_round (0.299 * of_Z r + 0.587 * of_Z g + 0.114 * of_Z b)%float)
                Hlen (octet_is_bucket r Hro) (octet_is_bucket g Hgo) (octet_is_bucket b Hbo)
                (luminance_is_bucket r g b Hro Hgo Hbo))
      as (h' & Hstep & Hlen' & Htr & Htg & Htb & Htl).
    assert (Hk' : step (Some histogram) k = Some h').
    { subst step. cbn [mbind option_bind]. cbv zeta.
      rewrite (get_lookup _ _ _ Hr), (get_lookup _ _ _ Hg), (get_lookup _ _ _ Hb).
      exact Hstep. }
    rewrite Hk'.
    destruct (IH h' Hlen') as (h'' & -> & Hlen'' & Hr'' & Hg'' & Hb'' & Hl'').
    exists h''. split; [done|]. split; [done|].
    rewrite Hr'', Hg'', Hb'', Hl'', Htr, Htg, Htb, Htl. cbn [length]. lia.
Qed.

Lemma total_replicate_zero count n :
  count (Histogram.mk_bucket 0 0 0 0) = 0 →
  total count (replicate n (Histogram.mk_bucket 0 0 0 0)) = 0.
Proof. intros H. induction n as [|n IH]; simpl; [done|]. rewrite IH, H. done. Qed.

(** A buffer of [n] whole pixels is counted into 256 buckets whose four
    counts each add up to [n]. *)
Lemma count_pixels_totals data n :
  Forall octet data → length data = (4 * n)%nat →
  ∃ histogram,
    Histogram.count_pixels data = Some histogram ∧
    length histogram = 256%nat ∧
    total Histogram.r histogram = Z.of_nat n ∧
    total Histogram.g histogram = Z.of_nat n ∧
    total Histogram.b histogram = Z.of_nat n ∧
    total Histogram.l histogram = Z.of_nat n.
Proof.
  intros Hoct Hlen. unfold Histogram.count_pixels.
  assert (Hn : ((length data + 3) / 4 = n)%nat).
  { rewrite Hlen. rewrite (Nat.mul_comm 4 n). rewrite Nat.div_add_l by done. simpl. lia. }
  rewrite Hn.
  destruct (count_fold data (seq 0 n) (replicate 256 (Histogram.mk_bucket 0 0 0 0)) Hoct)
    as (h & Hfold & Hlenh & Hr & Hg & Hb & Hl).
  - apply Forall_forall. intros k Hk%elem_of_seq. lia.
  - by rewrite length_replicate.
  - exists h. rewrite length_seq in *.
    rewrite !total_replicate_zero in * by done.
    split; [exact Hfold|]. repeat split; (done || lia).
Qed.

(** ** The worker's histogram *)

Lemma sum_counts_insert (counts : list Z) n c c' :
  counts !! n = Some c →
  sum_counts (<[n := c']> counts) = sum_counts counts - c + c'.
Proof.
  revert n. induction counts as [|c0 counts IH]; intros n Hn; [done|].
  destruct n as [|n]; simpl in *.
  - injection Hn as ->. lia.
  - rewrite (IH n Hn). lia.
Qed.

Lemma sum_counts_bounds (counts : list Z) n c :
  Forall (λ c, 0 ≤ c) counts → counts !! n = Some c → 0 ≤ c ≤ sum_counts counts.
Proof.
  intros Hpos. revert n. induction Hpos as [|c0 counts Hc0 Hpos IH]; intros n Hn; [done|].
  assert (0 ≤ sum_counts counts).
  { clear -Hpos. induction Hpos; simpl; lia. }
  destruct n as [|n]; simpl in *.
  - injection Hn as ->. lia.
  - specialize (IH n Hn). lia.
Qed.

Lemma incr_counted c counts idx :
  counted c counts → is_index 256 idx = true → c + 1 < 2 ^ 32 →
  counted (c + 1) (WorkerHistogram.incr counts idx).
Proof.
  intros (Hlen & Hpos & Hsum) Hidx Hc. unfold WorkerHistogram.incr. rewrite Hlen.
  destruct (index_in_256 idx Hidx) as (n & -> & Hn).
  destruct (lookup_lt_is_Some_2 counts n) as [c0 Hc0]; [lia|]. rewrite Hc0.
  pose proof (sum_counts_bounds counts n c0 Hpos Hc0).
  rewrite Z.mod_small by lia.
  split; [by rewrite length_insert|]. split.
  - apply Forall_insert; [done|lia].
  - rewrite (sum_counts_insert _ _ _ _ Hc0). lia.
Qed.

Lemma computeHistogram_fold data ks c hist :
  Forall octet data →
  Forall (λ k, 4 * k + 3 < length data)%nat ks →
  counted c hist.(WorkerHistogram.red) → counted c hist.(WorkerHistogram.green) →
  counted c hist.(WorkerHistogram.blue) → counted c hist.(WorkerHistogram.luminance) →
  c + Z.of_nat (length ks) < 2 ^ 32 →
  let c' := c + Z.of_nat (length (filter (λ k, 128 ≤ octet_at data (4 * k + 3)) ks)) in
  let out :=
    foldl (λ histogram k,
             let i := (4 * k)%nat in
             let r := get data i in
             let g := get data (i + 1) in
             let b := get data (i + 2) in
             let a := get data (i + 3) in
             if (a <? 128)%float then histogram
             else
               let luminance := Math_round (0.2126 * r + 0.7152 * g + 0.0722 * b)%float in
               WorkerHistogram.mk_histogram
                 (WorkerHistogram.incr histogram.(WorkerHistogram.red) r)
                 (WorkerHistogram.incr histogram.(WorkerHistogram.green) g)
                 (WorkerHistogram.incr histogram.(WorkerHistogram.blue) b)
                 (WorkerHistogram.incr histogram.(WorkerHistogram.luminance) luminance))
          hist ks in
  counted c' out.(WorkerHistogram.red) ∧ counted c' out.(WorkerHistogram.green) ∧
  counted c' out.(WorkerHistogram.blue) ∧ counted c' out.(WorkerHistogram.luminance).
Proof.
  intros Hoct Hks. cbv zeta.
  match goal with |- context [foldl ?f _ ks] => set (step := f) end.
  revert c hist.
  induction Hks as [|k ks Hk _ IH]; intros c hist Hr Hg Hb Hl Hc.
  - cbn [foldl]. rewrite filter_nil. cbn [length]. by rewrite Z.add_0_r.
  - cbn [foldl]. cbn [length] in Hc.
    destruct (lookup_lt_is_Some_2 data (4 * k)) as [r Hr0]; [lia|].
    destruct (lookup_lt_is_Some_2 data (4 * k + 1)) as [g Hg0]; [lia|].
    destruct (lookup_lt_is_Some_2 data (4 * k + 2)) as [b Hb0]; [lia|].
    destruct (lookup_lt_is_Some_2 data (4 * k + 3)) as [a Ha0]; [lia|].
    pose proof (Forall_lookup_1 _ _ _ _ Hoct Hr0) as Hro.
    pose proof (Forall_lookup_1 _ _ _ _ Hoct Hg0) as Hgo.
    pose proof (Forall_lookup_1 _ _ _ _ Hoct Hb0) as Hbo.
    pose proof (Forall_lookup_1 _ _ _ _ Hoct Ha0) as Hao.
    assert (Ha1 : octet_at data (4 * k + 3) = a) by (unfold octet_at; by rewrite Ha0).
    rewrite filter_cons. rewrite Ha1.
    assert (Hstep : step hist k =
                    if a <? 128 then hist
                    else WorkerHistogram.mk_histogram
                           (WorkerHistogram.incr hist.(WorkerHistogram.red) (of_Z r))
                           (WorkerHistogram.incr hist.(WorkerHistogram.green) (of_Z g))
                           (WorkerHistogram.incr hist.(WorkerHistogram.blue) (of_Z b))
                           (WorkerHistogram.incr hist.(WorkerHistogram.luminance)
                              (Math_round (0.2126 * of_Z r + 0.7152 * of_Z g
                                           + 0.0722 * of_Z b)%float))).
    { subst step. cbv beta zeta.
      rewrite (get_lookup _ _ _ Hr0), (get_lookup _ _ _ Hg0), (get_lookup _ _ _ Hb0),
              (get_lookup _ _ _ Ha0).
      by rewrite (octet_alpha_test a Hao). }
    rewrite Hstep.
    destruct (decide (128 ≤ a)) as [Hop|Htr].
    + rewrite (proj2 (Z.ltb_ge a 128)) by lia.
      cbn [length]. replace (c + Z.of_nat (S (length (filter _ ks))))
        with ((c + 1) + Z.of_nat (length (filter (λ k, 128 ≤ octet_at data (4 * k + 3)) ks)))
        by lia.
      apply IH; cbn; try (apply incr_counted; [done| |lia]); try lia.
      * by apply octet_is_bucket.
      * by apply octet_is_bucket.
      * by apply octet_is_bucket.
      * by apply luminance709_is_bucket.
    + rewrite (proj2 (Z.ltb_lt a 128)) by lia.
      apply IH; (done || lia).
Qed.

Lemma counted_zero : counted 0 (replicate 256 0).
Proof.
  split; [by rewrite length_replicate|]. split.
  - by apply Forall_replicate.
  - vm_compute. reflexivity.
Qed.

(** The worker counts exactly the pixels whose alpha is at least 128. *)
Lemma computeHistogram_counts data width height n :
  Forall octet data → length data = (4 * n)%nat → Z.of_nat n < 2 ^ 32 →
  let out := WorkerHistogram.computeHistogram data width height in
  let c := Z.of_nat (length (opaque_pixels data)) in
  counted c out.(WorkerHistogram.red) ∧ counted c out.(WorkerHistogram.green) ∧
  counted c out.(WorkerHistogram.blue) ∧ counted c out.(WorkerHistogram.luminance).
Proof.
  intros Hoct Hlen Hn. cbv zeta. unfold WorkerHistogram.computeHistogram, opaque_pixels.
  assert (Hdiv : ((length data + 3) / 4 = n)%nat).
  { rewrite Hlen. rewrite (Nat.mul_comm 4 n). rewrite Nat.div_add_l by done. simpl. lia. }
  rewrite Hdiv.
  pose proof (computeHistogram_fold data (seq 0 n) 0
                (WorkerHistogram.mk_histogram (replicate 256 0) (replicate 256 0)
                                              (replicate 256 0) (replicate 256 0)) Hoct) as H.
  cbv zeta in H. rewrite Z.add_0_l in H. apply H; try apply counted_zero.
  - apply Forall_forall. intros k Hk%elem_of_seq. lia.
  - rewrite length_seq. lia.
Qed.

Lemma filter_all_length {A} (P : A → Prop) `{∀ x, Decision (P x)} (l : list A) :
  Forall P l → length (filter P l) = length l.
Proof.
  induction 1 as [|x l Hx _ IH]; [done|].
  rewrite filter_cons_True by done. simpl. by rewrite IH.
Qed.

(** C3, as the code has it.  For a buffer of [width * height] whole
    pixels: [calculateHistogram], whenever it recomputes (no histogram is
    cached, or the sample hash differs from the last one), returns 256
    buckets whose r, g, b and l counts each add up to [width * height],
    and caches them; the worker's [computeHistogram] returns four arrays
    of 256 counts that each add up to the number of pixels whose alpha is
    at least 128, which is [width * height] when no pixel is more
    transparent than that. *)
Theorem histogram_sums data width height :
  Forall octet data → length data = (4 * (width * height))%nat →
  (∀ st,
     st.(Histogram.cachedHistogramData) = None ∨
     st.(Histogram.lastImageDataHash) ≠ Some (Histogram.calculateDataHash data) →
     ∃ histogram,
       Histogram.calculateHistogram st (Some data)
       = Some (Some histogram,
               Histogram.mk_state (Some histogram)
                                  (Some (Histogram.calculateDataHash data))) ∧
       length histogram = 256%nat ∧
       total Histogram.r histogram = Z.of_nat (width * height) ∧
       total Histogram.g histogram = Z.of_nat (width * height) ∧
       total Histogram.b histogram = Z.of_nat (width * height) ∧
       total Histogram.l histogram = Z.of_nat (width * height)) ∧
  (Z.of_nat (width * height) < 2 ^ 32 →
   let out := WorkerHistogram.computeHistogram data width height in
   let c := Z.of_nat (length (opaque_pixels data)) in
   counted c out.(WorkerHistogram.red) ∧ counted c out.(WorkerHistogram.green) ∧
   counted c out.(WorkerHistogram.blue) ∧ counted c out.(WorkerHistogram.luminance) ∧
   (Forall (λ k, 128 ≤ octet_at data (4 * k + 3)) (seq 0 (width * height)) →
    c = Z.of_nat (width * height))).
Proof.
  intros Hoct Hlen. split.
  - intros st Hmiss.
    destruct (count_pixels_totals data (width * height) Hoct Hlen)
      as (histogram & Hcount & Hlen256 & Hr & Hg & Hb & Hl).
    exists histogram. split; [|done].
    unfold Histogram.calculateHistogram. rewrite Hcount.
    destruct (Histogram.cachedHistogramData st) as [cached|]; [|done].
    destruct Hmiss as [?|Hne]; [done|].
    rewrite bool_decide_eq_false_2; [done|]. by intros Heq.
  - intros Hsize. cbv zeta.
    destruct (computeHistogram_counts data width height (width * height) Hoct Hlen Hsize)
      as (Hr & Hg & Hb & Hl).
    repeat (split; [done|]).
    intros Hall. unfold opaque_pixels.
    assert (Hdiv : ((length data + 3) / 4 = width * height)%nat).
    { rewrite Hlen. rewrite (Nat.mul_comm 4). rewrite Nat.div_add_l by done. simpl. lia. }
    rewrite Hdiv. rewrite filter_all_length by done. by rewrite length_seq.
Qed.

Lemma histogram_sums_witness :
  (∃ histogram,
     Histogram.calculateHistogram Histogram.initial (Some [10; 20; 30; 255; 40; 50; 60; 0])
     = Some (Some histogram,
             Histogram.mk_state (Some histogram)
               (Some (Histogram.calculateDataHash [10; 20; 30; 255; 40; 50; 60; 0]))) ∧
     length histogram = 256%nat ∧
     total Histogram.r histogram = 2 ∧ total Histogram.g histogram = 2 ∧
     total Histogram.b histogram = 2 ∧ total Histogram.l histogram = 2) ∧
  sum_counts (WorkerHistogram.computeHistogram [10; 20; 30; 255; 40; 50; 60; 0] 2 1)
               .(WorkerHistogram.red) = 1.
Proof.
  assert (Hoct : Forall octet [10; 20; 30; 255; 40; 50; 60; 0])
    by (repeat constructor; unfold octet; lia).
  destruct (histogram_sums [10; 20; 30; 255; 40; 50; 60; 0] 2 1 Hoct eq_refl)
    as [Hmain Hworker].
  split.
  - apply (Hmain Histogram.initial). by left.
  - destruct (Hworker ltac:(done)) as ((_ & _ & Hsum) & _). exact Hsum.
Defined.

(** C3 as stated fails twice over.  The worker skips a pixel whose alpha
    is below 128, so a 1 x 1 transparent buffer gives arrays that add up
    to 0; and [calculateHistogram] answers a 2 x 1 buffer with the
    histogram of the 1 x 1 buffer seen before it when their sample hashes
    agree, whose counts add up to 1. *)
Lemma histogram_sum_counterexample :
  sum_counts (WorkerHistogram.computeHistogram [10; 20; 30; 0] 1 1).(WorkerHistogram.red) = 0 ∧
  Z.of_nat (1 * 1) = 1 ∧
  returned_total Histogram.r
    (Histogram.calculateHistogram (state_after [0; 0; 0; 255])
                                  (Some [0; 0; 0; 255; 0; 0; 0; 255])) = Some 1 ∧
  Z.of_nat (2 * 1) = 2.
Proof. repeat split; vm_compute; reflexivity. Qed.

(** ** Applying a replacement and undoing it *)

Lemma last_array_assign {A} (array : list (option A)) i v :
  (length array ≤ i + 1)%nat → last (ColorReplace.array_assign array i v) = Some (Some v).
Proof.
  intros Hi. unfold ColorReplace.array_assign. destruct (decide (i < length array)%nat).
  - rewrite last_lookup, length_insert.
    replace (Nat.pred (length array)) with i by lia.
    by apply list_lookup_insert_eq.
  - by rewrite !app_assoc, last_snoc.
Qed.

(** C4, as the code has it.  When [applyColorReplaceEffect] goes through
    (it found matching colours and reports a count) and stores its entry
    last (nothing is being edited, or the slot edited is the last one or
    past the end), the entry stored last holds the buffer as it was before
    the call, and [undoLastColorReplace] puts exactly that buffer back on
    the canvas and removes that entry, leaving the history as it was
    before when the entry had been pushed. *)
Theorem apply_then_undo_restores now p p' count :
  ColorReplace.applyColorReplaceEffect now p = (p', Some count) →
  stores_last p →
  ∃ entry p'',
    last p'.(ColorReplace.colorReplaceHistory) = Some (Some entry) ∧
    entry.(ColorReplace.id) = now ∧
    entry.(ColorReplace.replacedPixels) = count ∧
    entry.(ColorReplace.originalImageData) = p.(ColorReplace.the_canvas).(ColorReplace.pixels) ∧
    ColorReplace.undoLastColorReplace p' = Some p'' ∧
    p''.(ColorReplace.the_canvas) = p.(ColorReplace.the_canvas) ∧
    p''.(ColorReplace.colorReplaceHistory) = removelast p'.(ColorReplace.colorReplaceHistory) ∧
    (p.(ColorReplace.currentEditingIndex) < 0 →
     p''.(ColorReplace.colorReplaceHistory) = p.(ColorReplace.colorReplaceHistory)).
Proof.
  intros Happly Hlast. unfold ColorReplace.applyColorReplaceEffect in Happly.
  destruct (ColorReplace.findColorsInRange _ _ _ _ _) as [colorsInRange colorCache].
  destruct (decide (length colorsInRange = 0)%nat); [done|].
  destruct (ColorReplace.applyColorReplaceToImageData _ _ _ _ _ _ _)
    as [imageData replacedPixels].
  destruct p as [[w h pixels] ctl history editing cache]. cbn in Happly, Hlast |- *.
  unfold stores_last in Hlast. cbn in Hlast.
  destruct (0 <=? editing) eqn:Hedit; injection Happly as <- <-.
  - apply Z.leb_le in Hedit. destruct Hlast as [?|Hlast]; [lia|].
    eexists _, _. cbn.
    split; [by apply last_array_assign|].
    unfold ColorReplace.undoLastColorReplace. cbn.
    rewrite last_array_assign by done. cbn.
    repeat split; try done. lia.
  - eexists _, _. cbn.
    split; [by apply last_snoc|].
    unfold ColorReplace.undoLastColorReplace. cbn.
    rewrite last_snoc. cbn. rewrite removelast_last.
    repeat split; done.
Qed.

Lemma apply_then_undo_restores_witness :
  ∃ entry p'',
    last (ColorReplace.applyColorReplaceEffect 1 red_green).1.(ColorReplace.colorReplaceHistory)
    = Some (Some entry) ∧
    entry.(ColorReplace.id) = 1 ∧
    entry.(ColorReplace.replacedPixels) = 1%nat ∧
    entry.(ColorReplace.originalImageData)
    = red_green.(ColorReplace.the_canvas).(ColorReplace.pixels) ∧
    ColorReplace.undoLastColorReplace (ColorReplace.applyColorReplaceEffect 1 red_green).1
    = Some p'' ∧
    p''.(ColorReplace.the_canvas) = red_green.(ColorReplace.the_canvas) ∧
    p''.(ColorReplace.colorReplaceHistory)
    = removelast (ColorReplace.applyColorReplaceEffect 1 red_green).1
                   .(ColorReplace.colorReplaceHistory) ∧
    (red_green.(ColorReplace.currentEditingIndex) < 0 →
     p''.(ColorReplace.colorReplaceHistory) = red_green.(ColorReplace.colorReplaceHistory)).
Proof.
  apply (apply_then_undo_restores 1 red_green
           (ColorReplace.applyColorReplaceEffect 1 red_green).1 1%nat).
  - vm_compute. reflexivity.
  - left. reflexivity.
Defined.

(** C4 as stated fails while an earlier entry is being edited.  In the
    session above the history holds the entries 1 and 2 and entry 1 is in
    edit; applying the replacement of blue by red changes one pixel and
    stores its entry in slot 0, and the undo that follows restores the
    snapshot of entry 2 (the buffer before the green pixel was made white),
    not the buffer as it was before the apply, and removes entry 2, not
    the entry just stored. *)
Lemma apply_then_undo_counterexample :
  editing_session.(ColorReplace.the_canvas).(ColorReplace.pixels)
  = [0; 0; 255; 255; 255; 255; 255; 255] ∧
  history_ids editing_session = [Some 1; Some 2] ∧
  editing_session.(ColorReplace.currentEditingIndex) = 0 ∧
  (ColorReplace.applyColorReplaceEffect 3 editing_session).2 = Some 1%nat ∧
  (ColorReplace.applyColorReplaceEffect 3 editing_session).1
    .(ColorReplace.the_canvas).(ColorReplace.pixels)
  = [255; 0; 0; 255; 255; 255; 255; 255] ∧
  history_ids (ColorReplace.applyColorReplaceEffect 3 editing_session).1 = [Some 3; Some 2] ∧
  (λ p, p.(ColorReplace.the_canvas).(ColorReplace.pixels)) <$>
    ColorReplace.undoLastColorReplace (ColorReplace.applyColorReplaceEffect 3 editing_session).1
  = Some [0; 0; 255; 255; 0; 255; 0; 255] ∧
  history_ids <$>
    ColorReplace.undoLastColorReplace (ColorReplace.applyColorReplaceEffect 3 editing_session).1
  = Some [Some 3].
Proof. repeat split; vm_compute; reflexivity. Qed.

(** ** The matching rule *)

(** The square of the difference of two octets is the square of an octet,
    and is zero just when the octets are the same. *)
Lemma channel_square_spec a b :
  octet a → octet b →
  In (channel_square a b) squares ∧ (channel_square a b =? 0)%float = (a =? b).
Proof.
  intros Ha Hb.
  assert (H : forallb (λ a, forallb (λ b,
                existsb (PrimFloat.Leibniz.eqb (channel_square a b)) squares &&
                Bool.eqb (channel_square a b =? 0)%float (a =? b)) octets) octets = true)
    by (vm_compute; reflexivity).
  rewrite forallb_forall in H. specialize (H a (octet_in_octets a Ha)).
  rewrite forallb_forall in H. specialize (H b (octet_in_octets b Hb)).
  apply andb_prop in H as [Hin Heq]. split.
  - apply existsb_exists in Hin as (q & Hq & Hsame).
    apply FloatAxioms.Leibniz.eqb_spec in Hsame. by rewrite Hsame.
  - by apply Bool.eqb_prop.
Qed.

(** A sum of three squares of octets is zero just when each is. *)
Lemma squares_sum_zero x y z :
  In x squares → In y squares → In z squares →
  (x + y + z =? 0)%float = (x =? 0)%float && (y =? 0)%float && (z =? 0)%float.
Proof.
  intros Hx Hy Hz.
  assert (H : forallb (λ x, forallb (λ y, forallb (λ z,
                Bool.eqb (x + y + z =? 0)%float
                         ((x =? 0)%float && (y =? 0)%float && (z =? 0)%float))
                squares) squares) squares = true)
    by (vm_compute; reflexivity).
  rewrite forallb_forall in H. specialize (H x Hx).
  rewrite forallb_forall in H. specialize (H y Hy).
  rewrite forallb_forall in H. specialize (H z Hz).
  by apply Bool.eqb_prop.
Qed.

(** The test the scan uses for a degenerate range, squared length zero,
    holds just when start and end are the same colour. *)
Lemma degenerate_test sr sg sb er eg eb :
  octet sr → octet sg → octet sb → octet er → octet eg → octet eb →
  strict_eq (ColorReplace.lengthSquared
               (ColorReplace.startToEnd_of (octet_color sr sg sb) (octet_color er eg eb))) 0
  = (sr =? er) && (sg =? eg) && (sb =? eb).
Proof.
  intros Hsr Hsg Hsb Her Heg Heb.
  destruct (channel_square_spec sr er Hsr Her) as [Hr Hr0].
  destruct (channel_square_spec sg eg Hsg Heg) as [Hg Hg0].
  destruct (channel_square_spec sb eb Hsb Heb) as [Hb Hb0].
  unfold strict_eq, ColorReplace.lengthSquared, ColorReplace.startToEnd_of, octet_color.
  cbn [ColorReplace.r ColorReplace.g ColorReplace.b].
  fold (channel_square sr er) (channel_square sg eg) (channel_square sb eb).
  rewrite (squares_sum_zero _ _ _ Hr Hg Hb). by rewrite Hr0, Hg0, Hb0.
Qed.



(** C6. For a range whose start and end are one colour, a pixel matches
    exactly when its Euclidean distance to that colour, computed in double
    precision, is at most the tolerance; with the colour #FF0000 the
    pixel (255,0,0) matches at tolerance 0, the pixel (254,0,0) does not,
    and it does at tolerance 1. *)
Theorem degenerate_match_is_radius_test :
  (∀ pixel sr sg sb tol,
     octet sr → octet sg → octet sb →
     ColorReplace.pixel_in_range pixel (octet_color sr sg sb) (octet_color sr sg sb) tol = true
     ↔ within_radius pixel (octet_color sr sg sb) tol) ∧
  ColorReplace.hexToRgb "#FF0000" = octet_color 255 0 0 ∧
  ColorReplace.pixel_in_range (octet_color 255 0 0) (ColorReplace.hexToRgb "#FF0000")
                              (ColorReplace.hexToRgb "#FF0000") 0 = true ∧
  ColorReplace.pixel_in_range (octet_color 254 0 0) (ColorReplace.hexToRgb "#FF0000")
                              (ColorReplace.hexToRgb "#FF0000") 0 = false ∧
  ColorReplace.pixel_in_range (octet_color 254 0 0) (ColorReplace.hexToRgb "#FF0000")
                              (ColorReplace.hexToRgb "#FF0000") 1 = true.
Proof.
  split.
  - intros pixel sr sg sb tol Hsr Hsg Hsb.
    unfold ColorReplace.pixel_in_range.
    rewrite (degenerate_test sr sg sb sr sg sb) by done.
    rewrite !Z.eqb_refl. cbn [andb].
    unfold ColorReplace.isColorInRangeOptimized, within_radius, distance. reflexivity.
  - repeat split; vm_compute; reflexivity.
Qed.

Lemma degenerate_match_is_radius_test_witness :
  ColorReplace.pixel_in_range (octet_color 250 3 4) (octet_color 255 0 0)
                              (octet_color 255 0 0) 10 = true
  ↔ within_radius (octet_color 250 3 4) (octet_color 255 0 0) 10.
Proof.
  apply (proj1 degenerate_match_is_radius_test (octet_color 250 3 4) 255 0 0 10%float);
    unfold octet; lia.
Defined.

(** ** [Map] *)

Section JsMapFacts.

Context {K V : Type} `{EqDecision K}.

Implicit Types (m : list (K * V)) (k : K) (v : V).

Lemma jsmap_get_set_eq m k v : JsMap.get (JsMap.set m k v) k = Some v.
Proof.
  induction m as [|[k' v'] m IH]; simpl.
  - by rewrite decide_True.
  - destruct (decide (k' = k)) as [->|Hne]; simpl.
    + by rewrite decide_True.
    + by rewrite decide_False.
Qed.

Lemma jsmap_get_set_ne m k k' v : k ≠ k' → JsMap.get (JsMap.set m k v) k' = JsMap.get m k'.
Proof.
  intros Hne. induction m as [|[k0 v0] m IH]; simpl.
  - by rewrite decide_False.
  - destruct (decide (k0 = k)) as [->|Hne0]; simpl.
    + by rewrite !decide_False.
    + destruct (decide (k0 = k')); [done|]. apply IH.
Qed.

Lemma jsmap_get_delete_ne m k k' : k ≠ k' → JsMap.get (JsMap.delete m k) k' = JsMap.get m k'.
Proof.
  intros Hne. induction m as [|[k0 v0] m IH]; simpl; [done|].
  destruct (decide (k0 = k)) as [->|Hne0]; simpl.
  - by rewrite decide_False.
  - destruct (decide (k0 = k')); [done|]. apply IH.
Qed.

Lemma jsmap_get_None m k : JsMap.get m k = None ↔ k ∉ m.*1.
Proof.
  induction m as [|[k0 v0] m IH]; simpl.
  - split; [intros _|done]. apply not_elem_of_nil.
  - rewrite not_elem_of_cons. destruct (decide (k0 = k)) as [->|Hne].
    + split; [done|]. intros [? _]. done.
    + rewrite IH. split; [intros ?; split; [done|done]|intros [_ ?]; done].
Qed.

Lemma jsmap_get_Some_elem m k v : JsMap.get m k = Some v → (k, v) ∈ m.
Proof.
  induction m as [|[k0 v0] m IH]; simpl; [done|].
  destruct (decide (k0 = k)) as [->|Hne].
  - intros [= ->]. apply elem_of_cons. by left.
  - intros H. apply elem_of_cons. right. by apply IH.
Qed.

Lemma jsmap_elem_get m k v : NoDup m.*1 → (k, v) ∈ m → JsMap.get m k = Some v.
Proof.
  induction m as [|[k0 v0] m IH]; simpl; [by intros _ ?%elem_of_nil|].
  intros [Hk0 Hnd]%NoDup_cons [[= -> ->]|Hin]%elem_of_cons.
  - by rewrite decide_True.
  - destruct (decide (k0 = k)) as [->|Hne]; [|by apply IH].
    exfalso. apply Hk0. apply list_elem_of_fmap. by exists (k, v).
Qed.

Lemma jsmap_has_elem m k : JsMap.has m k = true ↔ k ∈ m.*1.
Proof.
  unfold JsMap.has. destruct (JsMap.get m k) eqn:Hget.
  - split; [intros _|done].
    apply jsmap_get_Some_elem in Hget. apply list_elem_of_fmap. by eexists (_, _).
  - split; [done|]. by apply jsmap_get_None in Hget.
Qed.

Lemma jsmap_keys_set m k v k' : k' ∈ (JsMap.set m k v).*1 ↔ k' = k ∨ k' ∈ m.*1.
Proof.
  induction m as [|[k0 v0] m IH]; simpl.
  - rewrite list_elem_of_singleton. split; [by left|]. intros [?|?%elem_of_nil]; done.
  - destruct (decide (k0 = k)) as [->|Hne]; simpl; rewrite !elem_of_cons; [tauto|].
    rewrite IH. tauto.
Qed.

Lemma jsmap_keys_delete m k k' :
  NoDup m.*1 → k' ∈ (JsMap.delete m k).*1 ↔ k' ≠ k ∧ k' ∈ m.*1.
Proof.
  induction m as [|[k0 v0] m IH]; simpl.
  - intros _. split; [by intros ?%elem_of_nil|]. by intros [_ ?%elem_of_nil].
  - intros [Hk0 Hnd]%NoDup_cons.
    destruct (decide (k0 = k)) as [->|Hne]; simpl; rewrite !elem_of_cons.
    + split; [|intros [? [?|?]]; done]. intros Hin. split; [|by right].
      intros ->. done.
    + rewrite (IH Hnd). split.
      * intros [->|[? ?]]; [split; [done|by left]|split; [done|by right]].
      * intros [? [->|?]]; [by left|by right].
Qed.

Lemma jsmap_NoDup_set m k v : NoDup m.*1 → NoDup (JsMap.set m k v).*1.
Proof.
  induction m as [|[k0 v0] m IH]; simpl.
  - intros _. apply NoDup_singleton.
  - intros [Hk0 Hnd]%NoDup_cons.
    destruct (decide (k0 = k)) as [->|Hne]; simpl; apply NoDup_cons.
    + done.
    + split; [|by apply IH]. rewrite jsmap_keys_set. intros [?|?]; done.
Qed.

Lemma jsmap_NoDup_delete m k : NoDup m.*1 → NoDup (JsMap.delete m k).*1.
Proof.
  induction m as [|[k0 v0] m IH]; simpl; [done|].
  intros [Hk0 Hnd]%NoDup_cons.
  destruct (decide (k0 = k)) as [->|Hne]; simpl; [done|].
  apply NoDup_cons. split; [|by apply IH].
  rewrite jsmap_keys_delete by done. intros [_ ?]. done.
Qed.

Lemma jsmap_size_set_new m k v :
  k ∉ m.*1 → JsMap.size (JsMap.set m k v) = JsMap.size m + 1.
Proof.
  unfold JsMap.size. induction m as [|[k0 v0] m IH]; simpl; [done|].
  intros [Hne Hnot]%not_elem_of_cons.
  rewrite decide_False by done. simpl. specialize (IH Hnot). lia.
Qed.

Lemma jsmap_size_delete m k :
  k ∈ m.*1 → JsMap.size (JsMap.delete m k) = JsMap.size m - 1.
Proof.
  unfold JsMap.size. induction m as [|[k0 v0] m IH]; simpl; [by intros ?%elem_of_nil|].
  intros [->|Hin]%elem_of_cons.
  - rewrite decide_True by done. lia.
  - destruct (decide (k0 = k)); [lia|]. simpl. specialize (IH Hin). lia.
Qed.

End JsMapFacts.

(** ** Timestamp keys *)

Lemma truthy_string_ne s : Cache.truthy_string s = true ↔ s ≠ EmptyString.
Proof.
  unfold Cache.truthy_string. destruct (String.eqb_spec s EmptyString) as [->|Hne]; simpl.
  - split; done.
  - split; done.
Qed.

Lemma timestampKey_prefix type key :
  String.prefix (Cache.type_name type +:+ "_") (Cache.timestampKey_of type key) = true.
Proof. destruct type; cbn; by destruct key. Qed.

Lemma timestampKey_other_prefix type type' key :
  String.prefix (Cache.type_name type +:+ "_") (Cache.timestampKey_of type' key) = true →
  type' = type.
Proof. destruct type, type'; cbn; done. Qed.

Lemma timestampKey_replace type key :
  Cache.replace_first (Cache.type_name type +:+ "_") (Cache.timestampKey_of type key) = key.
Proof. destruct type; cbn; by destruct key. Qed.

Lemma timestampKey_inj type type' key key' :
  Cache.timestampKey_of type key = Cache.timestampKey_of type' key' →
  type = type' ∧ key = key'.
Proof. destruct type, type'; cbn; intros [= ]; done. Qed.

(** ** The oldest entry *)

(** The scan of [getOldestCacheKey] from any point on: it ends with the
    least timestamp among what it started from and the entries under the
    prefix, and with the key that carried it. *)
Lemma oldest_scan (prefix_ : string) ts oldestKey oldestTime :
  let out :=
    foldl (λ '(oldestKey, oldestTime) '(key, timestamp),
             if String.prefix prefix_ key then
               if match oldestTime with
                  | Some t => timestamp <? t
                  | None => true
                  end
               then (Some (Cache.replace_first prefix_ key), Some timestamp)
               else (oldestKey, oldestTime)
             else (oldestKey, oldestTime))
          (oldestKey, oldestTime) ts in
  match out.2 with
  | None => oldestTime = None ∧ Forall (λ e, String.prefix prefix_ e.1 = false) ts
  | Some tmin =>
      (∀ t, oldestTime = Some t → tmin ≤ t) ∧
      Forall (λ e, String.prefix prefix_ e.1 = true → tmin ≤ e.2) ts ∧
      ((oldestTime = Some tmin ∧ out.1 = oldestKey) ∨
       ∃ key, (key, tmin) ∈ ts ∧ String.prefix prefix_ key = true ∧
              out.1 = Some (Cache.replace_first prefix_ key))
  end.
Proof.
  revert oldestKey oldestTime.
  induction ts as [|[key timestamp] ts IH]; intros oldestKey oldestTime; cbn [foldl].
  - cbn. destruct oldestTime as [t|].
    + split; [by intros ? [= ->]|]. split; [done|]. by left.
    + done.
  - destruct (String.prefix prefix_ key) eqn:Hp.
    + destruct (match oldestTime with Some t => timestamp <? t | None => true end) eqn:Hlt.
      * specialize (IH (Some (Cache.replace_first prefix_ key)) (Some timestamp)).
        cbv zeta in IH |- *. destruct (foldl _ _ ts) as [k' [t'|]]; cbn in IH |- *.
        -- destruct IH as (Hle & Hall & Hwho).
           specialize (Hle timestamp eq_refl).
           split; [|split].
           ++ intros t ->. apply Z.ltb_lt in Hlt. lia.
           ++ constructor; [done|done].
           ++ right. destruct Hwho as [[[= ->] ->]|(key' & Hin & Hp' & ->)].
              ** exists key. split; [apply elem_of_cons; by left|done].
              ** exists key'. split; [apply elem_of_cons; by right|done].
        -- by destruct IH.
      * specialize (IH oldestKey oldestTime).
        cbv zeta in IH |- *. destruct (foldl _ _ ts) as [k' [t'|]]; cbn in IH |- *.
        -- destruct IH as (Hle & Hall & Hwho).
           destruct oldestTime as [t0|]; [|done]. apply Z.ltb_ge in Hlt.
           specialize (Hle t0 eq_refl).
           split; [by intros ? [= <-]|]. split.
           ++ constructor; [cbn; intros _; lia|done].
           ++ destruct Hwho as [?|(key' & Hin & Hp' & ->)]; [by left|].
              right. exists key'. split; [apply elem_of_cons; by right|done].
        -- destruct IH as [-> _]. done.
    + specialize (IH oldestKey oldestTime).
      cbv zeta in IH |- *. destruct (foldl _ _ ts) as [k' [t'|]]; cbn in IH |- *.
      * destruct IH as (Hle & Hall & Hwho). split; [done|]. split.
        -- constructor; [cbn; by rewrite Hp|done].
        -- destruct Hwho as [?|(key' & Hin & Hp' & ->)]; [by left|].
           right. exists key'. split; [apply elem_of_cons; by right|done].
      * destruct IH as [-> Hall]. split; [done|]. by constructor.
Qed.

(** In a cache in step, the oldest key of a type that holds an entry is
    one of its keys, and no entry of the type has an earlier timestamp. *)
Lemma getOldestCacheKey_oldest {V} type (st : Cache.state V) key0 :
  synced st → key0 ∈ (Cache.cache_of type st).*1 →
  ∃ oldest tmin,
    Cache.getOldestCacheKey type st = Some oldest ∧
    oldest ∈ (Cache.cache_of type st).*1 ∧
    JsMap.get st.(Cache.timestamps) (Cache.timestampKey_of type oldest) = Some tmin ∧
    ∀ key t, JsMap.get st.(Cache.timestamps) (Cache.timestampKey_of type key) = Some t →
             tmin ≤ t.
Proof.
  intros (Hnd & Hndc & Hkeys & Hne) Hin0. unfold Cache.getOldestCacheKey.
  pose proof (oldest_scan (Cache.type_name type +:+ "_") st.(Cache.timestamps) None None)
    as Hscan.
  cbv zeta in Hscan. destruct (foldl _ _ _) as [k' [tmin|]]; cbn in Hscan |- *.
  - destruct Hscan as (_ & Hall & [[[=] _]|(tkey & Hin & Hp & ->)]).
    assert (Htk : tkey ∈ st.(Cache.timestamps).*1).
    { apply list_elem_of_fmap. by exists (tkey, tmin). }
    apply Hkeys in Htk as (type' & key & -> & Hkey).
    apply timestampKey_other_prefix in Hp as ->.
    rewrite timestampKey_replace. exists key, tmin.
    split; [done|]. split; [done|]. split; [by apply jsmap_elem_get|].
    intros key' t Hget. apply jsmap_get_Some_elem in Hget.
    rewrite Forall_forall in Hall. apply (Hall _ Hget). apply timestampKey_prefix.
  - destruct Hscan as [_ Hall]. exfalso.
    assert (Htk : Cache.timestampKey_of type key0 ∈ st.(Cache.timestamps).*1).
    { apply Hkeys. by exists type, key0. }
    apply list_elem_of_fmap in Htk as ([tkey t] & Heq & Hin). cbn in Heq. subst tkey.
    rewrite Forall_forall in Hall. specialize (Hall _ Hin). cbn in Hall.
    by rewrite timestampKey_prefix in Hall.
Qed.

(** ** Eviction *)

Lemma cache_of_with_cache {V} type m ts (st : Cache.state V) :
  Cache.cache_of type (Cache.with_cache type m ts st) = m.
Proof. by destruct type. Qed.

Lemma cache_of_with_cache_ne {V} type type' m ts (st : Cache.state V) :
  type' ≠ type → Cache.cache_of type' (Cache.with_cache type m ts st) = Cache.cache_of type' st.
Proof. by destruct type, type'. Qed.

Lemma config_with_cache {V} type m ts (st : Cache.state V) :
  Cache.config (Cache.with_cache type m ts st) = Cache.config st.
Proof. by destruct type. Qed.

Lemma timestamps_with_cache {V} type m ts (st : Cache.state V) :
  Cache.timestamps (Cache.with_cache type m ts st) = ts.
Proof. by destruct type. Qed.

(** [setCache] while there is room, and when the map is full. *)
Lemma setCache_room {V} now key (value : V) type st :
  st.(Cache.config).(Cache.enabled) = true → key ≠ EmptyString →
  JsMap.size (Cache.cache_of type st) < st.(Cache.config).(Cache.maxSize) →
  Cache.setCache now key value type st
  = Cache.with_cache type (JsMap.set (Cache.cache_of type st) key value)
      (JsMap.set st.(Cache.timestamps) (Cache.timestampKey_of type key) now) st.
Proof.
  intros Hen Hkey Hsize. unfold Cache.setCache.
  rewrite Hen, (proj2 (truthy_string_ne key) Hkey). cbn [negb orb].
  by rewrite (proj2 (Z.leb_gt _ _) Hsize).
Qed.

Lemma setCache_full {V} now key (value : V) type st oldest :
  st.(Cache.config).(Cache.enabled) = true → key ≠ EmptyString →
  st.(Cache.config).(Cache.maxSize) ≤ JsMap.size (Cache.cache_of type st) →
  Cache.getOldestCacheKey type st = Some oldest → oldest ≠ EmptyString →
  Cache.setCache now key value type st
  = Cache.with_cache type
      (JsMap.set (JsMap.delete (Cache.cache_of type st) oldest) key value)
      (JsMap.set (JsMap.delete st.(Cache.timestamps) (Cache.timestampKey_of type oldest))
                 (Cache.timestampKey_of type key) now)
      (Cache.with_cache type (JsMap.delete (Cache.cache_of type st) oldest)
         (JsMap.delete st.(Cache.timestamps) (Cache.timestampKey_of type oldest)) st).
Proof.
  intros Hen Hkey Hsize Hold Holdest. unfold Cache.setCache.
  rewrite Hen, (proj2 (truthy_string_ne key) Hkey). cbn [negb orb].
  rewrite (proj2 (Z.leb_le _ _) Hsize), Hold, (proj2 (truthy_string_ne oldest) Holdest).
  by rewrite cache_of_with_cache, timestamps_with_cache.
Qed.

Lemma jsmap_set_cons_ne {K V} `{EqDecision K} (m : list (K * V)) k0 v0 k v :
  k0 ≠ k → JsMap.set ((k0, v0) :: m) k v = (k0, v0) :: JsMap.set m k v.
Proof. intros Hne. cbn [JsMap.set]. by rewrite decide_False. Qed.

Lemma jsmap_delete_cons_eq {K V} `{EqDecision K} (m : list (K * V)) k v :
  JsMap.delete ((k, v) :: m) k = m.
Proof. cbn [JsMap.delete]. by rewrite decide_True. Qed.

Lemma setCache_three_keys {V} (v1 v2 v3 : V) k1 k2 k3 t1 t2 t3 :
  k1 ≠ EmptyString → k2 ≠ EmptyString → k3 ≠ EmptyString →
  k1 ≠ k2 → k1 ≠ k3 → k2 ≠ k3 → t1 ≤ t2 →
  Cache.setCache t3 k3 v3 Cache.processed
    (Cache.setCache t2 k2 v2 Cache.processed
       (Cache.setCache t1 k1 v1 Cache.processed
          (Cache.configureCache_maxSize 2 Cache.initial)))
  = Cache.mk_state [] [(k2, v2); (k3, v3)] []
      [(Cache.timestampKey_of Cache.processed k2, t2);
       (Cache.timestampKey_of Cache.processed k3, t3)]
      (Cache.mk_cacheConfig 2 (5 * 60 * 1000) true) O.
Proof.
  intros Hk1 Hk2 Hk3 H12 H13 H23 Ht.
  assert (Htk : ∀ k k', k ≠ k' →
            Cache.timestampKey_of Cache.processed k ≠ Cache.timestampKey_of Cache.processed k').
  { intros k k' Hne Heq. by apply timestampKey_inj in Heq as [_ ?]. }
  rewrite (setCache_room t1 k1) by done.
  cbn [Cache.configureCache_maxSize Cache.initial Cache.cache_of Cache.with_cache
       Cache.cache_processed Cache.timestamps Cache.cache_imageData Cache.cache_operations
       Cache.config Cache.cachedOperations JsMap.set].
  rewrite (setCache_room t2 k2) by done.
  cbn [Cache.cache_of Cache.with_cache
       Cache.cache_processed Cache.timestamps Cache.cache_imageData Cache.cache_operations
       Cache.config Cache.cachedOperations].
  rewrite !jsmap_set_cons_ne by auto. cbn [JsMap.set].
  rewrite (setCache_full t3 k3 v3 Cache.processed _ k1); [|done|done|done| |done].
  - cbn [Cache.cache_of Cache.with_cache
         Cache.cache_processed Cache.timestamps Cache.cache_imageData Cache.cache_operations
         Cache.config Cache.cachedOperations].
    rewrite !jsmap_delete_cons_eq, !jsmap_set_cons_ne by auto. reflexivity.
  - unfold Cache.getOldestCacheKey.
    cbn [Cache.timestamps foldl fst].
    rewrite !(timestampKey_prefix Cache.processed).
    rewrite (proj2 (Z.ltb_ge t2 t1)) by done. cbn [fst].
    by rewrite (timestampKey_replace Cache.processed).
Qed.

Lemma jsmap_nonempty_key {K V} (m : list (K * V)) : 0 < JsMap.size m → ∃ k, k ∈ m.*1.
Proof.
  destruct m as [|[k v] m]; unfold JsMap.size; cbn; [lia|].
  intros _. exists k. apply elem_of_cons. by left.
Qed.

(** C7. With [maxSize = 2], three inserts under three distinct keys, on a
    clock that does not run backwards between the first two, leave the
    second and third entries and evict the first, which a later read no
    longer finds.  In general, in a cache whose maps and timestamps are in
    step, an insert into a map that holds [maxSize] entries removes one
    entry of that map whose timestamp is the least of its type and no
    other, stores the new entry, and leaves the other maps alone. *)
Theorem cache_evicts_oldest :
  (∀ V (v1 v2 v3 : V) k1 k2 k3 t1 t2 t3 t4,
     k1 ≠ EmptyString → k2 ≠ EmptyString → k3 ≠ EmptyString →
     k1 ≠ k2 → k1 ≠ k3 → k2 ≠ k3 → t1 ≤ t2 →
     let st :=
       Cache.setCache t3 k3 v3 Cache.processed
         (Cache.setCache t2 k2 v2 Cache.processed
            (Cache.setCache t1 k1 v1 Cache.processed
               (Cache.configureCache_maxSize 2 Cache.initial))) in
     st.(Cache.cache_processed) = [(k2, v2); (k3, v3)] ∧
     Cache.getCache t4 k1 Cache.processed st = (None, st)) ∧
  (∀ V (st : Cache.state V) now key (value : V) type,
     synced st →
     st.(Cache.config).(Cache.enabled) = true → key ≠ EmptyString →
     0 < st.(Cache.config).(Cache.maxSize) →
     JsMap.size (Cache.cache_of type st) = st.(Cache.config).(Cache.maxSize) →
     ∃ oldest tmin,
       oldest ∈ (Cache.cache_of type st).*1 ∧
       JsMap.get st.(Cache.timestamps) (Cache.timestampKey_of type oldest) = Some tmin ∧
       (∀ key' t,
          JsMap.get st.(Cache.timestamps) (Cache.timestampKey_of type key') = Some t →
          tmin ≤ t) ∧
       let st' := Cache.setCache now key value type st in
       Cache.cache_of type st'
       = JsMap.set (JsMap.delete (Cache.cache_of type st) oldest) key value ∧
       (key ≠ oldest → JsMap.has (Cache.cache_of type st') oldest = false) ∧
       (∀ key', key' ≠ oldest → key' ≠ key →
                JsMap.get (Cache.cache_of type st') key'
                = JsMap.get (Cache.cache_of type st) key') ∧
       JsMap.get (Cache.cache_of type st') key = Some value ∧
       (∀ type', type' ≠ type → Cache.cache_of type' st' = Cache.cache_of type' st)).
Proof.
  split.
  - intros V v1 v2 v3 k1 k2 k3 t1 t2 t3 t4 Hk1 Hk2 Hk3 H12 H13 H23 Ht. cbv zeta.
    rewrite setCache_three_keys by done. split; [done|].
    unfold Cache.getCache.
    cbn [Cache.config Cache.enabled Cache.cache_of Cache.cache_processed negb orb].
    rewrite (proj2 (truthy_string_ne k1)) by done. cbn [negb orb].
    assert (Hhas : JsMap.has [(k2, v2); (k3, v3)] k1 = false).
    { apply not_true_is_false. rewrite jsmap_has_elem. cbn.
      rewrite !elem_of_cons. intros [?|[?|?%elem_of_nil]]; done. }
    by rewrite Hhas.
  - intros V st now key value type Hsync Hen Hkey Hmax Hsize.
    destruct (jsmap_nonempty_key (Cache.cache_of type st)) as [key0 Hkey0]; [lia|].
    destruct (getOldestCacheKey_oldest type st key0 Hsync Hkey0)
      as (oldest & tmin & Hold & Hin & Hget & Hmin).
    pose proof Hsync as (Hnd & Hndc & Hkeys & Hne).
    exists oldest, tmin. split; [done|]. split; [done|]. split; [done|]. cbv zeta.
    rewrite (setCache_full now key value type st oldest); [|done|done|lia|done|by eapply Hne].
    rewrite cache_of_with_cache. split; [done|]. split; [|split; [|split]].
    + intros Hneq. apply not_true_is_false. rewrite jsmap_has_elem, jsmap_keys_set.
      intros [?|Hd]; [done|]. apply jsmap_keys_delete in Hd as [? _]; done.
    + intros key' Hk1 Hk2. rewrite jsmap_get_set_ne by done. by rewrite jsmap_get_delete_ne.
    + apply jsmap_get_set_eq.
    + intros type' Htype. by rewrite !cache_of_with_cache_ne.
Qed.

Lemma cache_evicts_oldest_witness :
  (Cache.setCache 12 "c" 3%nat Cache.processed
     (Cache.setCache 11 "b" 2%nat Cache.processed
        (Cache.setCache 10 "a" 1%nat Cache.processed
           (Cache.configureCache_maxSize 2 Cache.initial)))).(Cache.cache_processed)
  = [("b", 2%nat); ("c", 3%nat)] ∧
  Cache.getCache 13 "a" Cache.processed
    (Cache.setCache 12 "c" 3%nat Cache.processed
       (Cache.setCache 11 "b" 2%nat Cache.processed
          (Cache.setCache 10 "a" 1%nat Cache.processed
             (Cache.configureCache_maxSize 2 Cache.initial))))
  = (None,
     Cache.setCache 12 "c" 3%nat Cache.processed
       (Cache.setCache 11 "b" 2%nat Cache.processed
          (Cache.setCache 10 "a" 1%nat Cache.processed
             (Cache.configureCache_maxSize 2 Cache.initial)))).
Proof.
  apply (proj1 cache_evicts_oldest nat 1%nat 2%nat 3%nat "a" "b" "c" 10 11 12 13);
    (done || lia).
Defined.

(** ** A failure of the worker *)

Lemma truthy_error_ne message :
  message ≠ EmptyString → Scheduler.truthy_error (Some message) = true.
Proof.
  intros Hne. unfold Scheduler.truthy_error.
  destruct (String.eqb_spec message EmptyString); done.
Qed.

Lemma processNextTask_callbacks {C} (st : Scheduler.state C) :
  (Scheduler.processNextTask st).(Scheduler.callbacks) = st.(Scheduler.callbacks).
Proof.
  unfold Scheduler.processNextTask. destruct (Scheduler.taskQueue st) as [|t rest]; [done|].
  by destruct (if String.eqb _ _ then _ else _).
Qed.

(** [processNextTask] calls no callback: it adds at most a message to the
    worker or a timer. *)
Lemma processNextTask_effects {C} (st : Scheduler.state C) :
  (Scheduler.processNextTask st).(Scheduler.effects) = st.(Scheduler.effects) ∨
  (∃ e, (Scheduler.processNextTask st).(Scheduler.effects)
        = st.(Scheduler.effects) ++ [Scheduler.PostMessage e]) ∨
  (∃ t r, (Scheduler.processNextTask st).(Scheduler.effects)
          = st.(Scheduler.effects) ++ [Scheduler.SetTimeout t r]).
Proof.
  unfold Scheduler.processNextTask. destruct (Scheduler.taskQueue st) as [|t rest]; [by left|].
  destruct (if String.eqb _ _ then _ else _); right; [right|left]; eauto.
Qed.

(** C8 fails on the code.  A task function that throws, or an unknown
    task, makes the worker post [{ success: false, error }] without the
    id of the task; [handleWorkerMessage] then finds no callback to call:
    the callbacks stay as they were and the next task is dispatched, the
    failed task's callback never being called nor removed.  Had the report
    named its task, the callback would have been handed
    [success: Boolean], which the callbacks of the filter requests read
    as a success and resolve on.  On the queue of two tasks above, the
    blur fails in the worker and afterwards its callback is still
    registered, nothing was called, and the median filter is in flight. *)
Theorem worker_failure_never_reaches_callback :
  (∀ Math_exp processImage applyColorAdjustments e,
     (e.(Scheduler.req_task) ∉ ["processImage"; "applyMedianFilter"; "applyGaussianFilter";
                                "computeHistogram"; "applyColorAdjustments"] →
      Scheduler.onmessage Math_exp processImage applyColorAdjustments e
      = [Scheduler.failure ("Unknown task: " +:+ e.(Scheduler.req_task))]) ∧
     (Scheduler.applyGaussianFilter_task Math_exp e.(Scheduler.req_data) = inl "Invalid typed array length" →
      e.(Scheduler.req_task) = "applyGaussianFilter" →
      Scheduler.onmessage Math_exp processImage applyColorAdjustments e
      = [Scheduler.failure "Invalid typed array length"])) ∧
  (∀ C (st : Scheduler.state C) message,
     message ≠ EmptyString →
     Scheduler.handleWorkerMessage (Scheduler.failure message) st
     = Scheduler.processNextTask (idle st) ∧
     (Scheduler.handleWorkerMessage (Scheduler.failure message) st).(Scheduler.callbacks)
     = st.(Scheduler.callbacks)) ∧
  (∀ C (st : Scheduler.state C) taskId callback message,
     message ≠ EmptyString → st.(Scheduler.callbacks) !! S taskId = Some callback →
     ∃ r, (Scheduler.handleWorkerMessage (failure_for (S taskId) message) st)
            .(Scheduler.effects)
          = (Scheduler.processNextTask
               (idle (Scheduler.mk_state st.(Scheduler.taskQueue) st.(Scheduler.isProcessing)
                        st.(Scheduler.resultCache)
                        (delete (S taskId) st.(Scheduler.callbacks))
                        st.(Scheduler.taskIdCounter)
                        (st.(Scheduler.effects) ++ [Scheduler.Call callback r]))))
              .(Scheduler.effects) ∧
          r.(Scheduler.resp_success) = Scheduler.BooleanConstructor ∧
          Scheduler.filter_callback r = Scheduler.Resolved None) ∧
  (∀ Math_exp processImage applyColorAdjustments,
     two_tasks.(Scheduler.effects)
     = [Scheduler.PostMessage (Scheduler.mk_request "applyGaussianFilter" failing_blur 1)] ∧
     Scheduler.onmessage Math_exp processImage applyColorAdjustments
       (Scheduler.mk_request "applyGaussianFilter" failing_blur 1)
     = [Scheduler.failure "Invalid typed array length"] ∧
     let st := Scheduler.handleWorkerMessage
                 (Scheduler.failure "Invalid typed array length") two_tasks in
     st.(Scheduler.callbacks) !! 1%nat = Some "blur callback" ∧
     st.(Scheduler.effects)
     = [Scheduler.PostMessage (Scheduler.mk_request "applyGaussianFilter" failing_blur 1);
        Scheduler.PostMessage (Scheduler.mk_request "applyMedianFilter" queued_median 2)] ∧
     st.(Scheduler.isProcessing) = true ∧ st.(Scheduler.taskQueue) = []).
Proof.
  split; [|split; [|split]].
  - intros Math_exp processImage applyColorAdjustments e. split.
    + intros Hunknown. unfold Scheduler.onmessage. cbv zeta.
      repeat match goal with
             | |- context [String.eqb ?a ?b] =>
                 destruct (String.eqb_spec a b) as [Heq|_];
                 [exfalso; apply Hunknown; rewrite Heq;
                  repeat (apply elem_of_cons; first [by left|right])|]
             end.
      reflexivity.
    + intros Hthrow Htask. unfold Scheduler.onmessage. rewrite Htask. cbn. by rewrite Hthrow.
  - intros C st message Hne.
    assert (Heq : Scheduler.handleWorkerMessage (Scheduler.failure message) st
                  = Scheduler.processNextTask (idle st)).
    { unfold Scheduler.handleWorkerMessage, Scheduler.failure.
      cbn -[Scheduler.truthy_error Scheduler.processNextTask].
      by rewrite truthy_error_ne. }
    split; [done|]. rewrite Heq. by rewrite processNextTask_callbacks.
  - intros C st taskId callback message Hne Hcb.
    eexists. split; [|split].
    + unfold Scheduler.handleWorkerMessage, failure_for.
      cbn -[Scheduler.truthy_error Scheduler.processNextTask].
      rewrite Hcb, truthy_error_ne by done.
      cbn -[Scheduler.truthy_error Scheduler.processNextTask]. reflexivity.
    + reflexivity.
    + reflexivity.
  - intros Math_exp processImage applyColorAdjustments.
    split; [vm_compute; reflexivity|]. split; [reflexivity|].
    cbv zeta. repeat split; vm_compute; reflexivity.
Qed.

(** ** The cache of the colour scan *)

Lemma cacheKey_same_size startColor endColor tolerance cv cv' :
  cv.(ColorReplace.width) = cv'.(ColorReplace.width) →
  cv.(ColorReplace.height) = cv'.(ColorReplace.height) →
  ColorReplace.cacheKey_of startColor endColor tolerance cv
  = ColorReplace.cacheKey_of startColor endColor tolerance cv'.
Proof. intros Hw Hh. unfold ColorReplace.cacheKey_of. by rewrite Hw, Hh. Qed.

(** C10. The key under which [findColorsInRange] caches its result is made
    of the two colours, the tolerance and the size of the canvas only.  So
    a second call with the same colours and tolerance on a canvas of the
    same size returns the array of the first call and leaves the cache as
    it is, whatever the pixels have become; once [clearColorCache] has
    run, the call scans the canvas it is given. *)
Theorem findColorsInRange_serves_stale_result
    cv cv' colorCache startColor endColor tolerance :
  cv.(ColorReplace.width) = cv'.(ColorReplace.width) →
  cv.(ColorReplace.height) = cv'.(ColorReplace.height) →
  let first := ColorReplace.findColorsInRange cv colorCache startColor endColor tolerance in
  ColorReplace.findColorsInRange cv' first.2 startColor endColor tolerance = first ∧
  (ColorReplace.findColorsInRange cv' (ColorReplace.clearColorCache first.2)
     startColor endColor tolerance).1
  = ColorReplace.scanColorsInRange cv' startColor endColor tolerance.
Proof.
  intros Hw Hh. cbv zeta. split.
  - unfold ColorReplace.findColorsInRange.
    rewrite <- (cacheKey_same_size startColor endColor tolerance cv cv' Hw Hh).
    destruct (colorCache !! ColorReplace.cacheKey_of startColor endColor tolerance cv)
      as [cached|] eqn:Hhit; cbn [snd].
    + by rewrite Hhit.
    + by rewrite lookup_insert_eq.
  - unfold ColorReplace.findColorsInRange, ColorReplace.clearColorCache.
    by rewrite lookup_empty.
Qed.

Lemma findColorsInRange_serves_stale_result_witness :
  ColorReplace.findColorsInRange
    (ColorReplace.mk_canvas 1 1 [0; 255; 0; 255])
    (ColorReplace.findColorsInRange (ColorReplace.mk_canvas 1 1 [255; 0; 0; 255]) ∅
       "#ff0000" "#ff0000" 0).2
    "#ff0000" "#ff0000" 0
  = ColorReplace.findColorsInRange (ColorReplace.mk_canvas 1 1 [255; 0; 0; 255]) ∅
      "#ff0000" "#ff0000" 0 ∧
  (ColorReplace.findColorsInRange
     (ColorReplace.mk_canvas 1 1 [0; 255; 0; 255])
     (ColorReplace.clearColorCache
        (ColorReplace.findColorsInRange (ColorReplace.mk_canvas 1 1 [255; 0; 0; 255]) ∅
           "#ff0000" "#ff0000" 0).2)
     "#ff0000" "#ff0000" 0).1
  = ColorReplace.scanColorsInRange (ColorReplace.mk_canvas 1 1 [0; 255; 0; 255])
      "#ff0000" "#ff0000" 0.
Proof.
  apply (findColorsInRange_serves_stale_result
           (ColorReplace.mk_canvas 1 1 [255; 0; 0; 255])
           (ColorReplace.mk_canvas 1 1 [0; 255; 0; 255]) ∅ "#ff0000" "#ff0000" 0);
    reflexivity.
Defined.

(** On that witness the stale answer is visible: the green pixel is
    reported as the red match of the canvas before. *)
Example stale_result_reports_old_pixels :
  map ColorReplace.hex
    (ColorReplace.findColorsInRange
       (ColorReplace.mk_canvas 1 1 [0; 255; 0; 255])
       (ColorReplace.findColorsInRange (ColorReplace.mk_canvas 1 1 [255; 0; 0; 255]) ∅
          "#ff0000" "#ff0000" 0).2
       "#ff0000" "#ff0000" 0).1 = ["#FF0000"] ∧
  ColorReplace.scanColorsInRange (ColorReplace.mk_canvas 1 1 [0; 255; 0; 255])
    "#ff0000" "#ff0000" 0 = [].
Proof. split; vm_compute; reflexivity. Qed.

(** ** The task queue over a run *)

Lemma posted_ids_app {C} (es1 es2 : list (Scheduler.effect C)) :
  posted_ids (es1 ++ es2) = posted_ids es1 ++ posted_ids es2.
Proof. unfold posted_ids. by rewrite omap_app. Qed.

(** What [processNextTask] does to the state: nothing on an empty queue;
    otherwise the first task leaves the queue, for the worker or for a
    timer. *)
Lemma processNextTask_shape {C} (st : Scheduler.state C) :
  (st.(Scheduler.taskQueue) = [] ∧ Scheduler.processNextTask st = st) ∨
  ∃ t rest flag e,
    st.(Scheduler.taskQueue) = t :: rest ∧
    Scheduler.processNextTask st
    = Scheduler.mk_state rest flag st.(Scheduler.resultCache) st.(Scheduler.callbacks)
                         st.(Scheduler.taskIdCounter) (st.(Scheduler.effects) ++ [e]) ∧
    ((flag = true ∧
      e = Scheduler.PostMessage
            (Scheduler.mk_request t.(Scheduler.q_taskType) t.(Scheduler.q_data)
                                  t.(Scheduler.q_taskId))) ∨
     (st.(Scheduler.resultCache) ≠ ∅ ∧ ∃ r, e = Scheduler.SetTimeout t r)).
Proof.
  unfold Scheduler.processNextTask.
  destruct (Scheduler.taskQueue st) as [|t rest]; [by left|]. right.
  destruct (if String.eqb _ _ then _ else _) as [r|] eqn:Hcache.
  - exists t, rest, (Scheduler.isProcessing st), (Scheduler.SetTimeout t r).
    split; [done|]. split; [done|]. right. split; [|by exists r].
    intros Hempty. rewrite Hempty in Hcache.
    destruct (String.eqb _ _); [done|].
    destruct (Scheduler.generateCacheKey _ _); [|done].
    cbn in Hcache. by rewrite lookup_empty in Hcache.
  - exists t, rest, true. eexists. split; [done|]. split; [done|]. by left.
Qed.

(** What [handleWorkerMessage] does before it looks at the queue: it
    calls at most one callback, and may forget that one. *)
Lemma handleWorkerMessage_shape {C} m (st : Scheduler.state C) :
  ∃ callbacks' called,
    let st1 :=
      Scheduler.mk_state st.(Scheduler.taskQueue) st.(Scheduler.isProcessing)
                         st.(Scheduler.resultCache) callbacks'
                         st.(Scheduler.taskIdCounter)
                         (st.(Scheduler.effects) ++ called) in
    (Scheduler.handleWorkerMessage m st = Scheduler.processNextTask (idle st1) ∨
     Scheduler.handleWorkerMessage m st = st1) ∧
    (∀ i, callbacks' !! i = None ∨ callbacks' !! i = st.(Scheduler.callbacks) !! i) ∧
    (called = [] ∨ ∃ callback r, called = [Scheduler.Call callback r]).
Proof.
  assert (Hsame : st = Scheduler.mk_state st.(Scheduler.taskQueue) st.(Scheduler.isProcessing)
                         st.(Scheduler.resultCache) st.(Scheduler.callbacks)
                         st.(Scheduler.taskIdCounter) (st.(Scheduler.effects) ++ [])).
  { rewrite app_nil_r. by destruct st. }
  assert (Hdelete : ∀ i j, delete j st.(Scheduler.callbacks) !! i = None ∨
                           delete j st.(Scheduler.callbacks) !! i
                           = st.(Scheduler.callbacks) !! i).
  { intros i j. destruct (decide (j = i)) as [->|Hne].
    - left. apply lookup_delete_eq.
    - right. by apply lookup_delete_ne. }
  unfold Scheduler.handleWorkerMessage.
  destruct (Scheduler.taskId m) as [[|n]|];
    [| destruct (Scheduler.callbacks st !! S n) as [callback|] eqn:Hcb;
       [destruct (Scheduler.truthy_error (Scheduler.error m)) eqn:Herr;
        [| destruct (bool_decide (is_Some (Scheduler.progress m))) eqn:Hprog;
           [| destruct (default false (Scheduler.complete m)) eqn:Hcomplete]]|]|].
  all: try (exists st.(Scheduler.callbacks), []; cbv zeta; rewrite <- Hsame;
            split; [|split; [by right|by left]];
            destruct (_ || _); [by left|by right]).
  all: eexists _, [_]; cbv zeta; split; [|split; [|right; by eexists _, _]];
       [destruct (_ || _); [left|right]; reflexivity|].
  all: intros i; first [apply Hdelete | by right].
Qed.

Lemma queued_ids_filter {C} taskId (queue : list (Scheduler.queuedTask C)) :
  Scheduler.q_taskId <$> filter (λ t, t.(Scheduler.q_taskId) ≠ taskId) queue
  = filter (λ i, i ≠ taskId) (Scheduler.q_taskId <$> queue).
Proof.
  induction queue as [|t queue IH]; [done|].
  rewrite fmap_cons, !filter_cons. destruct (decide (_ ≠ _)); [|done].
  by rewrite fmap_cons, IH.
Qed.

Lemma StronglySorted_filter (P : nat → Prop) `{∀ i, Decision (P i)} l :
  StronglySorted lt l → StronglySorted lt (filter P l).
Proof.
  induction 1 as [|x l Hl IH Hx]; [constructor|].
  rewrite filter_cons. destruct (decide (P x)); [|done].
  constructor; [done|]. apply Forall_forall. intros y [_ Hy]%list_elem_of_filter.
  rewrite Forall_forall in Hx. by apply Hx.
Qed.

Lemma StronglySorted_app_filter (P : nat → Prop) `{∀ i, Decision (P i)} l1 l2 :
  StronglySorted lt (l1 ++ l2) → StronglySorted lt (l1 ++ filter P l2).
Proof.
  rewrite !StronglySorted_app. intros (Hcross & H1 & H2). split; [|split; [done|]].
  - intros x1 x2 Hx1 [_ Hx2]%list_elem_of_filter. by apply Hcross.
  - by apply StronglySorted_filter.
Qed.

(** Reading the fields of a state just built. *)
Ltac state_fields :=
  cbn [Scheduler.taskQueue Scheduler.isProcessing Scheduler.resultCache
       Scheduler.callbacks Scheduler.taskIdCounter Scheduler.effects idle] in *.

Lemma queue_invariant_initial {C} : queue_invariant (@Scheduler.initial C).
Proof.
  unfold queue_invariant. cbn.
  split; [done|]. do 3 (split; [constructor|]).
  intros i [c Hc]. by rewrite lookup_empty in Hc.
Qed.

Lemma processNextTask_invariant {C} (st : Scheduler.state C) :
  queue_invariant st →
  queue_invariant (Scheduler.processNextTask st) ∧ settled (Scheduler.processNextTask st).
Proof.
  intros Hinv. pose proof Hinv as (Hcache & Htimers & Hsorted & Hhanded & Hcallbacks).
  destruct (processNextTask_shape st) as [[Hq ->]|(t & rest & flag & e & Hq & -> & He)].
  { split; [done|]. by intros _. }
  destruct He as [[-> ->]|[Hne _]]; [|done].
  split; [|by intros ?].
  unfold queue_invariant, queued_ids in *. state_fields. rewrite Hq in *.
  rewrite posted_ids_app. cbn [posted_ids omap app Scheduler.req_taskId].
  rewrite <- !app_assoc. cbn [app fmap list_fmap] in *.
  split; [done|]. split; [|done].
  apply Forall_app. split; [done|]. by constructor.
Qed.

Lemma idle_invariant {C} (st : Scheduler.state C) :
  queue_invariant st → queue_invariant (idle st).
Proof. by intros (? & ? & ? & ? & ?). Qed.

Lemma addTask_invariant {C} taskType data callback (st : Scheduler.state C) :
  queue_invariant st → settled st →
  queue_invariant (Scheduler.addTask taskType data callback st).1 ∧
  settled (Scheduler.addTask taskType data callback st).1.
Proof.
  intros (Hcache & Htimers & Hsorted & Hhanded & Hcallbacks) Hsettled.
  unfold Scheduler.addTask. cbn [fst Scheduler.isProcessing].
  set (st1 := Scheduler.mk_state _ _ _ _ _ _).
  assert (Hst1 : queue_invariant st1).
  { unfold queue_invariant, queued_ids, st1. state_fields. rewrite fmap_app, app_assoc.
    cbn [fmap list_fmap Scheduler.q_taskId].
    split; [done|]. split; [done|]. split; [|split].
    - apply StronglySorted_app. split; [|split; [done|]].
      + intros x1 x2 Hx1 ->%list_elem_of_singleton.
        rewrite Forall_forall in Hhanded. specialize (Hhanded _ Hx1). lia.
      + repeat constructor.
    - apply Forall_app. split; [|by repeat constructor].
      eapply Forall_impl; [exact Hhanded|]. cbn. lia.
    - intros i Hi.
      destruct (decide (i = S (Scheduler.taskIdCounter st))) as [->|Hne]; [lia|].
      rewrite lookup_insert_ne in Hi by done. apply Hcallbacks in Hi. lia. }
  destruct (Scheduler.isProcessing st) eqn:Hflag.
  - split; [done|]. intros Hidle. cbn in Hidle. congruence.
  - by apply processNextTask_invariant.
Qed.

Lemma handleWorkerMessage_invariant {C} m (st : Scheduler.state C) :
  queue_invariant st → settled st →
  queue_invariant (Scheduler.handleWorkerMessage m st) ∧
  settled (Scheduler.handleWorkerMessage m st).
Proof.
  intros (Hcache & Htimers & Hsorted & Hhanded & Hcallbacks) Hsettled.
  destruct (handleWorkerMessage_shape m st) as (callbacks' & called & Hstep & Hsub & Hcalled).
  cbv zeta in Hstep. set (st1 := Scheduler.mk_state _ _ _ _ _ _) in Hstep.
  assert (Hst1 : queue_invariant st1).
  { unfold queue_invariant, queued_ids, st1. state_fields. rewrite posted_ids_app.
    assert (Hposted : posted_ids called = []) by (by destruct Hcalled as [->|(? & ? & ->)]).
    rewrite Hposted, app_nil_r.
    split; [done|]. split; [|split; [done|split; [done|]]].
    - apply Forall_app. split; [done|].
      by destruct Hcalled as [->|(? & ? & ->)]; repeat constructor.
    - intros i Hi. destruct (Hsub i) as [Hi'|Hi']; rewrite Hi' in Hi; [by destruct Hi|].
      by apply Hcallbacks. }
  destruct Hstep as [-> | ->].
  - apply processNextTask_invariant. by apply idle_invariant.
  - by split.
Qed.

Lemma cancelTask_invariant {C} taskId (st : Scheduler.state C) :
  queue_invariant st → settled st →
  queue_invariant (Scheduler.cancelTask taskId st) ∧
  settled (Scheduler.cancelTask taskId st).
Proof.
  intros Hinv Hsettled. unfold Scheduler.cancelTask.
  destruct (Scheduler.callbacks st !! taskId) eqn:Hcb; [|done].
  destruct Hinv as (Hcache & Htimers & Hsorted & Hhanded & Hcallbacks).
  split.
  - unfold queue_invariant, queued_ids in *. state_fields.
    rewrite queued_ids_filter.
    split; [done|]. split; [done|]. split; [|split].
    + by apply StronglySorted_app_filter.
    + apply Forall_app in Hhanded as [H1 H2]. apply Forall_app. split; [done|].
      apply Forall_forall. intros x [_ Hx]%list_elem_of_filter.
      rewrite Forall_forall in H2. by apply H2.
    + intros i Hi. destruct (decide (taskId = i)) as [->|Hne].
      * rewrite lookup_delete_eq in Hi. by destruct Hi.
      * rewrite lookup_delete_ne in Hi by done. by apply Hcallbacks.
  - intros Hidle. cbn in *. by rewrite (Hsettled Hidle).
Qed.

(** Every state of a run from the constructor's state satisfies the
    invariant of the queue, and has nothing waiting while the flag is
    down. *)
Lemma reachable_invariant {C} (st : Scheduler.state C) :
  reachable st → queue_invariant st ∧ settled st.
Proof.
  induction 1 as [|st ??? _ [IH1 IH2]|st m _ [IH1 IH2]|st _ [IH1 IH2]
                  |st taskId _ [IH1 IH2]|st _ [IH1 IH2]|st t r _ [IH1 IH2] Htimer].
  - split; [apply queue_invariant_initial|done].
  - by apply addTask_invariant.
  - by apply handleWorkerMessage_invariant.
  - apply processNextTask_invariant. by apply idle_invariant.
  - by apply cancelTask_invariant.
  - split; [|done]. by destruct IH1 as (? & ? & ? & ? & ?).
  - destruct IH1 as (_ & Htimers & _). rewrite Forall_forall in Htimers.
    by specialize (Htimers _ Htimer).
Qed.

(** X1. In every state the processor reaches from the one its constructor
    builds, by [addTask], [cancelTask], [clearCache], messages and errors
    of the worker, whatever they are, a task waits in the queue only while
    another is in flight: when [isProcessing] is false the queue is
    empty. *)
Theorem idle_processor_has_empty_queue {C} (st : Scheduler.state C) :
  reachable st → st.(Scheduler.isProcessing) = false → st.(Scheduler.taskQueue) = [].
Proof.
  intros Hrun Hidle.
  destruct (reachable_invariant st Hrun) as [_ Hsettled].
  by apply Hsettled.
Qed.

Lemma idle_processor_has_empty_queue_witness :
  after_one_task.(Scheduler.isProcessing) = false ∧
  after_one_task.(Scheduler.taskQueue) = [].
Proof.
  split; [reflexivity|].
  apply (idle_processor_has_empty_queue after_one_task); [|reflexivity].
  apply run_message, run_addTask, run_start.
Defined.

(** X2. The ids of the tasks posted to the worker so far, followed by the
    ids of the tasks still waiting, are strictly increasing: tasks go to
    the worker in the order [addTask] took them, none is posted twice and
    none waits that was posted; and nothing is ever answered from the
    result cache, which stays empty. *)
Theorem tasks_posted_once_in_order {C} (st : Scheduler.state C) :
  reachable st →
  StronglySorted lt (posted_ids st.(Scheduler.effects) ++ queued_ids st) ∧
  st.(Scheduler.resultCache) = ∅ ∧
  Forall (λ e, is_timer e = false) st.(Scheduler.effects).
Proof.
  intros Hrun.
  destruct (reachable_invariant st Hrun) as [(Hcache & Htimers & Hsorted & _) _].
  split; [exact Hsorted|]. by split.
Qed.

Lemma tasks_posted_once_in_order_witness :
  StronglySorted lt (posted_ids two_tasks.(Scheduler.effects) ++ queued_ids two_tasks) ∧
  two_tasks.(Scheduler.resultCache) = ∅ ∧
  Forall (λ e, is_timer e = false) two_tasks.(Scheduler.effects).
Proof.
  apply (tasks_posted_once_in_order two_tasks).
  apply run_addTask, run_addTask, run_start.
Defined.

(** X3. The id [addTask] returns is new: no callback is registered under
    it before the call, and it is larger than the id of every task posted
    or waiting, so that [addTask] never replaces the callback of another
    task. *)
Theorem addTask_returns_fresh_id {C} taskType data callback (st : Scheduler.state C) :
  reachable st →
  let taskId := (Scheduler.addTask taskType data callback st).2 in
  st.(Scheduler.callbacks) !! taskId = None ∧
  Forall (λ i, (i < taskId)%nat) (posted_ids st.(Scheduler.effects) ++ queued_ids st) ∧
  (Scheduler.addTask taskType data callback st).1.(Scheduler.callbacks) !! taskId
  = Some callback.
Proof.
  intros Hrun taskId.
  destruct (reachable_invariant st Hrun) as [(_ & _ & _ & Hhanded & Hcallbacks) _].
  assert (HtaskId : taskId = S st.(Scheduler.taskIdCounter)) by done.
  split; [|split].
  - destruct (Scheduler.callbacks st !! taskId) eqn:Hcb; [|done].
    assert (His : is_Some (Scheduler.callbacks st !! taskId)) by (by rewrite Hcb).
    apply Hcallbacks in His. lia.
  - eapply Forall_impl; [exact Hhanded|]. cbn. lia.
  - unfold Scheduler.addTask. cbn [fst Scheduler.isProcessing].
    destruct (Scheduler.isProcessing st).
    + state_fields. rewrite HtaskId. apply lookup_insert_eq.
    + rewrite processNextTask_callbacks. state_fields. rewrite HtaskId.
      apply lookup_insert_eq.
Qed.

Lemma addTask_returns_fresh_id_witness :
  two_tasks.(Scheduler.callbacks) !! 3%nat = None ∧
  Forall (λ i, (i < 3)%nat) (posted_ids two_tasks.(Scheduler.effects) ++ queued_ids two_tasks) ∧
  (Scheduler.addTask "computeHistogram" queued_median "histogram callback" two_tasks).1
    .(Scheduler.callbacks) !! 3%nat = Some "histogram callback".
Proof.
  apply (addTask_returns_fresh_id "computeHistogram" queued_median "histogram callback"
           two_tasks).
  apply run_addTask, run_addTask, run_start.
Defined.

Lemma processNextTask_forgotten {C} taskId (st : Scheduler.state C) :
  forgotten taskId st → forgotten taskId (Scheduler.processNextTask st).
Proof.
  intros (Hposted & Hqueued & Hcb & Hhanded).
  destruct (processNextTask_shape st) as [[Hq ->]|(t & rest & flag & e & Hq & -> & He)].
  { done. }
  unfold forgotten, queued_ids in *. state_fields. rewrite Hq in Hqueued.
  rewrite fmap_cons in Hqueued. apply not_elem_of_cons in Hqueued as [Hne Hrest].
  rewrite posted_ids_app.
  split; [|done].
  rewrite not_elem_of_app. split; [done|].
  destruct He as [[_ ->]|[_ [r ->]]]; cbn; [|apply not_elem_of_nil].
  apply not_elem_of_cons. split; [done|apply not_elem_of_nil].
Qed.

Lemma forgotten_calls {C} taskId (st : Scheduler.state C) flag callbacks' called :
  forgotten taskId st →
  (∀ i, callbacks' !! i = None ∨ callbacks' !! i = st.(Scheduler.callbacks) !! i) →
  (called = [] ∨ ∃ callback r, called = [Scheduler.Call callback r]) →
  forgotten taskId
    (Scheduler.mk_state st.(Scheduler.taskQueue) flag st.(Scheduler.resultCache)
                        callbacks' st.(Scheduler.taskIdCounter)
                        (st.(Scheduler.effects) ++ called)).
Proof.
  intros (Hposted & Hqueued & Hcb & Hhanded) Hsub Hcalled.
  unfold forgotten, queued_ids in *. state_fields. rewrite posted_ids_app.
  assert (Hnone : posted_ids called = []) by (by destruct Hcalled as [->|(? & ? & ->)]).
  rewrite Hnone, app_nil_r. split; [done|]. split; [done|]. split; [|done].
  destruct (Hsub taskId) as [H|H]; [done|]. by rewrite H.
Qed.

(** What is forgotten stays forgotten, whatever the processor goes
    through. *)
Lemma runs_forgotten {C} taskId (st0 st : Scheduler.state C) :
  forgotten taskId st0 → runs st0 st → forgotten taskId st.
Proof.
  intros Hstart. induction 1 as [|st taskType data callback _ IH|st m _ IH|st _ IH
                                 |st taskId' _ IH|st _ IH|st t r _ IH Htimer].
  - done.
  - unfold Scheduler.addTask. cbn [fst Scheduler.isProcessing].
    set (st1 := Scheduler.mk_state _ _ _ _ _ _).
    assert (Hst1 : forgotten taskId st1).
    { destruct IH as (Hposted & Hqueued & Hcb & Hhanded).
      unfold forgotten, queued_ids, st1 in *. state_fields.
      split; [done|]. split; [|split; [|lia]].
      - rewrite fmap_app, not_elem_of_app. split; [done|].
        cbn. apply not_elem_of_cons. split; [lia|apply not_elem_of_nil].
      - rewrite lookup_insert_ne by lia. done. }
    destruct (Scheduler.isProcessing st); [done|]. by apply processNextTask_forgotten.
  - destruct (handleWorkerMessage_shape m st) as (callbacks' & called & Hstep & Hsub & Hcalled).
    cbv zeta in Hstep.
    destruct Hstep as [-> | ->].
    + apply processNextTask_forgotten.
      exact (forgotten_calls taskId st false callbacks' called IH Hsub Hcalled).
    + exact (forgotten_calls taskId st _ callbacks' called IH Hsub Hcalled).
  - apply processNextTask_forgotten.
    destruct IH as (Hposted & Hqueued & Hcb & Hhanded). by repeat split.
  - unfold Scheduler.cancelTask. destruct (Scheduler.callbacks st !! taskId'); [|done].
    destruct IH as (Hposted & Hqueued & Hcb & Hhanded).
    unfold forgotten, queued_ids in *. state_fields.
    split; [done|]. split; [|split; [|done]].
    + rewrite queued_ids_filter. intros [_ Hin]%list_elem_of_filter. by apply Hqueued.
    + destruct (decide (taskId' = taskId)) as [->|Hne].
      * apply lookup_delete_eq.
      * by rewrite lookup_delete_ne.
  - destruct IH as (Hposted & Hqueued & Hcb & Hhanded). by repeat split.
  - unfold Scheduler.run_timeout. apply processNextTask_forgotten.
    apply (forgotten_calls taskId st); [done| |right; by eexists _, _].
    intros i. destruct (decide (Scheduler.q_taskId t = i)) as [->|Hne].
    + left. apply lookup_delete_eq.
    + right. by apply lookup_delete_ne.
Qed.

(** X4. A task cancelled before it was posted is never posted: once
    [cancelTask] has been called with the id of a task that has a callback
    and has not been sent to the worker, no later state of the processor
    has that id among the posted ones, or a callback under it, whatever
    calls, messages, errors and timers follow. *)
Theorem cancelled_task_is_never_posted {C} taskId (st0 st : Scheduler.state C) :
  (taskId ≤ st0.(Scheduler.taskIdCounter))%nat →
  is_Some (st0.(Scheduler.callbacks) !! taskId) →
  taskId ∉ posted_ids st0.(Scheduler.effects) →
  runs (Scheduler.cancelTask taskId st0) st →
  (taskId ∉ posted_ids st.(Scheduler.effects)) ∧
  (taskId ∉ queued_ids st) ∧
  st.(Scheduler.callbacks) !! taskId = None.
Proof.
  intros Hhanded [callback Hcb] Hposted Hrun.
  assert (Hstart : forgotten taskId (Scheduler.cancelTask taskId st0)).
  { unfold Scheduler.cancelTask. rewrite Hcb.
    unfold forgotten, queued_ids. state_fields.
    split; [done|]. split; [|split; [apply lookup_delete_eq|done]].
    rewrite queued_ids_filter. by intros [Hne _]%list_elem_of_filter. }
  destruct (runs_forgotten taskId _ st Hstart Hrun) as (H1 & H2 & H3 & _).
  by repeat split.
Qed.

Lemma cancelled_task_is_never_posted_witness :
  (2 ≤ two_tasks.(Scheduler.taskIdCounter))%nat ∧
  two_tasks.(Scheduler.callbacks) !! 2%nat = Some "median callback" ∧
  posted_ids two_tasks.(Scheduler.effects) = [1%nat] ∧
  (2%nat ∉ posted_ids (Scheduler.handleWorkerError (Scheduler.cancelTask 2 two_tasks))
                        .(Scheduler.effects)) ∧
  (2%nat ∉ queued_ids (Scheduler.handleWorkerError (Scheduler.cancelTask 2 two_tasks))) ∧
  (Scheduler.handleWorkerError (Scheduler.cancelTask 2 two_tasks)).(Scheduler.callbacks)
    !! 2%nat = None.
Proof.
  split; [vm_compute; lia|]. split; [reflexivity|]. split; [reflexivity|].
  apply (cancelled_task_is_never_posted 2 two_tasks).
  - vm_compute. lia.
  - by exists "median callback".
  - intros Hin. vm_compute in Hin. apply list_elem_of_singleton in Hin. lia.
  - apply run_error, run_start.
Defined.

(** ** The cache over its life *)

Lemma synced_initial {V} : synced (@Cache.initial V).
Proof.
  split; [constructor|]. split; [intros []; constructor|]. split.
  - intros s. split.
    + intros Hs. by apply elem_of_nil in Hs.
    + intros ([] & key & _ & Hkey); by apply elem_of_nil in Hkey.
  - intros [] key Hkey; by apply elem_of_nil in Hkey.
Qed.

Lemma jsmap_set_same {K V} `{EqDecision K} (m : list (K * V)) k v :
  JsMap.get m k = Some v → JsMap.set m k v = m.
Proof.
  induction m as [|[k0 v0] m IH]; [done|]. cbn.
  destruct (decide (k0 = k)) as [->|Hne].
  - by intros [= ->].
  - intros Hget. by rewrite IH.
Qed.

Lemma jsmap_size_set_le {K V} `{EqDecision K} (m : list (K * V)) k v :
  JsMap.size (JsMap.set m k v) ≤ JsMap.size m + 1.
Proof.
  unfold JsMap.size. induction m as [|[k0 v0] m IH]; [cbn; lia|]. cbn [JsMap.set].
  destruct (decide (k0 = k)); cbn [length] in *; lia.
Qed.

Lemma cache_of_with_cache_cases {V} type type' m ts (st : Cache.state V) :
  Cache.cache_of type' (Cache.with_cache type m ts st)
  = if decide (type' = type) then m else Cache.cache_of type' st.
Proof.
  destruct (decide (type' = type)) as [->|Hne].
  - apply cache_of_with_cache.
  - by apply cache_of_with_cache_ne.
Qed.

(** Storing an entry and its timestamp keeps the cache in step. *)
Lemma synced_set {V} type key (value : V) now st :
  synced st → key ≠ EmptyString →
  synced (Cache.with_cache type (JsMap.set (Cache.cache_of type st) key value)
            (JsMap.set st.(Cache.timestamps) (Cache.timestampKey_of type key) now) st).
Proof.
  intros (Hnd & Hndc & Hkeys & Hne) Hkey. unfold synced.
  rewrite timestamps_with_cache. split; [by apply jsmap_NoDup_set|]. split; [|split].
  - intros type'. rewrite cache_of_with_cache_cases.
    destruct (decide (type' = type)) as [->|_]; [by apply jsmap_NoDup_set|done].
  - intros s. rewrite jsmap_keys_set, Hkeys. split.
    + intros [->|(type' & key' & -> & Hin)].
      * exists type, key. split; [done|]. rewrite cache_of_with_cache.
        apply jsmap_keys_set. by left.
      * exists type', key'. split; [done|]. rewrite cache_of_with_cache_cases.
        destruct (decide (type' = type)) as [->|_]; [|done].
        apply jsmap_keys_set. by right.
    + intros (type' & key' & -> & Hin). rewrite cache_of_with_cache_cases in Hin.
      destruct (decide (type' = type)) as [->|_].
      * apply jsmap_keys_set in Hin as [->|Hin]; [by left|]. right. by exists type, key'.
      * right. by exists type', key'.
  - intros type' key' Hin. rewrite cache_of_with_cache_cases in Hin.
    destruct (decide (type' = type)) as [->|_]; [|by apply (Hne type')].
    apply jsmap_keys_set in Hin as [->|Hin]; [done|by apply (Hne type)].
Qed.

(** Dropping an entry and its timestamp keeps the cache in step. *)
Lemma synced_delete {V} type key (st : Cache.state V) :
  synced st →
  synced (Cache.with_cache type (JsMap.delete (Cache.cache_of type st) key)
            (JsMap.delete st.(Cache.timestamps) (Cache.timestampKey_of type key)) st).
Proof.
  intros (Hnd & Hndc & Hkeys & Hne). unfold synced.
  rewrite timestamps_with_cache. split; [by apply jsmap_NoDup_delete|]. split; [|split].
  - intros type'. rewrite cache_of_with_cache_cases.
    destruct (decide (type' = type)) as [->|_]; [by apply jsmap_NoDup_delete|done].
  - intros s. rewrite jsmap_keys_delete, Hkeys by done. split.
    + intros [Hs (type' & key' & -> & Hin)].
      exists type', key'. split; [done|]. rewrite cache_of_with_cache_cases.
      destruct (decide (type' = type)) as [->|_]; [|done].
      apply jsmap_keys_delete; [done|]. split; [|done]. by intros ->.
    + intros (type' & key' & -> & Hin). rewrite cache_of_with_cache_cases in Hin.
      destruct (decide (type' = type)) as [->|Hother].
      * apply jsmap_keys_delete in Hin as [Hk Hin]; [|done].
        split; [|by exists type, key'].
        intros [_ ?]%timestampKey_inj. done.
      * split; [|by exists type', key'].
        intros [? _]%timestampKey_inj. done.
  - intros type' key' Hin. rewrite cache_of_with_cache_cases in Hin.
    destruct (decide (type' = type)) as [->|_]; [|by apply (Hne type')].
    apply jsmap_keys_delete in Hin as [_ Hin]; [|done]. by apply (Hne type).
Qed.

(** Being in step does not look at the counter of hits. *)
Lemma synced_counter {V} (st : Cache.state V) n :
  synced st →
  synced (Cache.mk_state st.(Cache.cache_imageData) st.(Cache.cache_processed)
            st.(Cache.cache_operations) st.(Cache.timestamps) st.(Cache.config) n).
Proof.
  intros (Hnd & Hndc & Hkeys & Hne). split; [done|]. split; [|split].
  - intros type. specialize (Hndc type). by destruct type.
  - intros s. rewrite Hkeys. split; intros (type & key & -> & Hin);
      exists type, key; (split; [done|]); by destruct type.
  - intros type key Hin. apply (Hne type key). by destruct type.
Qed.

Lemma setCache_synced {V} now key (value : V) type st :
  synced st → synced (Cache.setCache now key value type st).
Proof.
  intros Hst. unfold Cache.setCache.
  destruct (negb _ || negb (Cache.truthy_string key)) eqn:Hguard; [done|].
  apply orb_false_iff in Hguard as [_ Hkey]. apply negb_false_iff, truthy_string_ne in Hkey.
  apply synced_set; [|done].
  destruct (_ <=? _); [|done].
  destruct (Cache.getOldestCacheKey type st) as [oldest|]; [|done].
  destruct (Cache.truthy_string oldest); [|done].
  by apply synced_delete.
Qed.

Lemma getCache_synced {V} now key type (st : Cache.state V) :
  synced st → synced (Cache.getCache now key type st).2.
Proof.
  intros Hst. unfold Cache.getCache.
  destruct (negb _ || negb _ || negb _) eqn:Hguard; [done|].
  apply orb_false_iff in Hguard as [Hguard Hhas]. apply negb_false_iff in Hhas.
  apply orb_false_iff in Hguard as [_ Hkey].
  apply negb_false_iff, truthy_string_ne in Hkey.
  cbv zeta.
  destruct (match JsMap.get _ _ with Some t => _ | None => false end).
  - by apply synced_delete.
  - cbn [snd]. apply synced_counter.
    unfold JsMap.has in Hhas.
    destruct (JsMap.get (Cache.cache_of type st) key) as [value|] eqn:Hget; [|done].
    rewrite <- (jsmap_set_same _ _ _ Hget) at 1. by apply synced_set.
Qed.

Lemma keys_filter_prefix prefix_ (ts : list (string * Z)) s :
  s ∈ (filter (λ e, String.prefix prefix_ e.1 = false) ts).*1 ↔
  String.prefix prefix_ s = false ∧ s ∈ ts.*1.
Proof.
  rewrite !list_elem_of_fmap. split.
  - intros ([k t] & -> & [Hp Hin]%list_elem_of_filter). split; [done|]. by exists (k, t).
  - intros [Hp ([k t] & -> & Hin)]. exists (k, t). split; [done|].
    by apply list_elem_of_filter.
Qed.

Lemma NoDup_keys_filter {A B} (P : A * B → Prop) `{∀ e, Decision (P e)} (l : list (A * B)) :
  NoDup l.*1 → NoDup (filter P l).*1.
Proof.
  induction l as [|[k v] l IH]; [done|]. rewrite fmap_cons, NoDup_cons. intros [Hk Hl].
  rewrite filter_cons. destruct (decide (P (k, v))); [|by apply IH].
  rewrite fmap_cons. apply NoDup_cons. split; [|by apply IH].
  intros ([k' v'] & Heq & [_ Hin]%list_elem_of_filter)%list_elem_of_fmap.
  cbn in Heq. subst k'. apply Hk. apply list_elem_of_fmap. by exists (k, v').
Qed.

Lemma clearCache_synced {V} type (st : Cache.state V) :
  synced st → synced (Cache.clearCache type st).
Proof.
  intros (Hnd & Hndc & Hkeys & Hne). destruct type as [type|]; cbn [Cache.clearCache].
  - unfold synced. rewrite timestamps_with_cache.
    split; [by apply NoDup_keys_filter|]. split; [|split].
    + intros type'. rewrite cache_of_with_cache_cases.
      destruct (decide (type' = type)); [constructor|done].
    + intros s. rewrite keys_filter_prefix, Hkeys. split.
      * intros [Hp (type' & key' & -> & Hin)]. exists type', key'. split; [done|].
        rewrite cache_of_with_cache_cases.
        destruct (decide (type' = type)) as [->|_]; [|done].
        by rewrite timestampKey_prefix in Hp.
      * intros (type' & key' & -> & Hin). rewrite cache_of_with_cache_cases in Hin.
        destruct (decide (type' = type)) as [->|Hother]; [by apply elem_of_nil in Hin|].
        split; [|by exists type', key'].
        destruct (String.prefix _ _) eqn:Hp; [|done].
        by apply timestampKey_other_prefix in Hp.
    + intros type' key' Hin. rewrite cache_of_with_cache_cases in Hin.
      destruct (decide (type' = type)); [by apply elem_of_nil in Hin|by apply (Hne type')].
  - split; [constructor|]. split; [intros []; constructor|]. split.
    + intros s. split.
      * intros Hs. by apply elem_of_nil in Hs.
      * intros ([] & key & _ & Hkey); by apply elem_of_nil in Hkey.
    + intros [] key Hkey; by apply elem_of_nil in Hkey.
Qed.

Lemma synced_configure {V} n (st : Cache.state V) :
  synced st → synced (Cache.configureCache_maxSize n st).
Proof.
  intros (Hnd & Hndc & Hkeys & Hne). split; [done|]. split; [|split].
  - intros type. specialize (Hndc type). by destruct type.
  - intros s. rewrite Hkeys. split; intros (type & key & -> & Hin);
      exists type, key; (split; [done|]); by destruct type.
  - intros type key Hin. apply (Hne type key). by destruct type.
Qed.

(** X5. The cache and its timestamps stay in step.  The constructor's
    cache has, and [setCache], [getCache], [clearCache] and a change of
    [maxSize] keep, these facts: every map holds a key once, there is
    exactly one timestamp, under [type_key], for every entry of the three
    maps and none besides, and no key is the empty string. *)
Theorem cache_stays_in_step :
  (∀ V, synced (@Cache.initial V)) ∧
  (∀ V (st : Cache.state V) now key value type cleared n,
     synced st →
     synced (Cache.setCache now key value type st) ∧
     synced (Cache.getCache now key type st).2 ∧
     synced (Cache.clearCache cleared st) ∧
     synced (Cache.configureCache_maxSize n st)).
Proof.
  split.
  - intros V. apply synced_initial.
  - intros V st now key value type cleared n Hst.
    split; [by apply setCache_synced|]. split; [by apply getCache_synced|].
    split; [by apply clearCache_synced|by apply synced_configure].
Qed.

Lemma cache_stays_in_step_witness :
  synced (Cache.setCache 12 "c" 3%nat Cache.processed two_entries) ∧
  synced (Cache.getCache 12 "c" Cache.processed two_entries).2 ∧
  synced (Cache.clearCache (Some Cache.processed) two_entries) ∧
  synced (Cache.configureCache_maxSize 1 two_entries).
Proof.
  apply (proj2 cache_stays_in_step).
  apply setCache_synced, setCache_synced, synced_configure, synced_initial.
Defined.

(** What [setCache] does when it stores: it may first have made room. *)
Lemma setCache_stored {V} now key (value : V) type st :
  st.(Cache.config).(Cache.enabled) = true → key ≠ EmptyString →
  ∃ st1,
    Cache.setCache now key value type st
    = Cache.with_cache type (JsMap.set (Cache.cache_of type st1) key value)
        (JsMap.set st1.(Cache.timestamps) (Cache.timestampKey_of type key) now) st1 ∧
    st1.(Cache.config) = st.(Cache.config).
Proof.
  intros Hon Hkey%truthy_string_ne. unfold Cache.setCache. rewrite Hon, Hkey.
  cbn [negb orb].
  destruct (_ <=? _); [|by exists st].
  destruct (Cache.getOldestCacheKey type st) as [oldest|]; [|by exists st].
  destruct (Cache.truthy_string oldest); [|by exists st].
  eexists. split; [reflexivity|]. apply config_with_cache.
Qed.

(** X6. A value stored is the value read: with the cache enabled and a
    non-empty key, [getCache] after [setCache] of the same key and type
    returns the stored value, provided the entry is read no later than
    [ttl] milliseconds after it was written, or was written at time 0,
    which the expiry test takes for no timestamp at all; the read renews
    the timestamp. *)
Theorem cached_value_is_returned {V} (st : Cache.state V) now now' key value type :
  st.(Cache.config).(Cache.enabled) = true → key ≠ EmptyString →
  now = 0 ∨ now' - now ≤ st.(Cache.config).(Cache.ttl) →
  let out := Cache.getCache now' key type (Cache.setCache now key value type st) in
  out.1 = Some value ∧
  JsMap.get out.2.(Cache.timestamps) (Cache.timestampKey_of type key) = Some now'.
Proof.
  intros Hon Hkey Hfresh.
  destruct (setCache_stored now key value type st Hon Hkey) as (st1 & -> & Hconfig).
  cbv zeta. unfold Cache.getCache.
  rewrite !config_with_cache, !cache_of_with_cache, !timestamps_with_cache, Hconfig, Hon.
  apply truthy_string_ne in Hkey as Htruthy. rewrite Htruthy.
  unfold JsMap.has. rewrite !jsmap_get_set_eq. cbn [negb orb].
  assert (Hlive : negb (now =? 0) && (Cache.ttl (Cache.config st) <? now' - now) = false).
  { destruct Hfresh as [->|Hle]; [done|].
    apply andb_false_iff. right. apply Z.ltb_ge. lia. }
  rewrite Hlive. cbn [fst snd Cache.timestamps].
  rewrite ?cache_of_with_cache, ?timestamps_with_cache.
  by rewrite !jsmap_get_set_eq.
Qed.

Lemma cached_value_is_returned_witness :
  (Cache.getCache 300010 "a" Cache.processed
     (Cache.setCache 10 "a" 7%nat Cache.processed Cache.initial)).1 = Some 7%nat ∧
  JsMap.get (Cache.getCache 300010 "a" Cache.processed
               (Cache.setCache 10 "a" 7%nat Cache.processed Cache.initial)).2
              .(Cache.timestamps)
            (Cache.timestampKey_of Cache.processed "a") = Some 300010.
Proof.
  apply (cached_value_is_returned Cache.initial 10 300010 "a" 7%nat Cache.processed).
  - reflexivity.
  - discriminate.
  - right. vm_compute. discriminate.
Defined.

(** X7. An entry read more than [ttl] milliseconds after it was written
    (at a time other than 0) is not returned: [getCache] answers [null]
    and removes the entry and its timestamp, so that later reads miss
    too. *)
Theorem expired_entry_is_dropped {V} (st : Cache.state V) now now' key value type :
  synced st →
  st.(Cache.config).(Cache.enabled) = true → key ≠ EmptyString →
  now ≠ 0 → st.(Cache.config).(Cache.ttl) < now' - now →
  let out := Cache.getCache now' key type (Cache.setCache now key value type st) in
  out.1 = None ∧
  JsMap.has (Cache.cache_of type out.2) key = false ∧
  JsMap.get out.2.(Cache.timestamps) (Cache.timestampKey_of type key) = None ∧
  ∀ later, Cache.getCache later key type out.2 = (None, out.2).
Proof.
  intros Hst Hon Hkey Hnow Hlate.
  pose proof (setCache_synced now key value type st Hst) as Hst2.
  destruct (setCache_stored now key value type st Hon Hkey) as (st1 & Hset & Hconfig).
  rewrite Hset in Hst2 |- *. set (st2 := Cache.with_cache _ _ _ _) in *.
  assert (Hout : Cache.getCache now' key type st2
                 = (None, Cache.with_cache type (JsMap.delete (Cache.cache_of type st2) key)
                            (JsMap.delete st2.(Cache.timestamps)
                                          (Cache.timestampKey_of type key)) st2)).
  { unfold Cache.getCache.
    assert (Hc : Cache.config st2 = Cache.config st) by (unfold st2; by rewrite config_with_cache).
    assert (Hm : JsMap.get (Cache.cache_of type st2) key = Some value).
    { unfold st2. by rewrite cache_of_with_cache, jsmap_get_set_eq. }
    assert (Ht : JsMap.get (Cache.timestamps st2) (Cache.timestampKey_of type key) = Some now).
    { unfold st2. by rewrite timestamps_with_cache, jsmap_get_set_eq. }
    apply truthy_string_ne in Hkey as Htruthy.
    unfold JsMap.has. rewrite Hc, Hon, Htruthy, Hm, Ht. cbn [negb orb].
    assert (Hexp : negb (now =? 0) && (Cache.ttl (Cache.config st) <? now' - now) = true).
    { apply andb_true_iff. split; [apply negb_true_iff, Z.eqb_neq; done|].
      by apply Z.ltb_lt. }
    by rewrite Hexp. }
  cbv zeta. rewrite Hout. cbn [fst snd].
  destruct Hst2 as (Hnd & Hndc & _).
  assert (Hgone : JsMap.get (JsMap.delete (Cache.cache_of type st2) key) key = None).
  { apply jsmap_get_None. rewrite jsmap_keys_delete by apply Hndc. by intros [? _]. }
  assert (Hhas : JsMap.has (Cache.cache_of type
                   (Cache.with_cache type (JsMap.delete (Cache.cache_of type st2) key)
                      (JsMap.delete st2.(Cache.timestamps)
                                    (Cache.timestampKey_of type key)) st2)) key = false).
  { rewrite cache_of_with_cache. unfold JsMap.has. by rewrite Hgone. }
  split; [done|]. split; [exact Hhas|]. split.
  - rewrite timestamps_with_cache. apply jsmap_get_None.
    rewrite jsmap_keys_delete by done. by intros [? _].
  - intros later. unfold Cache.getCache. rewrite Hhas. cbn [negb].
    by rewrite !orb_true_r.
Qed.

Lemma expired_entry_is_dropped_witness :
  (Cache.getCache 300011 "a" Cache.processed
     (Cache.setCache 10 "a" 7%nat Cache.processed Cache.initial)).1 = None ∧
  JsMap.has (Cache.cache_of Cache.processed
               (Cache.getCache 300011 "a" Cache.processed
                  (Cache.setCache 10 "a" 7%nat Cache.processed Cache.initial)).2) "a"
  = false ∧
  JsMap.get (Cache.getCache 300011 "a" Cache.processed
               (Cache.setCache 10 "a" 7%nat Cache.processed Cache.initial)).2
              .(Cache.timestamps)
            (Cache.timestampKey_of Cache.processed "a") = None ∧
  ∀ later,
    Cache.getCache later "a" Cache.processed
      (Cache.getCache 300011 "a" Cache.processed
         (Cache.setCache 10 "a" 7%nat Cache.processed Cache.initial)).2
    = (None, (Cache.getCache 300011 "a" Cache.processed
                (Cache.setCache 10 "a" 7%nat Cache.processed Cache.initial)).2).
Proof.
  apply (expired_entry_is_dropped Cache.initial 10 300011 "a" 7%nat Cache.processed).
  - apply synced_initial.
  - reflexivity.
  - discriminate.
  - discriminate.
  - vm_compute. reflexivity.
Defined.

(** X8. The cache never outgrows [maxSize]: on a cache in step whose map
    of the given type holds at most [maxSize] entries, with [maxSize] at
    least 1, [setCache] leaves at most [maxSize] entries in that map, and
    the other maps as they were. *)
Theorem cache_size_is_bounded {V} (st : Cache.state V) now key value type :
  synced st →
  0 < st.(Cache.config).(Cache.maxSize) →
  JsMap.size (Cache.cache_of type st) ≤ st.(Cache.config).(Cache.maxSize) →
  let st' := Cache.setCache now key value type st in
  JsMap.size (Cache.cache_of type st') ≤ st'.(Cache.config).(Cache.maxSize) ∧
  st'.(Cache.config) = st.(Cache.config) ∧
  ∀ type', type' ≠ type → Cache.cache_of type' st' = Cache.cache_of type' st.
Proof.
  intros Hst Hmax Hsize. cbv zeta.
  destruct (Cache.enabled (Cache.config st)) eqn:Hon.
  2: { unfold Cache.setCache. rewrite Hon. cbn [negb orb]. by repeat split. }
  destruct (decide (key = EmptyString)) as [->|Hkey].
  { unfold Cache.setCache. rewrite Hon. cbn. by repeat split. }
  destruct (decide (JsMap.size (Cache.cache_of type st) < Cache.maxSize (Cache.config st)))
    as [Hroom|Hfull].
  - rewrite setCache_room by done.
    rewrite config_with_cache, cache_of_with_cache.
    split; [|split; [done|]].
    + pose proof (jsmap_size_set_le (Cache.cache_of type st) key value). lia.
    + intros type' Hother. by apply cache_of_with_cache_ne.
  - assert (Hnonempty : 0 < JsMap.size (Cache.cache_of type st)) by lia.
    apply jsmap_nonempty_key in Hnonempty as [key0 Hkey0].
    destruct (getOldestCacheKey_oldest type st key0 Hst Hkey0)
      as (oldest & tmin & Holdest & Hin & _).
    assert (Hne : oldest ≠ EmptyString).
    { destruct Hst as (_ & _ & _ & Hne). by apply (Hne type). }
    rewrite (setCache_full now key value type st oldest) by (done || lia).
    rewrite !config_with_cache, cache_of_with_cache.
    split; [|split; [done|]].
    + pose proof (jsmap_size_set_le (JsMap.delete (Cache.cache_of type st) oldest) key value).
      pose proof (jsmap_size_delete (Cache.cache_of type st) oldest Hin). lia.
    + intros type' Hother. by rewrite !cache_of_with_cache_ne.
Qed.

Lemma cache_size_is_bounded_witness :
  JsMap.size (Cache.cache_of Cache.processed
                (Cache.setCache 12 "c" 3%nat Cache.processed two_entries))
  ≤ (Cache.setCache 12 "c" 3%nat Cache.processed two_entries).(Cache.config).(Cache.maxSize) ∧
  (Cache.setCache 12 "c" 3%nat Cache.processed two_entries).(Cache.config)
  = two_entries.(Cache.config) ∧
  ∀ type', type' ≠ Cache.processed →
           Cache.cache_of type' (Cache.setCache 12 "c" 3%nat Cache.processed two_entries)
           = Cache.cache_of type' two_entries.
Proof.
  apply (cache_size_is_bounded two_entries 12 "c" 3%nat Cache.processed).
  - apply setCache_synced, setCache_synced, synced_configure, synced_initial.
  - reflexivity.
  - vm_compute. discriminate.
Defined.

Lemma jsmap_get_filter_prefix {V} prefix_ (m : list (string * V)) k :
  String.prefix prefix_ k = false →
  JsMap.get (filter (λ e, String.prefix prefix_ e.1 = false) m) k = JsMap.get m k.
Proof.
  intros Hk. induction m as [|[k0 v0] m IH]; [done|].
  rewrite filter_cons. cbn [fst JsMap.get].
  destruct (decide (String.prefix prefix_ k0 = false)) as [Hk0|Hk0]; cbn [JsMap.get].
  - destruct (decide (k0 = k)); [done|apply IH].
  - destruct (decide (k0 = k)) as [->|_]; [done|apply IH].
Qed.

(** X9. [clearCache(type)] forgets one type and no other: afterwards a
    read of any key of the cleared type misses and changes nothing, while
    a read of a key of another type returns what it would have returned
    before the clearing; without a type everything is forgotten. *)
Theorem clearCache_forgets_one_type {V} (st : Cache.state V) now key type :
  Cache.getCache now key type (Cache.clearCache (Some type) st)
  = (None, Cache.clearCache (Some type) st) ∧
  (∀ type', type' ≠ type →
     (Cache.getCache now key type' (Cache.clearCache (Some type) st)).1
     = (Cache.getCache now key type' st).1) ∧
  (∀ type', Cache.getCache now key type' (Cache.clearCache None st)
            = (None, Cache.clearCache None st)).
Proof.
  split; [|split].
  - unfold Cache.getCache, Cache.clearCache. rewrite cache_of_with_cache.
    cbn [JsMap.has JsMap.get negb]. by rewrite orb_true_r.
  - intros type' Hother. unfold Cache.getCache, Cache.clearCache.
    rewrite !config_with_cache, !timestamps_with_cache.
    rewrite !(cache_of_with_cache_ne type type') by done.
    rewrite jsmap_get_filter_prefix.
    2: { destruct (String.prefix _ _) eqn:Hp; [|done].
         by apply timestampKey_other_prefix in Hp. }
    destruct (negb _ || negb _ || negb _); [done|]. cbv zeta.
    destruct (match JsMap.get _ _ with Some t => _ | None => false end); [done|].
    cbn [fst]. by rewrite !cache_of_with_cache.
  - intros type'. unfold Cache.getCache, Cache.clearCache.
    assert (Hempty : JsMap.has (Cache.cache_of type'
                       (Cache.mk_state (V := V) [] [] [] [] (Cache.config st)
                                       (Cache.cachedOperations st))) key = false)
      by (by destruct type').
    rewrite Hempty. cbn [negb]. by rewrite orb_true_r.
Qed.

(** ** Contrast, white balance and the worker's adjustments *)

Lemma get_set_ne (a : list Z) i j x : i ≠ j → get (set a i x) j = get a j.
Proof. intros Hne. unfold get. by rewrite set_lookup_ne. Qed.

Lemma foldl_ext_in {A B} (f g : A → B → A) (l : list B) a :
  (∀ a b, b ∈ l → f a b = g a b) → foldl f a l = foldl g a l.
Proof.
  revert a. induction l as [|b l IH]; intros a Hfg; [done|]. cbn [foldl].
  rewrite Hfg by (by left). apply IH. intros a' b' Hb'. apply Hfg. by right.
Qed.

Lemma pixel_loop_ext body1 body2 data :
  (∀ rgb, body1 rgb = body2 rgb) → Color.pixel_loop body1 data = Color.pixel_loop body2 data.
Proof.
  intros Hbody. unfold Color.pixel_loop. apply foldl_ext_in.
  intros a k _. cbv zeta. by rewrite Hbody.
Qed.

(** [applyContrast] is the pixel loop of the grading pass run with the
    contrast stage alone. *)
Lemma applyContrast_pixel_loop rgbaData contrast :
  Color.applyContrast rgbaData contrast
  = Color.pixel_loop
      (λ '(r, g, b),
         let factor := ((259 * (contrast + 255)) / (255 * (259 - contrast)))%float in
         (Math_min 255 (Math_max 0 (factor * (r - 128) + 128)),
          Math_min 255 (Math_max 0 (factor * (g - 128) + 128)),
          Math_min 255 (Math_max 0 (factor * (b - 128) + 128)))%float)
      rgbaData.
Proof.
  unfold Color.applyContrast, Color.pixel_loop. apply foldl_ext_in.
  intros a k _. cbv zeta. unfold Color.write_rgb.
  rewrite get_set_ne by lia. rewrite !get_set_ne by lia. reflexivity.
Qed.

(** A body that sends the octets of every pixel to values stored as the
    same octets leaves a buffer of whole pixels as it was. *)
Lemma pixel_loop_fixed body data n :
  Forall octet data → length data = (4 * n)%nat →
  (∀ r g b, octet r → octet g → octet b →
     ToUint8Clamp (body (of_Z r, of_Z g, of_Z b)).1.1 = r ∧
     ToUint8Clamp (body (of_Z r, of_Z g, of_Z b)).1.2 = g ∧
     ToUint8Clamp (body (of_Z r, of_Z g, of_Z b)).2 = b) →
  Color.pixel_loop body data = data.
Proof.
  intros Hdata Hlen Hbody. unfold Color.pixel_loop.
  replace ((length data + 3) / 4)%nat with n
    by (rewrite Hlen; apply Nat.div_unique with 3%nat; lia).
  assert (Hks : Forall (λ k, (k < n)%nat) (seq 0 n)).
  { apply Forall_forall. intros k Hk%elem_of_seq. lia. }
  revert Hks. generalize (seq 0 n) as ks. induction ks as [|k ks IH]; intros Hks; [done|].
  apply Forall_cons in Hks as [Hk Hks]. cbn [foldl]. cbv zeta.
  assert (Hstep : Color.write_rgb data (4 * k)
                    (body (get data (4 * k), get data (4 * k + 1), get data (4 * k + 2)))
                  = data); [|by rewrite Hstep; apply IH].
  destruct (lookup_lt_is_Some_2 data (4 * k)) as [r Hr]; [lia|].
  destruct (lookup_lt_is_Some_2 data (4 * k + 1)) as [g Hg]; [lia|].
  destruct (lookup_lt_is_Some_2 data (4 * k + 2)) as [b Hb]; [lia|].
  rewrite (get_lookup _ _ _ Hr), (get_lookup _ _ _ Hg), (get_lookup _ _ _ Hb).
  rewrite Forall_lookup in Hdata.
  destruct (Hbody r g b (Hdata _ _ Hr) (Hdata _ _ Hg) (Hdata _ _ Hb)) as (Hr' & Hg' & Hb').
  destruct (body _) as [[r' g'] b']. cbn [fst snd] in *.
  unfold Color.write_rgb, set. rewrite Hr', Hg', Hb'.
  rewrite (list_insert_id data (4 * k) r Hr).
  rewrite (list_insert_id data (4 * k + 1) g Hg).
  by rewrite (list_insert_id data (4 * k + 2) b Hb).
Qed.

(** X10. The grading pass with the contrast slider at work and every
    other stage at its identity value does to the buffer exactly what
    [applyContrast] does with the same contrast: the two implementations
    of the contrast curve agree on every buffer. *)
Theorem contrast_stage_is_applyContrast Math_pow data width height settings dom :
  only_contrast settings dom →
  Color.applyColorAdjustments Math_pow data width height settings dom
  = Color.applyContrast data dom.(Color.contrastSlider).
Proof.
  intros (Hb & Hc & Hs & Htemp & Htint & He & Hsh & Hh & Hw & Hmul).
  rewrite applyContrast_pixel_loop.
  unfold Color.applyColorAdjustments.
  rewrite Hb, Hs, Htemp, Htint, He, Hsh, Hh, Hw, Hmul. cbv zeta. rewrite Hc.
  match goal with
  | |- (if ?c then _ else _) = _ => replace c with false by reflexivity
  end.
  apply pixel_loop_ext. intros [[r g] b]. reflexivity.
Qed.

Lemma contrast_stage_is_applyContrast_witness :
  Color.applyColorAdjustments (λ x _, x) two_pixels 2 1
    Color.identity_settings (Color.mk_sliders 50 100 0 0 100 None None)
  = Color.applyContrast two_pixels 50.
Proof.
  apply (contrast_stage_is_applyContrast (λ x _, x) two_pixels 2 1
           Color.identity_settings (Color.mk_sliders 50 100 0 0 100 None None)).
  repeat split; reflexivity.
Defined.

(** X11. Contrast 0 changes nothing: [applyContrast] with contrast 0
    returns a buffer of whole RGBA pixels as it was given. *)
Theorem applyContrast_zero_is_identity data n :
  Forall octet data → length data = (4 * n)%nat →
  Color.applyContrast data 0 = data.
Proof.
  intros Hdata Hlen. rewrite applyContrast_pixel_loop.
  apply (pixel_loop_fixed _ data n Hdata Hlen).
  assert (Hchannel : ∀ v, octet v →
            ToUint8Clamp (Math_min 255 (Math_max 0
              ((259 * (0 + 255)) / (255 * (259 - 0)) * (of_Z v - 128) + 128)))%float = v).
  { intros v Hv.
    apply (octets_forall (λ v, ToUint8Clamp (Math_min 255 (Math_max 0
              ((259 * (0 + 255)) / (255 * (259 - 0)) * (of_Z v - 128) + 128)))%float
            =? v)) in Hv.
    - by apply Z.eqb_eq.
    - vm_compute. reflexivity. }
  intros r g b Hr Hg Hb. cbn [fst snd]. cbv zeta.
  by rewrite !Hchannel.
Qed.

Lemma applyContrast_zero_is_identity_witness :
  Color.applyContrast two_pixels 0 = two_pixels.
Proof.
  apply (applyContrast_zero_is_identity two_pixels 2).
  - repeat constructor; unfold octet; lia.
  - reflexivity.
Defined.

(** X12. Neutral tints are neutral: after
    [updateWhiteBalanceCoefficients] with the three tint sliders at 0 the
    multipliers are all 1, and the grading pass, with every other stage
    at its identity value, hands back a buffer of whole RGBA pixels
    unchanged. *)
Theorem neutral_white_balance_is_identity Math_pow data n width height settings dom :
  Color.at_identity settings dom →
  Forall octet data → length data = (4 * n)%nat →
  (Color.updateWhiteBalanceCoefficients settings neutral_tints).(Color.user_mul)
  = Some [1; 1; 1; 1]%float ∧
  Color.applyColorAdjustments Math_pow data width height
    (Color.updateWhiteBalanceCoefficients settings neutral_tints) dom
  = data.
Proof.
  intros (Hb & Hc & Hs & Htemp & Htint & He & Hsh & Hh & Hw & Hmul) Hdata Hlen.
  split; [reflexivity|].
  unfold Color.applyColorAdjustments, Color.updateWhiteBalanceCoefficients.
  cbn [Color.bright Color.exp_shift Color.shadows Color.highlights Color.whites
       Color.user_mul].
  rewrite Hb, Hc, Hs, Htemp, Htint, He, Hsh, Hh, Hw. cbv zeta.
  match goal with
  | |- (if ?c then _ else _) = _ => replace c with false by reflexivity
  end.
  rewrite (pixel_loop_ext _
             (λ '(r, g, b), (Math_min 255 (Math_max 0 (r * 1)),
                             Math_min 255 (Math_max 0 (g * 1)),
                             Math_min 255 (Math_max 0 (b * 1)))%float)).
  2: { intros [[r g] b]. reflexivity. }
  apply (pixel_loop_fixed _ data n Hdata Hlen).
  assert (Hchannel : ∀ v, octet v →
            ToUint8Clamp (Math_min 255 (Math_max 0 (of_Z v * 1)))%float = v).
  { intros v Hv.
    apply (octets_forall (λ v, ToUint8Clamp (Math_min 255 (Math_max 0 (of_Z v * 1)))%float
                               =? v)) in Hv.
    - by apply Z.eqb_eq.
    - vm_compute. reflexivity. }
  intros r g b Hvr Hvg Hvb. cbn [fst snd].
  by rewrite !Hchannel.
Qed.

Lemma neutral_white_balance_is_identity_witness :
  (Color.updateWhiteBalanceCoefficients Color.identity_settings neutral_tints)
    .(Color.user_mul) = Some [1; 1; 1; 1]%float ∧
  Color.applyColorAdjustments (λ x _, x) two_pixels 2 1
    (Color.updateWhiteBalanceCoefficients Color.identity_settings neutral_tints)
    Color.identity_sliders
  = two_pixels.
Proof.
  apply (neutral_white_balance_is_identity (λ x _, x) two_pixels 2 2 1
           Color.identity_settings Color.identity_sliders).
  - repeat split; reflexivity.
  - repeat constructor; unfold octet; lia.
  - reflexivity.
Defined.

(** ** The worker's colour adjustments *)

(** [adjustPixelColor] stores three rounded channel values and the alpha
    it read. *)
Lemma adjustPixelColor_shape Math_pow imageData index params :
  ∃ r g b,
    Worker.adjustPixelColor Math_pow imageData index params
    = set (set (set (set imageData index (Math_round r)) (index + 1) (Math_round g))
               (index + 2) (Math_round b))
          (index + 3) (get imageData (index + 3)).
Proof.
  unfold Worker.adjustPixelColor. cbv zeta.
  repeat match goal with
         | |- context [match ?e with (_, _) => _ end] => destruct e
         end.
  by eexists _, _, _.
Qed.

Lemma adjustPixelColor_keeps Math_pow imageData k params :
  Forall octet imageData →
  let out := Worker.adjustPixelColor Math_pow imageData (4 * k) params in
  length out = length imageData ∧ Forall octet out ∧
  ∀ j, (j `mod` 4 = 3)%nat → out !! j = imageData !! j.
Proof.
  intros Hdata. cbv zeta.
  destruct (adjustPixelColor_shape Math_pow imageData (4 * k) params) as (r & g & b & ->).
  split; [by rewrite !set_length|]. split; [by repeat apply set_octets|].
  intros j Hj. destruct (alpha_offset j Hj) as [q ->].
  destruct (decide (q = k)) as [->|Hne].
  - rewrite set_get_same; [done|done|]. by rewrite !set_length.
  - rewrite !set_lookup_ne by lia. done.
Qed.

Lemma applyColorAdjustments_worker_fold Math_pow params imageData ks result :
  Forall octet imageData →
  length result = length imageData → Forall octet result →
  (∀ j, (j `mod` 4 = 3)%nat → result !! j = imageData !! j) →
  let out := foldl (λ result k, Worker.adjustPixelColor Math_pow result (4 * k) params)
                   result ks in
  length out = length imageData ∧ Forall octet out ∧
  ∀ j, (j `mod` 4 = 3)%nat → out !! j = imageData !! j.
Proof.
  intros Hdata. revert result. induction ks as [|k ks IH]; intros result Hlen Hoct Halpha.
  { done. }
  cbn [foldl]. cbv zeta.
  destruct (adjustPixelColor_keeps Math_pow result k params Hoct) as (Hlen' & Hoct' & Halpha').
  apply IH.
  - congruence.
  - done.
  - intros j Hj. rewrite Halpha' by done. by apply Halpha.
Qed.

(** X13. Whatever its parameters, the worker's [applyColorAdjustments]
    posts a buffer of the length of its input in which every byte is an
    octet and every alpha byte is the one of the input. *)
Theorem worker_adjustments_keep_alpha Math_pow imageData width height params :
  Forall octet imageData →
  let out := Worker.applyColorAdjustments Math_pow imageData width height params in
  length out = length imageData ∧ Forall octet out ∧
  ∀ j, (j `mod` 4 = 3)%nat → out !! j = imageData !! j.
Proof.
  intros Hdata. unfold Worker.applyColorAdjustments. cbv zeta.
  by apply (applyColorAdjustments_worker_fold Math_pow params imageData).
Qed.

Lemma worker_adjustments_keep_alpha_witness :
  length (Worker.applyColorAdjustments (λ x _, x) two_pixels 2 1
            (Worker.mk_params (Some 10%float) (Some 20%float) (Some 30%float)
                              (Some 40%float) None (Some 10%float) (Some 10%float)))
  = length two_pixels ∧
  Forall octet (Worker.applyColorAdjustments (λ x _, x) two_pixels 2 1
                  (Worker.mk_params (Some 10%float) (Some 20%float) (Some 30%float)
                                    (Some 40%float) None (Some 10%float) (Some 10%float))) ∧
  ∀ j, (j `mod` 4 = 3)%nat →
       Worker.applyColorAdjustments (λ x _, x) two_pixels 2 1
         (Worker.mk_params (Some 10%float) (Some 20%float) (Some 30%float)
                           (Some 40%float) None (Some 10%float) (Some 10%float)) !! j
       = two_pixels !! j.
Proof.
  apply (worker_adjustments_keep_alpha (λ x _, x) two_pixels 2 1).
  repeat constructor; unfold octet; lia.
Defined.

(** With nothing asked for, a pixel goes through the shadow and highlight
    stages only, then is rounded and stored. *)
Lemma adjustPixelColor_neutral_channels Math_pow imageData index params :
  Worker.when_truthy params.(Worker.brightness) = None →
  Worker.when_truthy params.(Worker.contrast) = None →
  Worker.when_truthy params.(Worker.saturation) = None →
  Worker.when_truthy params.(Worker.temperature) = None →
  Worker.when_truthy params.(Worker.exposure) = None →
  let stage v :=
    let v :=
      match params.(Worker.shadows) with
      | Some shadows => (if v <? 128 then Math_min 128 (v * (1 + shadows / 100)) else v)%float
      | None => v
      end in
    match params.(Worker.highlights) with
    | Some highlights =>
        (if 128 <? v then Math_max 128 (255 - (255 - v) * (1 - highlights / 100)) else v)%float
    | None => v
    end in
  Worker.adjustPixelColor Math_pow imageData index params
  = set (set (set (set imageData index (Math_round (stage (get imageData index))))
                  (index + 1) (Math_round (stage (get imageData (index + 1)))))
             (index + 2) (Math_round (stage (get imageData (index + 2)))))
        (index + 3) (get imageData (index + 3)).
Proof.
  intros Hb Hc Hs Ht He. unfold Worker.adjustPixelColor. rewrite Hb, Hc, Hs, Ht, He.
  by destruct (Worker.shadows params), (Worker.highlights params).
Qed.

Lemma neutral_channel shadows highlights v :
  shadows = None ∨ shadows = Some 0%float →
  highlights = None ∨ highlights = Some 0%float →
  octet v →
  ToUint8Clamp
    (Math_round
       (let v :=
          match shadows with
          | Some shadows =>
              (if of_Z v <? 128 then Math_min 128 (of_Z v * (1 + shadows / 100))
               else of_Z v)%float
          | None => of_Z v
          end in
        match highlights with
        | Some highlights =>
            (if 128 <? v then Math_max 128 (255 - (255 - v) * (1 - highlights / 100))
             else v)%float
        | None => v
        end)) = v.
Proof.
  intros Hsh Hhl Hv.
  assert (Hall : ∀ sh hl : bool,
            forallb (λ v,
              ToUint8Clamp
                (Math_round
                   (let v :=
                      if sh
                      then (if of_Z v <? 128 then Math_min 128 (of_Z v * (1 + 0 / 100))
                            else of_Z v)%float
                      else of_Z v in
                    if hl
                    then (if 128 <? v then Math_max 128 (255 - (255 - v) * (1 - 0 / 100))
                          else v)%float
                    else v)) =? v) octets = true).
  { intros [] []; vm_compute; reflexivity. }
  destruct Hsh as [->| ->], Hhl as [->| ->].
  - apply Z.eqb_eq. exact (octets_forall _ (Hall false false) v Hv).
  - apply Z.eqb_eq. exact (octets_forall _ (Hall false true) v Hv).
  - apply Z.eqb_eq. exact (octets_forall _ (Hall true false) v Hv).
  - apply Z.eqb_eq. exact (octets_forall _ (Hall true true) v Hv).
Qed.

(** X14. Neutral parameters are neutral in the worker too: with
    brightness, contrast, saturation, temperature and exposure missing or
    0, and shadows and highlights missing or 0, the worker's
    [applyColorAdjustments] posts a copy of a buffer of whole RGBA pixels
    that equals its input. *)
Theorem worker_neutral_adjustments_are_identity Math_pow imageData n width height params :
  neutral_params params →
  Forall octet imageData → length imageData = (4 * n)%nat →
  Worker.applyColorAdjustments Math_pow imageData width height params = imageData.
Proof.
  intros (Hb & Hc & Hs & Ht & He & Hsh & Hhl) Hdata Hlen.
  unfold Worker.applyColorAdjustments. cbv zeta.
  replace ((length imageData + 3) / 4)%nat with n
    by (rewrite Hlen; apply Nat.div_unique with 3%nat; lia).
  assert (Hks : Forall (λ k, (k < n)%nat) (seq 0 n)).
  { apply Forall_forall. intros k Hk%elem_of_seq. lia. }
  revert Hks. generalize (seq 0 n) as ks. induction ks as [|k ks IH]; intros Hks; [done|].
  apply Forall_cons in Hks as [Hk Hks]. cbn [foldl].
  assert (Hstep : Worker.adjustPixelColor Math_pow imageData (4 * k) params = imageData);
    [|by rewrite Hstep; apply IH].
  rewrite adjustPixelColor_neutral_channels by done. cbv beta zeta.
  destruct (lookup_lt_is_Some_2 imageData (4 * k)) as [r Hr]; [lia|].
  destruct (lookup_lt_is_Some_2 imageData (4 * k + 1)) as [g Hg]; [lia|].
  destruct (lookup_lt_is_Some_2 imageData (4 * k + 2)) as [b Hvb]; [lia|].
  destruct (lookup_lt_is_Some_2 imageData (4 * k + 3)) as [a Ha]; [lia|].
  rewrite (get_lookup _ _ _ Hr), (get_lookup _ _ _ Hg), (get_lookup _ _ _ Hvb),
          (get_lookup _ _ _ Ha).
  rewrite Forall_lookup in Hdata.
  pose proof (neutral_channel _ _ r Hsh Hhl (Hdata _ _ Hr)) as Hr'.
  pose proof (neutral_channel _ _ g Hsh Hhl (Hdata _ _ Hg)) as Hg'.
  pose proof (neutral_channel _ _ b Hsh Hhl (Hdata _ _ Hvb)) as Hb'.
  cbv beta zeta in Hr', Hg', Hb'.
  unfold set. rewrite Hr', Hg', Hb'.
  rewrite (ToUint8Clamp_of_octet a (Hdata _ _ Ha)).
  rewrite (list_insert_id imageData (4 * k) r Hr).
  rewrite (list_insert_id imageData (4 * k + 1) g Hg).
  rewrite (list_insert_id imageData (4 * k + 2) b Hvb).
  by rewrite (list_insert_id imageData (4 * k + 3) a Ha).
Qed.

Lemma worker_neutral_adjustments_are_identity_witness :
  Worker.applyColorAdjustments (λ x _, x) two_pixels 2 1
    (Worker.mk_params (Some 0%float) None (Some 0%float) None None (Some 0%float) None)
  = two_pixels.
Proof.
  apply (worker_neutral_adjustments_are_identity (λ x _, x) two_pixels 2 2 1).
  - repeat split; try reflexivity; by (left + right).
  - repeat constructor; unfold octet; lia.
  - reflexivity.
Defined.

(** ** Colours, the scan and the history *)

Lemma band_255_octet x : octet (band x 255).
Proof.
  unfold band, octet.
  assert (H255 : wrap32 255 = Z.ones 8) by reflexivity.
  rewrite H255. rewrite Z.land_ones by lia.
  pose proof (Z.mod_pos_bound (wrap32 x) (2 ^ 8) eq_refl) as Hmod.
  set (w := wrap32 x `mod` 2 ^ 8) in *. change (2 ^ 8) with 256 in Hmod.
  unfold wrap32. change (2 ^ 32) with 4294967296. change (2 ^ 31) with 2147483648.
  assert (Hsmall : w `mod` 4294967296 = w) by (apply Z.mod_small; lia).
  rewrite Hsmall.
  destruct (2147483648 <=? w) eqn:Hbig; [apply Z.leb_le in Hbig|]; lia.
Qed.

(** X15. [hexToRgb] always yields a colour: whatever the string, its
    three channels are (the Number values of) octets; and a string that
    [parseInt] cannot read, which makes NaN, gives black. *)
Theorem hexToRgb_yields_octets hex :
  (∃ r g b, octet r ∧ octet g ∧ octet b ∧ ColorReplace.hexToRgb hex = octet_color r g b) ∧
  (is_nan (ColorReplace.parseInt16 hex) = true →
   ColorReplace.hexToRgb (String "#" hex) = octet_color 0 0 0).
Proof.
  split.
  - unfold ColorReplace.hexToRgb, octet_color. cbv zeta.
    eexists _, _, _. split; [|split; [|split; [|reflexivity]]]; apply band_255_octet.
  - intros Hnan. unfold ColorReplace.hexToRgb. cbv beta iota zeta.
    assert (Hint : ToInt32 (ColorReplace.parseInt16 hex) = 0).
    { unfold ToInt32, truncZ, finite_parts. by rewrite Hnan. }
    rewrite Hint. reflexivity.
Qed.

Lemma hexToRgb_yields_octets_witness :
  is_nan (ColorReplace.parseInt16 "zebra") = true ∧
  ColorReplace.hexToRgb "#zebra" = octet_color 0 0 0.
Proof.
  split; [reflexivity|].
  apply (proj2 (hexToRgb_yields_octets "zebra")). reflexivity.
Defined.

(** X16. The two range tests agree: [isColorInRange], which works the
    vector of the range and its squared length out for itself, answers
    for every pixel, range and tolerance what [isColorInRangeOptimized]
    answers when [findColorsInRange] hands it the values worked out once
    per scan. *)
Theorem isColorInRange_agrees_with_optimized pixelRgb startRgb endRgb tolerance :
  ColorReplace.isColorInRange pixelRgb startRgb endRgb tolerance
  = ColorReplace.isColorInRangeOptimized pixelRgb startRgb endRgb
      (ColorReplace.startToEnd_of startRgb endRgb)
      (ColorReplace.lengthSquared (ColorReplace.startToEnd_of startRgb endRgb))
      (strict_eq (ColorReplace.lengthSquared (ColorReplace.startToEnd_of startRgb endRgb)) 0)
      tolerance.
Proof.
  unfold ColorReplace.isColorInRange, ColorReplace.isColorInRangeOptimized.
  unfold ColorReplace.lengthSquared, ColorReplace.startToEnd_of.
  cbn [ColorReplace.r ColorReplace.g ColorReplace.b]. cbv zeta.
  destruct (strict_eq _ 0); reflexivity.
Qed.

(** The blend of two octets at the ends of the scale. *)
Lemma blend_endpoints a b :
  octet a → octet b →
  Math_round (of_Z a + (of_Z b - of_Z a) * 0)%float = of_Z a ∧
  Math_round (of_Z a + (of_Z b - of_Z a) * 1)%float = of_Z b.
Proof.
  intros Ha Hb.
  assert (H : forallb (λ a, forallb (λ b,
                PrimFloat.Leibniz.eqb (Math_round (of_Z a + (of_Z b - of_Z a) * 0)%float)
                                      (of_Z a) &&
                PrimFloat.Leibniz.eqb (Math_round (of_Z a + (of_Z b - of_Z a) * 1)%float)
                                      (of_Z b)) octets) octets = true)
    by (vm_compute; reflexivity).
  rewrite forallb_forall in H. specialize (H a (octet_in_octets a Ha)).
  rewrite forallb_forall in H. specialize (H b (octet_in_octets b Hb)).
  apply andb_prop in H as [H0 H1].
  split; by apply FloatAxioms.Leibniz.eqb_spec.
Qed.

(** X17. The ends of a blend are the colours blended: for colours with
    octet channels, [mixColors] and [interpolateColor] at ratio 0 return
    the first colour and at ratio 1 the second, exactly. *)
Theorem blend_ratio_0_and_1 r1 g1 b1 r2 g2 b2 :
  octet r1 → octet g1 → octet b1 → octet r2 → octet g2 → octet b2 →
  ColorReplace.mixColors (octet_color r1 g1 b1) (octet_color r2 g2 b2) 0
  = octet_color r1 g1 b1 ∧
  ColorReplace.mixColors (octet_color r1 g1 b1) (octet_color r2 g2 b2) 1
  = octet_color r2 g2 b2 ∧
  ColorReplace.interpolateColor (octet_color r1 g1 b1) (octet_color r2 g2 b2) 0
  = octet_color r1 g1 b1 ∧
  ColorReplace.interpolateColor (octet_color r1 g1 b1) (octet_color r2 g2 b2) 1
  = octet_color r2 g2 b2.
Proof.
  intros Hr1 Hg1 Hb1 Hr2 Hg2 Hb2.
  destruct (blend_endpoints r1 r2 Hr1 Hr2) as [Hr0 Hr].
  destruct (blend_endpoints g1 g2 Hg1 Hg2) as [Hg0 Hg].
  destruct (blend_endpoints b1 b2 Hb1 Hb2) as [Hb0 Hb].
  unfold ColorReplace.mixColors, ColorReplace.interpolateColor, octet_color.
  cbn [ColorReplace.r ColorReplace.g ColorReplace.b].
  rewrite Hr0, Hg0, Hb0, Hr, Hg, Hb. done.
Qed.

Lemma blend_ratio_0_and_1_witness :
  ColorReplace.mixColors (octet_color 255 0 10) (octet_color 0 255 200) 0
  = octet_color 255 0 10 ∧
  ColorReplace.mixColors (octet_color 255 0 10) (octet_color 0 255 200) 1
  = octet_color 0 255 200 ∧
  ColorReplace.interpolateColor (octet_color 255 0 10) (octet_color 0 255 200) 0
  = octet_color 255 0 10 ∧
  ColorReplace.interpolateColor (octet_color 255 0 10) (octet_color 0 255 200) 1
  = octet_color 0 255 200.
Proof.
  apply (blend_ratio_0_and_1 255 0 10 0 255 200); unfold octet; lia.
Defined.

Lemma delete_last {A} (l : list A) x : delete (length l) (l ++ [x]) = l.
Proof. induction l as [|y l IH]; [done|]. cbn. f_equal. exact IH. Qed.

(** X18. Deleting the last entry of the history is undoing it: when the
    user confirms, [deleteColorReplace] called with the index of the last
    entry leaves the page exactly as [undoLastColorReplace] does, and
    throws where it throws. *)
Theorem delete_last_is_undo p history entry :
  p.(ColorReplace.colorReplaceHistory) = history ++ [entry] →
  ColorReplace.deleteColorReplace true (length history) p
  = ColorReplace.undoLastColorReplace p.
Proof.
  intros Hhistory.
  unfold ColorReplace.deleteColorReplace, ColorReplace.undoLastColorReplace.
  rewrite Hhistory, last_snoc, lookup_app_r, Nat.sub_diag by lia. cbn [lookup list_lookup].
  destruct entry as [record|]; [|done].
  by rewrite delete_last, removelast_last.
Qed.

Lemma delete_last_is_undo_witness :
  ColorReplace.deleteColorReplace true 0 (ColorReplace.applyColorReplaceEffect 1 red_green).1
  = ColorReplace.undoLastColorReplace (ColorReplace.applyColorReplaceEffect 1 red_green).1.
Proof.
  eapply (delete_last_is_undo (ColorReplace.applyColorReplaceEffect 1 red_green).1 []).
  vm_compute. reflexivity.
Defined.

Lemma record_position_recorded colorMap pixelHex pixelRgb pos :
  recorded_positions (ColorReplace.record_position colorMap pixelHex pixelRgb pos)
  ≡ₚ recorded_positions colorMap ++ [pos].
Proof.
  unfold recorded_positions.
  induction colorMap as [|c rest IH]; [done|]. cbn [ColorReplace.record_position].
  destruct (String.eqb _ _); cbn [flat_map ColorReplace.positions].
  - rewrite <- !app_assoc. apply Permutation_app_head, Permutation_app_comm.
  - rewrite IH. by rewrite app_assoc.
Qed.

Lemma pixel_in_range_unfold pixelRgb startRgb endRgb tolerance :
  ColorReplace.pixel_in_range pixelRgb startRgb endRgb tolerance
  = ColorReplace.isColorInRangeOptimized pixelRgb startRgb endRgb
      (ColorReplace.startToEnd_of startRgb endRgb)
      (ColorReplace.lengthSquared (ColorReplace.startToEnd_of startRgb endRgb))
      (strict_eq (ColorReplace.lengthSquared (ColorReplace.startToEnd_of startRgb endRgb)) 0)
      tolerance.
Proof. unfold ColorReplace.pixel_in_range. reflexivity. Qed.

(** The scan records one position for each matching pixel it meets. *)
Lemma scan_recorded cv startColor endColor tolerance ks colorMap :
  let data := cv.(ColorReplace.pixels) in
  let startRgb := ColorReplace.hexToRgb startColor in
  let endRgb := ColorReplace.hexToRgb endColor in
  let startToEnd := ColorReplace.startToEnd_of startRgb endRgb in
  let startToEndLengthSquared := ColorReplace.lengthSquared startToEnd in
  let isSameColor := strict_eq startToEndLengthSquared 0 in
  recorded_positions
    (foldl (λ colorMap k,
              let i := (4 * k)%nat in
              let a := get data (i + 3) in
              if (0 <? a)%float then
                let pixelRgb :=
                  ColorReplace.mk_color (get data i) (get data (i + 1)) (get data (i + 2)) in
                let pixelHex :=
                  ColorReplace.rgbToHex (octet_at data i) (octet_at data (i + 1))
                                        (octet_at data (i + 2)) in
                if ColorReplace.isColorInRangeOptimized pixelRgb startRgb endRgb startToEnd
                     startToEndLengthSquared isSameColor (of_Z tolerance)
                then
                  let pixelIndex := k in
                  ColorReplace.record_position colorMap pixelHex pixelRgb
                    (ColorReplace.mk_position (pixelIndex `mod` cv.(ColorReplace.width))%nat
                                              (pixelIndex `div` cv.(ColorReplace.width))%nat i)
                else colorMap
              else colorMap)
           colorMap ks)
  ≡ₚ recorded_positions colorMap ++
     (position_of cv <$>
        filter (λ k,
                  (0 <? get data (4 * k + 3))%float = true ∧
                  ColorReplace.pixel_in_range
                    (ColorReplace.mk_color (get data (4 * k)) (get data (4 * k + 1))
                                           (get data (4 * k + 2)))
                    startRgb endRgb (of_Z tolerance) = true) ks).
Proof.
  cbv zeta. revert colorMap. induction ks as [|k ks IH]; intros colorMap.
  { by rewrite app_nil_r. }
  cbn [foldl]. rewrite IH. rewrite filter_cons. cbv zeta.
  rewrite pixel_in_range_unfold.
  set (alpha := (0 <? get (ColorReplace.pixels cv) (4 * k + 3))%float).
  set (inside := ColorReplace.isColorInRangeOptimized _ _ _ _ _ _ _).
  destruct alpha.
  - destruct inside.
    + rewrite decide_True by (split; reflexivity). rewrite record_position_recorded.
      rewrite fmap_cons, <- app_assoc. reflexivity.
    + rewrite decide_False by (intros [_ ?]; discriminate). reflexivity.
  - rewrite decide_False by (intros [? _]; discriminate). reflexivity.
Qed.

Lemma replace_positions_count (finalRgb : ColorReplace.color) positions data n :
  let out :=
    foldl (λ '(data, replacedPixels) position,
             let index := position.(ColorReplace.index) in
             let data := set data index finalRgb.(ColorReplace.r) in
             let data := set data (index + 1) finalRgb.(ColorReplace.g) in
             let data := set data (index + 2) finalRgb.(ColorReplace.b) in
             (data, S replacedPixels))
          (data, n) positions in
  length out.1 = length data ∧ out.2 = (n + length positions)%nat.
Proof.
  cbv zeta. revert data n. induction positions as [|pos positions IH]; intros data n.
  { cbn. split; [done|lia]. }
  cbn [foldl]. destruct (IH
    (set (set (set data (ColorReplace.index pos) (ColorReplace.r finalRgb))
              (ColorReplace.index pos + 1) (ColorReplace.g finalRgb))
         (ColorReplace.index pos + 2) (ColorReplace.b finalRgb)) (S n)) as [Hlen Hcount].
  split; [by rewrite Hlen, !set_length|]. rewrite Hcount. cbn [length]. lia.
Qed.

Lemma replace_colors_count (startRgb endRgb targetStartRgb targetEndRgb : ColorReplace.color)
    mixRatio colors data n :
  let out :=
    foldl (λ '(data, replacedPixels) color,
             let positionRatio :=
               ColorReplace.calculateColorPosition color.(ColorReplace.rgb) startRgb endRgb in
             let targetRgb :=
               ColorReplace.interpolateColor targetStartRgb targetEndRgb positionRatio in
             let finalRgb :=
               ColorReplace.mixColors color.(ColorReplace.rgb) targetRgb mixRatio in
             foldl (λ '(data, replacedPixels) position,
                      let index := position.(ColorReplace.index) in
                      let data := set data index finalRgb.(ColorReplace.r) in
                      let data := set data (index + 1) finalRgb.(ColorReplace.g) in
                      let data := set data (index + 2) finalRgb.(ColorReplace.b) in
                      (data, S replacedPixels))
                   (data, replacedPixels) color.(ColorReplace.positions))
          (data, n) colors in
  length out.1 = length data ∧ out.2 = (n + length (recorded_positions colors))%nat.
Proof.
  cbv zeta. revert data n. induction colors as [|c colors IH]; intros data n.
  { cbn. split; [done|lia]. }
  cbn [foldl].
  match goal with
  | |- context [foldl ?f (data, n) (ColorReplace.positions c)] =>
      pose proof (replace_positions_count
                    (ColorReplace.mixColors (ColorReplace.rgb c)
                       (ColorReplace.interpolateColor targetStartRgb targetEndRgb
                          (ColorReplace.calculateColorPosition (ColorReplace.rgb c)
                             startRgb endRgb))
                       mixRatio)
                    (ColorReplace.positions c) data n) as Hstep;
      cbv zeta in Hstep;
      destruct (foldl f (data, n) (ColorReplace.positions c)) as [data' n'] eqn:Hfold
  end.
  cbn [fst snd] in Hstep. destruct Hstep as [Hlen' Hn'].
  destruct (IH data' n') as [Hlen Hcount].
  split; [congruence|]. rewrite Hcount, Hn'. unfold recorded_positions.
  cbn [flat_map]. rewrite length_app. lia.
Qed.

(** X19. A scan reports each matching pixel once and nothing else: the
    positions [findColorsInRange] records on a miss of its cache are,
    up to their order, the positions [{ x, y, index }] of the pixels that
    are not fully transparent and pass the range test; the replacement
    run on that result keeps the length of the buffer and returns the
    number of those pixels as its count. *)
Theorem scan_reports_matching_pixels cv colorCache startColor endColor tolerance
    data targetStartColor targetEndColor mixRatio :
  colorCache !! ColorReplace.cacheKey_of startColor endColor tolerance cv = None →
  let found :=
    (ColorReplace.findColorsInRange cv colorCache startColor endColor tolerance).1 in
  let out :=
    ColorReplace.applyColorReplaceToImageData data found startColor endColor
      targetStartColor targetEndColor mixRatio in
  recorded_positions found
  ≡ₚ position_of cv <$> matching_pixels cv startColor endColor tolerance ∧
  out.2 = length (matching_pixels cv startColor endColor tolerance) ∧
  length out.1 = length data.
Proof.
  intros Hmiss. cbv zeta. unfold ColorReplace.findColorsInRange. rewrite Hmiss.
  cbn [fst].
  assert (Hscan : recorded_positions
                    (ColorReplace.scanColorsInRange cv startColor endColor tolerance)
                  ≡ₚ position_of cv <$> matching_pixels cv startColor endColor tolerance).
  { unfold ColorReplace.scanColorsInRange, matching_pixels. cbv zeta.
    pose proof (scan_recorded cv startColor endColor tolerance
                  (seq 0 ((length (ColorReplace.pixels cv) + 3) / 4)) []) as H.
    cbv zeta in H. exact H. }
  split; [exact Hscan|].
  unfold ColorReplace.applyColorReplaceToImageData.
  pose proof (replace_colors_count (ColorReplace.hexToRgb startColor)
                (ColorReplace.hexToRgb endColor) (ColorReplace.hexToRgb targetStartColor)
                (ColorReplace.hexToRgb targetEndColor) mixRatio
                (ColorReplace.scanColorsInRange cv startColor endColor tolerance) data 0)
    as [Hlen Hcount].
  cbv zeta in Hlen, Hcount |- *.
  split; [|exact Hlen].
  rewrite Hcount. rewrite (Permutation_length Hscan).
  by rewrite length_fmap.
Qed.

Lemma scan_reports_matching_pixels_witness :
  recorded_positions
    (ColorReplace.findColorsInRange reds_and_blue ∅ "#ff0000" "#ff0000" 20).1
  ≡ₚ position_of reds_and_blue <$> matching_pixels reds_and_blue "#ff0000" "#ff0000" 20 ∧
  (ColorReplace.applyColorReplaceToImageData reds_and_blue.(ColorReplace.pixels)
     (ColorReplace.findColorsInRange reds_and_blue ∅ "#ff0000" "#ff0000" 20).1
     "#ff0000" "#ff0000" "#00ff00" "#00ff00" 1).2
  = length (matching_pixels reds_and_blue "#ff0000" "#ff0000" 20) ∧
  length (ColorReplace.applyColorReplaceToImageData reds_and_blue.(ColorReplace.pixels)
            (ColorReplace.findColorsInRange reds_and_blue ∅ "#ff0000" "#ff0000" 20).1
            "#ff0000" "#ff0000" "#00ff00" "#00ff00" 1).1
  = length reds_and_blue.(ColorReplace.pixels).
Proof.
  apply (scan_reports_matching_pixels reds_and_blue ∅ "#ff0000" "#ff0000" 20).
  apply lookup_empty.
Defined.

(** ** The selection of the median filter is right *)

(** Octets compare as Numbers the way they compare as integers. *)
Lemma of_Z_leb a b : octet a → octet b → (of_Z a <=? of_Z b)%float = (a <=? b).
Proof.
  intros Ha Hb.
  assert (H : forallb (λ a, forallb (λ b,
                Bool.eqb (of_Z a <=? of_Z b)%float (a <=? b)) octets) octets = true)
    by (vm_compute; reflexivity).
  rewrite forallb_forall in H. specialize (H a (octet_in_octets a Ha)).
  rewrite forallb_forall in H. specialize (H b (octet_in_octets b Hb)).
  by apply Bool.eqb_prop.
Qed.

Lemma nth_fmap_of_Z (zs : list Z) j x :
  zs !! j = Some x → nth j (of_Z <$> zs) nan = of_Z x.
Proof. intros Hj. by rewrite nth_lookup, list_lookup_fmap, Hj. Qed.

Lemma swap_fmap (zs : list Z) i j x y :
  zs !! i = Some x → zs !! j = Some y →
  Worker.swap (of_Z <$> zs) i j = of_Z <$> <[j := x]> (<[i := y]> zs).
Proof.
  intros Hi Hj. unfold Worker.swap.
  by rewrite (nth_fmap_of_Z _ _ _ Hi), (nth_fmap_of_Z _ _ _ Hj), !list_fmap_insert.
Qed.

(** Two places of the window exchanged: the lookups afterwards. *)
Lemma lookup_exchanged (zs : list Z) i j x y m :
  zs !! i = Some x → zs !! j = Some y →
  <[j := x]> (<[i := y]> zs) !! m
  = if decide (m = j) then Some x else if decide (m = i) then Some y else zs !! m.
Proof.
  intros Hi Hj.
  assert (Hli : (i < length zs)%nat) by (by eapply lookup_lt_Some).
  assert (Hlj : (j < length zs)%nat) by (by eapply lookup_lt_Some).
  destruct (decide (m = j)) as [->|Hmj].
  - apply list_lookup_insert_eq. by rewrite length_insert.
  - rewrite list_lookup_insert_ne by done.
    destruct (decide (m = i)) as [->|Hmi].
    + by apply list_lookup_insert_eq.
    + by rewrite list_lookup_insert_ne.
Qed.

(** The scan of [partition] keeps its invariant up to the pivot. *)
Lemma partition_scan_spec zs0 left right p len :
  Forall octet zs0 → octet p → (right < length zs0)%nat →
  ∀ zs i j, (j + len = right)%nat → scanned zs0 left right p zs i j →
  ∃ zs' i',
    foldl (λ '(arr, i) j,
             if (nth j arr nan <=? of_Z p)%float
             then (Worker.swap arr i j, S i)
             else (arr, i))
          (of_Z <$> zs, i) (seq j len)
    = (of_Z <$> zs', i') ∧
    scanned zs0 left right p zs' i' right.
Proof.
  intros Hoct Hp0 Hright. induction len as [|len IH]; intros zs i j Hj Hsc.
  { assert (j = right) as -> by lia. by exists zs, i. }
  cbn [seq foldl].
  destruct Hsc as (Hperm & Hij & Hp & Hout & Hclo & Hle & Hgt).
  assert (Hlen : length zs = length zs0) by (by rewrite Hperm).
  assert (Hzs : Forall octet zs) by (by rewrite Hperm).
  destruct (lookup_lt_is_Some_2 zs j) as [y Hy]; [lia|].
  destruct (lookup_lt_is_Some_2 zs i) as [x Hx]; [lia|].
  assert (Hoy : octet y) by (by eapply Forall_lookup_1).
  rewrite (nth_fmap_of_Z _ _ _ Hy), (of_Z_leb _ _ Hoy Hp0).
  destruct (Z.leb_spec y p) as [Hyp|Hyp].
  - rewrite (swap_fmap _ _ _ _ _ Hx Hy). apply (IH _ (S i) (S j)); [lia|].
    split; [|split; [lia|split; [|split; [|split; [|split]]]]].
    + etrans; [by apply Permutation_insert_swap|done].
    + rewrite (lookup_exchanged _ _ _ _ _ right Hx Hy).
      by rewrite !decide_False by lia.
    + intros m Hm. rewrite (lookup_exchanged _ _ _ _ _ m Hx Hy).
      rewrite !decide_False by lia. by apply Hout.
    + intros m z Hm. rewrite (lookup_exchanged _ _ _ _ _ m Hx Hy).
      destruct (decide (m = j)) as [->|Hmj]; [|destruct (decide (m = i)) as [->|Hmi]].
      * intros [= <-]. apply (Hclo i); [lia|done].
      * intros [= <-]. apply (Hclo j); [lia|done].
      * by apply Hclo.
    + intros m z Hm. rewrite (lookup_exchanged _ _ _ _ _ m Hx Hy).
      destruct (decide (m = j)) as [->|Hmj]; [|destruct (decide (m = i)) as [->|Hmi]].
      * intros [= <-]. assert (i = j) as -> by lia. congruence.
      * by intros [= <-].
      * apply Hle. lia.
    + intros m z Hm. rewrite (lookup_exchanged _ _ _ _ _ m Hx Hy).
      destruct (decide (m = j)) as [->|Hmj]; [|destruct (decide (m = i)) as [->|Hmi]].
      * intros [= <-]. apply (Hgt i); [lia|done].
      * lia.
      * apply Hgt. lia.
  - apply (IH zs i (S j)); [lia|].
    split; [done|]. split; [lia|]. split; [done|]. split; [done|]. split; [done|].
    split; [done|].
    intros m z Hm Hz. destruct (decide (m = j)) as [->|Hmj].
    + congruence.
    + apply (Hgt m); [lia|done].
Qed.

(** [partition] on a window of octets: the array is rearranged within the
    window, the pivot ends at the index returned, with nothing larger
    before it in the window and only larger values after it. *)
Lemma partition_spec zs left right p :
  Forall octet zs → (left ≤ right < length zs)%nat → zs !! right = Some p →
  ∃ zs' i,
    Worker.partition (of_Z <$> zs) left right = (of_Z <$> zs', i) ∧
    zs' ≡ₚ zs ∧ (left ≤ i ≤ right)%nat ∧ zs' !! i = Some p ∧
    (∀ m, (m < left ∨ right < m)%nat → zs' !! m = zs !! m) ∧
    (∀ m x, (left ≤ m ≤ right)%nat → zs' !! m = Some x →
            ∃ m', (left ≤ m' ≤ right)%nat ∧ zs !! m' = Some x) ∧
    (∀ m x, (left ≤ m < i)%nat → zs' !! m = Some x → x ≤ p) ∧
    (∀ m x, (i < m ≤ right)%nat → zs' !! m = Some x → p < x).
Proof.
  intros Hzs Hwin Hp. unfold Worker.partition.
  assert (Hp0 : octet p) by (by eapply Forall_lookup_1).
  rewrite (nth_fmap_of_Z _ _ _ Hp).
  destruct (partition_scan_spec zs left right p (right - left) Hzs Hp0 ltac:(lia)
              zs left left ltac:(lia)) as (zs1 & i & -> & Hsc).
  { split; [done|]. split; [lia|]. split; [done|]. split; [done|].
    split; [by eauto|]. split; intros; lia. }
  destruct Hsc as (Hperm & Hij & Hp1 & Hout & Hclo & Hle & Hgt).
  assert (Hlen : length zs1 = length zs) by (by rewrite Hperm).
  destruct (lookup_lt_is_Some_2 zs1 i) as [x Hx]; [lia|].
  rewrite (swap_fmap _ _ _ _ _ Hx Hp1).
  eexists _, i. split; [reflexivity|].
  split; [|split; [lia|split; [|split; [|split; [|split]]]]].
  - etrans; [by apply Permutation_insert_swap|done].
  - rewrite (lookup_exchanged _ _ _ _ _ i Hx Hp1).
    destruct (decide (i = right)) as [->|Hne]; [congruence|]. by rewrite decide_True.
  - intros m Hm. rewrite (lookup_exchanged _ _ _ _ _ m Hx Hp1).
    rewrite !decide_False by lia. by apply Hout.
  - intros m z Hm. rewrite (lookup_exchanged _ _ _ _ _ m Hx Hp1).
    destruct (decide (m = right)) as [->|Hmr]; [|destruct (decide (m = i)) as [->|Hmi]].
    + intros [= <-]. apply (Hclo i); [lia|done].
    + intros [= <-]. apply (Hclo right); [lia|done].
    + by apply Hclo.
  - intros m z Hm. rewrite (lookup_exchanged _ _ _ _ _ m Hx Hp1).
    rewrite !decide_False by lia. apply Hle. lia.
  - intros m z Hm. rewrite (lookup_exchanged _ _ _ _ _ m Hx Hp1).
    destruct (decide (m = right)) as [->|Hmr].
    + intros [= <-]. apply (Hgt i); [lia|done].
    + rewrite decide_False by lia. apply Hgt. lia.
Qed.

(** [quickselect] on a fenced window of octets that holds place [k]
    returns the value that a rearrangement of the array has at [k], with
    nothing larger before it and nothing smaller after it. *)
Lemma quickselect_spec zs0 fuel :
  Forall octet zs0 →
  ∀ zs left right k,
    zs ≡ₚ zs0 → (left ≤ k ≤ right)%nat → (right < length zs)%nat →
    (right - left < fuel)%nat → fenced zs left right →
    ∃ v zs',
      Worker.quickselect fuel (of_Z <$> zs) left right k = Some (of_Z v) ∧
      zs' ≡ₚ zs0 ∧ placed zs' k v.
Proof.
  intros Hoct. induction fuel as [|fuel IH]; intros zs left right k Hperm Hk Hright Hfuel Hf;
    [lia|].
  assert (Hzs : Forall octet zs) by (by rewrite Hperm).
  cbn [Worker.quickselect].
  destruct (decide (left = right)) as [->|Hne].
  { assert (k = right) as -> by lia.
    destruct (lookup_lt_is_Some_2 zs right) as [v Hv]; [lia|].
    exists v, zs. rewrite (nth_fmap_of_Z _ _ _ Hv).
    split; [done|]. split; [done|]. split; [done|]. split.
    - intros j x Hj Hx. apply (Hf j right x v Hx Hv); lia.
    - intros j x Hj Hx. apply (Hf j right x v Hx Hv); lia. }
  destruct (lookup_lt_is_Some_2 zs right) as [p Hp]; [lia|].
  destruct (partition_spec zs left right p Hzs ltac:(lia) Hp)
    as (zs1 & i & -> & Hperm1 & Hi & Hpi & Hout & Hclo & Hle & Hgt).
  assert (Hlen1 : length zs1 = length zs) by (by rewrite Hperm1).
  assert (Hwin : ∀ m y, zs1 !! m = Some y → (left ≤ m)%nat →
                 ∃ m', (left ≤ m')%nat ∧ zs !! m' = Some y ∧ ((m ≤ right)%nat → (m' ≤ right)%nat)).
  { intros m y Hm Hlm. destruct (decide (m ≤ right)%nat) as [Hmr|Hmr].
    - destruct (Hclo m y ltac:(lia) Hm) as (m' & Hm' & Hy). exists m'. split; [lia|].
      split; [done|lia].
    - exists m. split; [done|]. split; [|lia]. rewrite <- Hout by lia. done. }
  assert (Hlow : ∀ m y, zs1 !! m = Some y → (m ≤ right)%nat →
                 ∃ m', (m' ≤ right)%nat ∧ zs !! m' = Some y ∧ ((left ≤ m)%nat → (left ≤ m')%nat)).
  { intros m y Hm Hmr. destruct (decide (left ≤ m)%nat) as [Hlm|Hlm].
    - destruct (Hclo m y ltac:(lia) Hm) as (m' & Hm' & Hy). exists m'. split; [lia|].
      split; [done|lia].
    - exists m. split; [done|]. split; [|lia]. rewrite <- Hout by lia. done. }
  destruct (decide (k = i)) as [->|Hki]; [|destruct (decide (k < i)%nat) as [Hlt|Hge]].
  - exists p, zs1. rewrite (nth_fmap_of_Z _ _ _ Hpi).
    split; [done|]. split; [by etrans|]. split; [done|]. split.
    + intros j x Hj Hx. destruct (decide (left ≤ j)%nat) as [Hlj|Hlj].
      * apply (Hle j); [lia|done].
      * rewrite Hout in Hx by lia. apply (Hf j right x p Hx Hp); lia.
    + intros j x Hj Hx. destruct (decide (j ≤ right)%nat) as [Hjr|Hjr].
      * apply Z.lt_le_incl. apply (Hgt j); [lia|done].
      * rewrite Hout in Hx by lia. apply (Hf j right x p Hx Hp); lia.
  - apply (IH zs1 left (i - 1)%nat k); [by etrans|lia|lia|lia|].
    intros j m x y Hx Hy. split.
    + intros Hjm. rewrite Hout in Hx by lia.
      destruct (Hwin m y Hy ltac:(lia)) as (m' & Hm' & Hy' & _).
      apply (Hf j m' x y Hx Hy'); lia.
    + intros Hjm. destruct (decide (j ≤ right)%nat) as [Hjr|Hjr].
      * assert (Hpx : p ≤ x).
        { destruct (decide (j = i)) as [->|Hji]; [by simplify_eq|].
          apply Z.lt_le_incl. apply (Hgt j); [lia|done]. }
        destruct (decide (left ≤ m)%nat) as [Hlm|Hlm].
        -- pose proof (Hle m y ltac:(lia) Hy). lia.
        -- rewrite Hout in Hy by lia.
           destruct (Hwin j x Hx ltac:(lia)) as (j' & Hj' & Hx' & _).
           apply (Hf m j' y x Hy Hx'); lia.
      * rewrite Hout in Hx by lia.
        destruct (Hlow m y Hy ltac:(lia)) as (m' & Hm' & Hy' & _).
        apply (Hf j m' x y Hx Hy'); lia.
  - apply (IH zs1 (i + 1)%nat right k); [by etrans|lia|lia|lia|].
    intros j m x y Hx Hy. split.
    + intros Hjm. destruct (decide (m ≤ right)%nat) as [Hmr|Hmr].
      * pose proof (Hgt m y ltac:(lia) Hy) as Hpy.
        destruct (decide (left ≤ j)%nat) as [Hlj|Hlj].
        -- assert (Hxp : x ≤ p).
           { destruct (decide (j = i)) as [->|Hji]; [by simplify_eq|].
             apply (Hle j); [lia|done]. }
           lia.
        -- rewrite Hout in Hx by lia.
           destruct (Hwin m y Hy ltac:(lia)) as (m' & Hm' & Hy' & _).
           apply (Hf j m' x y Hx Hy'); lia.
      * rewrite Hout in Hy by lia.
        destruct (Hlow j x Hx ltac:(lia)) as (j' & Hj' & Hx' & _).
        apply (Hf m j' y x Hy Hx'); lia.
    + intros Hjm. rewrite Hout in Hx by lia.
      destruct (Hlow m y Hy ltac:(lia)) as (m' & Hm' & Hy' & _).
      apply (Hf j m' x y Hx Hy'); lia.
Qed.

Lemma filter_none_length {A} (P : A → Prop) `{∀ x, Decision (P x)} (l : list A) :
  Forall (λ x, ¬ P x) l → length (filter P l) = 0%nat.
Proof.
  induction 1 as [|x l Hx _ IH]; [done|]. by rewrite filter_cons, decide_False.
Qed.

(** The value placed at [k] has rank [k]: fewer than [k + 1] values of
    the array are smaller, and more than [k] are no larger. *)
Lemma placed_rank zs k v :
  placed zs k v →
  v ∈ zs ∧
  (length (filter (λ z, (z < v)%Z) zs) ≤ k < length (filter (λ z, (z ≤ v)%Z) zs))%nat.
Proof.
  intros (Hv & Hbefore & Hafter).
  split; [by eapply list_elem_of_lookup_2|].
  assert (Hk : (k < length zs)%nat) by (by eapply lookup_lt_Some).
  rewrite <- (take_drop_middle zs k v Hv).
  rewrite !filter_app, !filter_cons, !length_app.
  rewrite decide_False by lia. rewrite decide_True by lia. cbn [length].
  assert (Hhead : Forall (λ z, (z ≤ v)%Z) (take k zs)).
  { apply Forall_lookup. intros j x Hx. apply lookup_take_Some in Hx as [Hx Hj].
    by apply (Hbefore j). }
  assert (Htail : Forall (λ z, ¬ (z < v)%Z) (drop (S k) zs)).
  { apply Forall_lookup. intros j x Hx. rewrite lookup_drop in Hx.
    pose proof (Hafter (S k + j)%nat x ltac:(lia) Hx). lia. }
  rewrite (filter_none_length _ _ Htail), (filter_all_length _ _ Hhead).
  pose proof (length_filter (λ z, (z < v)%Z) (take k zs)) as Hle.
  rewrite length_take in Hle |- *. lia.
Qed.

(** On an array of octets [findKthSmallest] returns a value of rank [k]. *)
Lemma findKthSmallest_rank (zs : list Z) k :
  Forall octet zs → (k < length zs)%nat →
  ∃ v,
    Worker.findKthSmallest (of_Z <$> zs) k = Some (of_Z v) ∧
    v ∈ zs ∧
    (length (filter (λ z, (z < v)%Z) zs) ≤ k < length (filter (λ z, (z ≤ v)%Z) zs))%nat.
Proof.
  intros Hzs Hk. unfold Worker.findKthSmallest. cbv zeta. rewrite length_fmap.
  destruct (quickselect_spec zs (S (length zs)) Hzs zs 0 (length zs - 1) k)
    as (v & zs' & Hrun & Hperm & Hplaced); [done|lia|lia|lia| |].
  { intros j m x y Hx Hy. split; [lia|]. intros Hjm.
    apply lookup_lt_Some in Hx. lia. }
  exists v. split; [done|].
  destruct (placed_rank zs' k v Hplaced) as [Hin Hrank].
  split; [by rewrite <- Hperm|]. by rewrite <- !Hperm.
Qed.

(** X20. [findKthSmallest] finds the [k]-th smallest: on an array of
    octets and an index [k] within it, the quickselect terminates and
    returns a value of the array of rank [k], that is, at most [k]
    elements are smaller and more than [k] are no larger. *)
Theorem findKthSmallest_selects (zs : list Z) k :
  Forall octet zs → (k < length zs)%nat →
  ∃ v,
    Worker.findKthSmallest (of_Z <$> zs) k = Some (of_Z v) ∧
    octet v ∧ v ∈ zs ∧
    (length (filter (λ z, (z < v)%Z) zs) ≤ k)%nat ∧
    (k < length (filter (λ z, (z ≤ v)%Z) zs))%nat.
Proof.
  intros Hzs Hk.
  destruct (findKthSmallest_rank zs k Hzs Hk) as (v & Hrun & Hin & Hlow & Hhigh).
  exists v. split; [exact Hrun|]. split; [|by repeat split].
  rewrite Forall_forall in Hzs. by apply Hzs.
Qed.

Lemma findKthSmallest_selects_witness :
  ∃ v,
    Worker.findKthSmallest (of_Z <$> sample_window) 2 = Some (of_Z v) ∧
    octet v ∧ v ∈ sample_window ∧
    (length (filter (λ z, (z < v)%Z) sample_window) ≤ 2)%nat ∧
    (2 < length (filter (λ z, (z ≤ v)%Z) sample_window))%nat.
Proof.
  apply (findKthSmallest_selects sample_window 2).
  - repeat constructor; unfold octet; lia.
  - cbn. lia.
Defined.

(** ** The median filter, pixel by pixel *)

Lemma map_fmap {A B} (f : A → B) (l : list A) : map f l = f <$> l.
Proof. induction l as [|a l IH]; [done|]. cbn. by rewrite IH. Qed.

Lemma get_octet_at (data : list Z) i :
  (i < length data)%nat → get data i = of_Z (octet_at data i).
Proof.
  intros Hi. destruct (lookup_lt_is_Some_2 data i Hi) as [v Hv].
  unfold get, octet_at. by rewrite Hv.
Qed.

Lemma octet_at_octet (data : list Z) i : Forall octet data → octet (octet_at data i).
Proof.
  intros Hdata. unfold octet_at. destruct (data !! i) as [v|] eqn:Hv.
  - by eapply Forall_lookup_1.
  - unfold octet. lia.
Qed.

Lemma grid_fmap (data : list Z) (place : nat → nat → nat) (rows cols : list nat) :
  (∀ jy jx, jy ∈ rows → jx ∈ cols → (place jy jx < length data)%nat) →
  flat_map (λ jy, map (λ jx, get data (place jy jx)) cols) rows
  = of_Z <$> flat_map (λ jy, map (λ jx, octet_at data (place jy jx)) cols) rows.
Proof.
  intros Hin. induction rows as [|jy rows IH]; [done|].
  cbn [flat_map]. rewrite fmap_app, IH by (intros; apply Hin; [by right|done]).
  f_equal. rewrite !map_fmap, <- list_fmap_compose.
  apply list_fmap_ext. intros _ jx Hjx%list_elem_of_lookup_2. cbn.
  apply get_octet_at, Hin; [by left|done].
Qed.

Lemma grid_length {A} (f : nat → nat → A) (rows cols : list nat) :
  length (flat_map (λ jy, map (f jy) cols) rows) = (length rows * length cols)%nat.
Proof.
  induction rows as [|jy rows IH]; [done|].
  cbn [flat_map length]. rewrite length_app, length_map, IH. lia.
Qed.

Lemma grid_Forall {A} (P : A → Prop) (f : nat → nat → A) (rows cols : list nat) :
  (∀ jy jx, P (f jy jx)) → Forall P (flat_map (λ jy, map (f jy) cols) rows).
Proof.
  intros Hf. induction rows as [|jy rows IH]; [constructor|].
  cbn [flat_map]. apply Forall_app. split; [|done].
  apply Forall_forall. intros a Ha. rewrite map_fmap in Ha.
  apply list_elem_of_fmap in Ha as (jx & -> & _). apply Hf.
Qed.

(** Inside the picture every neighbour of an interior pixel is read from
    the buffer. *)
Lemma interior_neighbour_in_range width height radius x y jy jx c :
  interior width height radius x y →
  (jy < 2 * radius + 1)%nat → (jx < 2 * radius + 1)%nat → (c < 4)%nat →
  (((y - radius + jy) * width + (x - radius + jx)) * 4 + c < 4 * (width * height))%nat.
Proof.
  intros [Hx Hy] Hjy Hjx Hc.
  assert (Hrow : (y - radius + jy ≤ height - 1)%nat) by lia.
  assert (Hcol : (x - radius + jx ≤ width - 1)%nat) by lia.
  assert (Hw : (0 < width)%nat) by lia.
  assert (Hh : (0 < height)%nat) by lia.
  assert (Hprod : ((y - radius + jy) * width ≤ (height - 1) * width)%nat)
    by (by apply Nat.mul_le_mono_r).
  assert (Hwh : ((height - 1) * width + width = width * height)%nat) by nia.
  lia.
Qed.

(** The median of the neighbourhood of an interior pixel is found, and
    is a median of its octets. *)
Lemma interior_median imageData width height radius x y c :
  Forall octet imageData → length imageData = (4 * (width * height))%nat →
  interior width height radius x y → (c < 4)%nat →
  let values := Worker.neighbourhood imageData width radius x y c in
  ∃ v, Worker.findKthSmallest values ((2 * radius + 1) * (2 * radius + 1) / 2) = Some (of_Z v) ∧
       octet v ∧ is_median (window imageData width radius x y c) v ∧
       length values = ((2 * radius + 1) * (2 * radius + 1))%nat.
Proof.
  intros Hdata Hlen Hint Hc. cbv zeta.
  assert (Hvalues : Worker.neighbourhood imageData width radius x y c
                    = of_Z <$> window imageData width radius x y c).
  { unfold Worker.neighbourhood, window.
    apply (grid_fmap imageData
             (λ jy jx, (((y - radius + jy) * width + (x - radius + jx)) * 4 + c)%nat)).
    intros jy jx Hjy%elem_of_seq Hjx%elem_of_seq. rewrite Hlen.
    apply (interior_neighbour_in_range width height radius x y jy jx c Hint); lia. }
  assert (Hsize : length (window imageData width radius x y c)
                  = ((2 * radius + 1) * (2 * radius + 1))%nat).
  { unfold window. by rewrite grid_length, !length_seq. }
  assert (Hoct : Forall octet (window imageData width radius x y c)).
  { unfold window. apply grid_Forall. intros jy jx. by apply octet_at_octet. }
  rewrite Hvalues, length_fmap, <- Hsize.
  destruct (findKthSmallest_rank (window imageData width radius x y c)
              (length (window imageData width radius x y c) / 2) Hoct)
    as (v & Hrun & Hin & Hlow & Hhigh).
  { apply Nat.div_lt; lia. }
  exists v. split; [done|]. split; [|by split].
  rewrite Forall_forall in Hoct. by apply Hoct.
Qed.

(** The four bytes of a pixel after they were stored, and the rest of
    the buffer. *)
Lemma pixel_written (result : list Z) idx vr vg vb va :
  (idx + 3 < length result)%nat →
  let result' := set (set (set (set result idx vr) (idx + 1) vg) (idx + 2) vb) (idx + 3) va in
  result' !! idx = Some (ToUint8Clamp vr) ∧
  result' !! (idx + 1)%nat = Some (ToUint8Clamp vg) ∧
  result' !! (idx + 2)%nat = Some (ToUint8Clamp vb) ∧
  result' !! (idx + 3)%nat = Some (ToUint8Clamp va) ∧
  ∀ j, (j < idx ∨ idx + 3 < j)%nat → result' !! j = result !! j.
Proof.
  intros Hidx. cbv zeta. unfold set.
  split; [|split; [|split; [|split]]].
  - rewrite !list_lookup_insert_ne by lia. apply list_lookup_insert_eq. lia.
  - rewrite !list_lookup_insert_ne by lia. apply list_lookup_insert_eq.
    rewrite !length_insert. lia.
  - rewrite !list_lookup_insert_ne by lia. apply list_lookup_insert_eq.
    rewrite !length_insert. lia.
  - apply list_lookup_insert_eq. rewrite !length_insert. lia.
  - intros j Hj. by rewrite !list_lookup_insert_ne by lia.
Qed.

Lemma pixel_numbers_differ width x y x0 y0 :
  (x < width)%nat → (x0 < width)%nat → ¬ (x = x0 ∧ y = y0) →
  (y * width + x ≠ y0 * width + x0)%nat.
Proof.
  intros Hx Hx0 Hne Heq. apply Hne.
  assert (Hy : y = y0) by nia. subst y0. split; [lia|done].
Qed.

Lemma median_state_ext imageData width radius (D D' : nat → nat → Prop) acc :
  (∀ x y, D x y ↔ D' x y) →
  median_state imageData width radius D acc → median_state imageData width radius D' acc.
Proof.
  intros HD (result & -> & Hlen & Hrest & Hdone). exists result.
  split; [done|]. split; [done|]. split.
  - intros x y c Hx Hc Hnot. apply Hrest; [done|done|]. by rewrite HD.
  - intros x y Hxy. apply Hdone. by apply HD.
Qed.

(** One pixel of the filter. *)
Lemma median_step imageData width height radius D x0 y0 acc :
  Forall octet imageData → length imageData = (4 * (width * height))%nat →
  interior width height radius x0 y0 →
  median_state imageData width radius D acc →
  median_state imageData width radius (λ x y, D x y ∨ (x = x0 ∧ y = y0))
    (result ← acc;
     let rValues := Worker.neighbourhood imageData width radius x0 y0 0 in
     let gValues := Worker.neighbourhood imageData width radius x0 y0 1 in
     let bValues := Worker.neighbourhood imageData width radius x0 y0 2 in
     let midIndex := (length rValues / 2)%nat in
     let index := ((y0 * width + x0) * 4)%nat in
     mr ← Worker.findKthSmallest rValues midIndex;
     mg ← Worker.findKthSmallest gValues midIndex;
     mb ← Worker.findKthSmallest bValues midIndex;
     let result := set result index mr in
     let result := set result (index + 1) mg in
     let result := set result (index + 2) mb in
     Some (set result (index + 3) (get imageData (index + 3)))).
Proof.
  intros Hdata Hlen Hint (result & -> & Hlenr & Hrest & Hdone).
  destruct (interior_median imageData width height radius x0 y0 0 Hdata Hlen Hint ltac:(lia))
    as (vr & Hr & Hor & Hmr & Hsize).
  destruct (interior_median imageData width height radius x0 y0 1 Hdata Hlen Hint ltac:(lia))
    as (vg & Hg & Hog & Hmg & _).
  destruct (interior_median imageData width height radius x0 y0 2 Hdata Hlen Hint ltac:(lia))
    as (vb & Hb & Hob & Hmb & _).
  cbv zeta in Hr, Hg, Hb, Hsize.
  cbn [mbind option_bind]. cbv zeta. rewrite Hsize, Hr, Hg, Hb. cbn [mbind option_bind].
  assert (Hx0 : (x0 < width)%nat) by (destruct Hint; lia).
  assert (Hidx : ((y0 * width + x0) * 4 + 3 < length result)%nat).
  { rewrite Hlenr, Hlen.
    pose proof (interior_neighbour_in_range width height radius x0 y0 radius radius 3 Hint
                  ltac:(lia) ltac:(lia) ltac:(lia)) as Hin.
    destruct Hint. by replace (y0 - radius + radius)%nat with y0 in Hin by lia;
      replace (x0 - radius + radius)%nat with x0 in Hin by lia. }
  destruct (pixel_written result ((y0 * width + x0) * 4) (of_Z vr) (of_Z vg) (of_Z vb)
              (get imageData ((y0 * width + x0) * 4 + 3)) Hidx)
    as (Hwr & Hwg & Hwb & Hwa & Hother).
  cbv zeta in Hwr, Hwg, Hwb, Hwa, Hother.
  rewrite !ToUint8Clamp_of_octet in Hwr, Hwg, Hwb by done.
  eexists. split; [reflexivity|]. split; [by rewrite !set_length|]. split.
  - intros x y c Hx Hc Hnot.
    assert (Hne : (y * width + x ≠ y0 * width + x0)%nat).
    { apply pixel_numbers_differ; [done|done|]. intros Heq. apply Hnot. by right. }
    rewrite Hother by lia. apply Hrest; [done|done|]. intros HD. apply Hnot. by left.
  - intros x y HD.
    destruct (decide (x = x0 ∧ y = y0)) as [[-> ->]|Hne].
    + split; [done|]. split.
      * intros c Hc.
        destruct c as [|[|[|c]]]; [| | |lia].
        -- exists vr. by rewrite Nat.add_0_r.
        -- by exists vg.
        -- by exists vb.
      * rewrite Hwa. destruct (lookup_lt_is_Some_2 imageData ((y0 * width + x0) * 4 + 3))
          as [a Ha]; [lia|].
        rewrite (get_lookup _ _ _ Ha), ToUint8Clamp_of_octet; [done|].
        by eapply Forall_lookup_1.
    + destruct HD as [HD|HD]; [|done].
      destruct (Hdone x y HD) as (Hx & Hcolour & Halpha).
      assert (Hpix : (y * width + x ≠ y0 * width + x0)%nat)
        by (by apply pixel_numbers_differ).
      split; [done|]. split.
      * intros c Hc. rewrite Hother by lia. by apply Hcolour.
      * by rewrite Hother by lia.
Qed.

(** One row of the filter. *)
Lemma median_row imageData width height radius y xs :
  Forall octet imageData → length imageData = (4 * (width * height))%nat →
  (∀ x, x ∈ xs → interior width height radius x y) →
  ∀ D acc,
    median_state imageData width radius D acc →
    median_state imageData width radius (λ x' y', D x' y' ∨ (x' ∈ xs ∧ y' = y))
      (foldl (λ acc x,
                result ← acc;
                let rValues := Worker.neighbourhood imageData width radius x y 0 in
                let gValues := Worker.neighbourhood imageData width radius x y 1 in
                let bValues := Worker.neighbourhood imageData width radius x y 2 in
                let midIndex := (length rValues / 2)%nat in
                let index := ((y * width + x) * 4)%nat in
                mr ← Worker.findKthSmallest rValues midIndex;
                mg ← Worker.findKthSmallest gValues midIndex;
                mb ← Worker.findKthSmallest bValues midIndex;
                let result := set result index mr in
                let result := set result (index + 1) mg in
                let result := set result (index + 2) mb in
                Some (set result (index + 3) (get imageData (index + 3))))
             acc xs).
Proof.
  intros Hdata Hlen. induction xs as [|x xs IH]; intros Hxs D acc Hacc.
  { cbn [foldl]. apply (median_state_ext _ _ _ D); [|done].
    intros x' y'. split; [by left|]. intros [?|[Hin _]]; [done|].
    by apply elem_of_nil in Hin. }
  cbn [foldl].
  apply (median_state_ext _ _ _
           (λ x' y', (D x' y' ∨ (x' = x ∧ y' = y)) ∨ (x' ∈ xs ∧ y' = y))).
  { intros x' y'. rewrite elem_of_cons. tauto. }
  apply IH.
  - intros x' Hx'. apply Hxs. by right.
  - apply (median_step imageData width height radius D x y acc Hdata Hlen); [|done].
    apply Hxs. by left.
Qed.

(** The rows of the filter. *)
Lemma median_rows imageData width height radius xs ys :
  Forall octet imageData → length imageData = (4 * (width * height))%nat →
  (∀ x y, x ∈ xs → y ∈ ys → interior width height radius x y) →
  ∀ D acc,
    median_state imageData width radius D acc →
    median_state imageData width radius (λ x' y', D x' y' ∨ (x' ∈ xs ∧ y' ∈ ys))
      (foldl (λ acc y,
         foldl (λ acc x,
                  result ← acc;
                  let rValues := Worker.neighbourhood imageData width radius x y 0 in
                  let gValues := Worker.neighbourhood imageData width radius x y 1 in
                  let bValues := Worker.neighbourhood imageData width radius x y 2 in
                  let midIndex := (length rValues / 2)%nat in
                  let index := ((y * width + x) * 4)%nat in
                  mr ← Worker.findKthSmallest rValues midIndex;
                  mg ← Worker.findKthSmallest gValues midIndex;
                  mb ← Worker.findKthSmallest bValues midIndex;
                  let result := set result index mr in
                  let result := set result (index + 1) mg in
                  let result := set result (index + 2) mb in
                  Some (set result (index + 3) (get imageData (index + 3))))
               acc xs)
         acc ys).
Proof.
  intros Hdata Hlen. induction ys as [|y ys IH]; intros Hgrid D acc Hacc.
  { cbn [foldl]. apply (median_state_ext _ _ _ D); [|done].
    intros x' y'. split; [by left|]. intros [?|[_ Hin]]; [done|].
    by apply elem_of_nil in Hin. }
  cbn [foldl].
  apply (median_state_ext _ _ _
           (λ x' y', (D x' y' ∨ (x' ∈ xs ∧ y' = y)) ∨ (x' ∈ xs ∧ y' ∈ ys))).
  { intros x' y'. rewrite elem_of_cons. tauto. }
  apply IH.
  - intros x' y' Hx' Hy'. apply Hgrid; [done|by right].
  - apply (median_row imageData width height radius y xs Hdata Hlen); [|done].
    intros x' Hx'. apply Hgrid; [done|by left].
Qed.

(** X21. What the median filter computes.  On a buffer of [width] x
    [height] RGBA pixels the worker's median filter posts a buffer of the
    same length in which every pixel at least [radius] away from the four
    edges holds, in each colour channel, a median of that channel over
    the pixel's (2 radius + 1)^2 neighbourhood in the input, and the
    input's alpha; every other pixel is copied unchanged. *)
Theorem median_filter_pixelwise imageData width height radius :
  Forall octet imageData → length imageData = (4 * (width * height))%nat →
  ∃ out,
    Worker.applyMedianFilterOptimized imageData width height radius = Some out ∧
    length out = length imageData ∧
    ∀ x y, (x < width)%nat →
      (interior width height radius x y →
       filtered_pixel imageData width radius x y out) ∧
      (¬ interior width height radius x y →
       ∀ c, (c < 4)%nat →
            out !! ((y * width + x) * 4 + c)%nat
            = imageData !! ((y * width + x) * 4 + c)%nat).
Proof.
  intros Hdata Hlen. unfold Worker.applyMedianFilterOptimized. cbv zeta.
  assert (Hgrid : ∀ x y, x ∈ seq radius (width - radius - radius) →
                         y ∈ seq radius (height - radius - radius) →
                         interior width height radius x y).
  { intros x y Hx%elem_of_seq Hy%elem_of_seq. unfold interior. lia. }
  pose proof (median_rows imageData width height radius
                (seq radius (width - radius - radius))
                (seq radius (height - radius - radius)) Hdata Hlen Hgrid
                (λ _ _, False) (Some imageData)) as Hrun.
  destruct Hrun as (out & Hout & Hlenout & Hrest & Hdone).
  { exists imageData. split; [done|]. split; [done|]. split; [done|]. by intros x y []. }
  exists out. split; [exact Hout|]. split; [done|].
  intros x y Hx. split.
  - intros [Hix Hiy]. apply Hdone. right. rewrite !elem_of_seq. lia.
  - intros Hnot c Hc. apply Hrest; [done|done|].
    intros [[]|[Hix%elem_of_seq Hiy%elem_of_seq]]. apply Hnot. unfold interior. lia.
Qed.

Lemma median_filter_pixelwise_witness :
  ∃ out,
    Worker.applyMedianFilterOptimized sample_3x3 3 3 1 = Some out ∧
    length out = length sample_3x3 ∧
    ∀ x y, (x < 3)%nat →
      (interior 3 3 1 x y → filtered_pixel sample_3x3 3 1 x y out) ∧
      (¬ interior 3 3 1 x y →
       ∀ c, (c < 4)%nat →
            out !! ((y * 3 + x) * 4 + c)%nat = sample_3x3 !! ((y * 3 + x) * 4 + c)%nat).
Proof.
  apply (median_filter_pixelwise sample_3x3 3 3 1).
  - repeat constructor; unfold octet; lia.
  - reflexivity.
Defined.

(** ** The histogram's cache, the blur and the history *)

(** X22. The histogram of an unchanged buffer is computed once: on a
    buffer of whole RGBA pixels [calculateHistogram] returns a histogram
    and leaves the manager in a state in which a second call on the same
    buffer returns that very histogram without touching the state. *)
Theorem histogram_served_from_cache st data n :
  Forall octet data → length data = (4 * n)%nat →
  ∃ histogram st',
    Histogram.calculateHistogram st (Some data) = Some (Some histogram, st') ∧
    Histogram.calculateHistogram st' (Some data) = Some (Some histogram, st') ∧
    st'.(Histogram.cachedHistogramData) = Some histogram.
Proof.
  intros Hdata Hlen.
  destruct (count_pixels_totals data n Hdata Hlen) as (counted & Hcount & _).
  assert (Hfresh : Histogram.calculateHistogram
                     (Histogram.mk_state (Some counted)
                                         (Some (Histogram.calculateDataHash data)))
                     (Some data)
                   = Some (Some counted,
                           Histogram.mk_state (Some counted)
                                              (Some (Histogram.calculateDataHash data)))).
  { unfold Histogram.calculateHistogram.
    cbn [Histogram.cachedHistogramData Histogram.lastImageDataHash].
    by rewrite bool_decide_eq_true_2. }
  unfold Histogram.calculateHistogram at 1.
  destruct (Histogram.cachedHistogramData st) as [cached|] eqn:Hcached.
  - destruct (bool_decide (Some (Histogram.calculateDataHash data)
                           = Histogram.lastImageDataHash st)) eqn:Hhash.
    + exists cached, st. split; [done|]. split; [|done].
      unfold Histogram.calculateHistogram. by rewrite Hcached, Hhash.
    + rewrite Hcount. cbn [mbind option_bind].
      eexists _, _. split; [reflexivity|]. split; [|done]. exact Hfresh.
  - rewrite Hcount. cbn [mbind option_bind].
    eexists _, _. split; [reflexivity|]. split; [|done]. exact Hfresh.
Qed.

Lemma histogram_served_from_cache_witness :
  ∃ histogram st',
    Histogram.calculateHistogram Histogram.initial (Some two_pixels)
    = Some (Some histogram, st') ∧
    Histogram.calculateHistogram st' (Some two_pixels) = Some (Some histogram, st') ∧
    st'.(Histogram.cachedHistogramData) = Some histogram.
Proof.
  apply (histogram_served_from_cache Histogram.initial two_pixels 2).
  - repeat constructor; unfold octet; lia.
  - reflexivity.
Defined.



Lemma blacked_ext src dst0 width (D D' : nat → nat → Prop) dst :
  (∀ x y, D x y ↔ D' x y) → blacked src dst0 width D dst → blacked src dst0 width D' dst.
Proof.
  intros HD (Hlen & Hrest & Hdone). split; [done|]. split.
  - intros x y c Hx Hc Hnot. apply Hrest; [done|done|]. by rewrite HD.
  - intros x y Hxy. apply Hdone. by apply HD.
Qed.

(** One pixel of a pass without taps. *)
Lemma blacked_step src dst0 width height D x0 y0 dst :
  Forall octet src → length src = (4 * (width * height))%nat → length dst0 = length src →
  (x0 < width)%nat → (y0 < height)%nat →
  blacked src dst0 width D dst →
  let blank := (Math_min 255 (Math_max 0 (Math_round (0 / 0))))%float in
  let index := ((y0 * width + x0) * 4)%nat in
  blacked src dst0 width (λ x y, D x y ∨ (x = x0 ∧ y = y0))
    (set (set (set (set dst index blank) (index + 1) blank) (index + 2) blank)
         (index + 3) (get src (index + 3))).
Proof.
  intros Hsrc Hlen Hlen0 Hx0 Hy0 (Hlend & Hrest & Hdone). cbv zeta.
  assert (Hidx : ((y0 * width + x0) * 4 + 3 < length dst)%nat).
  { rewrite Hlend, Hlen0, Hlen.
    assert (y0 * width + x0 < width * height)%nat by nia. lia. }
  destruct (pixel_written dst ((y0 * width + x0) * 4)
              (Math_min 255 (Math_max 0 (Math_round (0 / 0))))%float
              (Math_min 255 (Math_max 0 (Math_round (0 / 0))))%float
              (Math_min 255 (Math_max 0 (Math_round (0 / 0))))%float
              (get src ((y0 * width + x0) * 4 + 3)) Hidx)
    as (Hwr & Hwg & Hwb & Hwa & Hother).
  cbv zeta in Hwr, Hwg, Hwb, Hwa, Hother.
  assert (Hblank : ToUint8Clamp (Math_min 255 (Math_max 0 (Math_round (0 / 0))))%float = 0)
    by reflexivity.
  rewrite Hblank in Hwr, Hwg, Hwb.
  split; [by rewrite !set_length|]. split.
  - intros x y c Hx Hc Hnot.
    assert (Hne : (y * width + x ≠ y0 * width + x0)%nat).
    { apply pixel_numbers_differ; [done|done|]. intros Heq. apply Hnot. by right. }
    rewrite Hother by lia. apply Hrest; [done|done|]. intros HD. apply Hnot. by left.
  - intros x y HD.
    destruct (decide (x = x0 ∧ y = y0)) as [[-> ->]|Hne].
    + split; [done|]. split; [done|]. split; [done|]. split; [done|].
      rewrite Hwa.
      destruct (lookup_lt_is_Some_2 src ((y0 * width + x0) * 4 + 3)) as [a Ha]; [lia|].
      rewrite (get_lookup _ _ _ Ha), ToUint8Clamp_of_octet; [done|].
      by eapply Forall_lookup_1.
    + destruct HD as [HD|HD]; [|done].
      destruct (Hdone x y HD) as (Hx & H0 & H1 & H2 & H3).
      assert (Hpix : (y * width + x ≠ y0 * width + x0)%nat)
        by (by apply pixel_numbers_differ).
      split; [done|]. by rewrite !Hother by lia.
Qed.

(** A pass without taps blacks out every pixel of the picture. *)
Lemma blur_pass_blank horizontal kernel radius width height src dst0 :
  Forall octet src → length src = (4 * (width * height))%nat → length dst0 = length src →
  blacked src dst0 width (λ x y, (x < width)%nat ∧ (y < height)%nat)
    (Worker.blur_pass horizontal kernel radius 0 width height src dst0).
Proof.
  intros Hsrc Hlen Hlen0. unfold Worker.blur_pass. cbv zeta.
  assert (Hrows : ∀ ys D dst,
            (∀ y, y ∈ ys → (y < height)%nat) →
            blacked src dst0 width D dst →
            blacked src dst0 width (λ x y, D x y ∨ ((x < width)%nat ∧ y ∈ ys))
              (foldl (λ dst y,
                 foldl (λ dst x,
                   let '(r, g, b, weightSum) :=
                     foldl (λ '(r, g, b, weightSum) j,
                              let k := Z.of_nat j - Z.of_nat radius in
                              let n :=
                                if horizontal
                                then Z.min (Z.max (Z.of_nat x + k) 0) (Z.of_nat width - 1)
                                else Z.min (Z.max (Z.of_nat y + k) 0) (Z.of_nat height - 1) in
                              let weight := nth j kernel nan in
                              let index :=
                                Z.to_nat (if horizontal
                                          then (Z.of_nat y * Z.of_nat width + n) * 4
                                          else (n * Z.of_nat width + Z.of_nat x) * 4) in
                              ((r + get src index * weight)%float,
                               (g + get src (index + 1) * weight)%float,
                               (b + get src (index + 2) * weight)%float,
                               (weightSum + weight)%float))
                           (0%float, 0%float, 0%float, 0%float) (seq 0 0) in
                   let index := ((y * width + x) * 4)%nat in
                   let dst :=
                     set dst index (Math_min 255 (Math_max 0 (Math_round (r / weightSum))))%float in
                   let dst :=
                     set dst (index + 1)
                         (Math_min 255 (Math_max 0 (Math_round (g / weightSum))))%float in
                   let dst :=
                     set dst (index + 2)
                         (Math_min 255 (Math_max 0 (Math_round (b / weightSum))))%float in
                   set dst (index + 3) (get src (index + 3)))
                 dst (seq 0 width))
               dst ys)).
  { induction ys as [|y ys IH]; intros D dst Hys Hst.
    { cbn [foldl]. apply (blacked_ext _ _ _ D); [|done].
      intros x' y'. split; [by left|]. intros [?|[_ Hin]]; [done|].
      by apply elem_of_nil in Hin. }
    cbn [foldl].
    apply (blacked_ext _ _ _
             (λ x' y', (D x' y' ∨ ((x' < width)%nat ∧ y' = y)) ∨
                       ((x' < width)%nat ∧ y' ∈ ys))).
    { intros x' y'. rewrite elem_of_cons. tauto. }
    apply IH; [intros y' Hy'; apply Hys; by right|].
    assert (Hy : (y < height)%nat) by (apply Hys; by left).
    assert (Hrow : ∀ xs D1 dst1,
              (∀ x, x ∈ xs → (x < width)%nat) →
              blacked src dst0 width D1 dst1 →
              blacked src dst0 width (λ x' y', D1 x' y' ∨ (x' ∈ xs ∧ y' = y))
                (foldl (λ dst x,
                   let index := ((y * width + x) * 4)%nat in
                   let dst :=
                     set dst index (Math_min 255 (Math_max 0 (Math_round (0 / 0))))%float in
                   let dst :=
                     set dst (index + 1)
                         (Math_min 255 (Math_max 0 (Math_round (0 / 0))))%float in
                   let dst :=
                     set dst (index + 2)
                         (Math_min 255 (Math_max 0 (Math_round (0 / 0))))%float in
                   set dst (index + 3) (get src (index + 3)))
                 dst1 xs)).
    { induction xs as [|x xs IHx]; intros D1 dst1 Hxs Hst1.
      { cbn [foldl]. apply (blacked_ext _ _ _ D1); [|done].
        intros x' y'. split; [by left|]. intros [?|[Hin _]]; [done|].
        by apply elem_of_nil in Hin. }
      cbn [foldl].
      apply (blacked_ext _ _ _
               (λ x' y', (D1 x' y' ∨ (x' = x ∧ y' = y)) ∨ (x' ∈ xs ∧ y' = y))).
      { intros x' y'. rewrite elem_of_cons. tauto. }
      apply IHx; [intros x' Hx'; apply Hxs; by right|].
      apply (blacked_step src dst0 width height D1 x y dst1); try done.
      apply Hxs. by left. }
    apply (blacked_ext _ _ _ (λ x' y', D x' y' ∨ (x' ∈ seq 0 width ∧ y' = y))).
    { intros x' y'. rewrite elem_of_seq. split; intros [?|[? ?]]; (by left) || (right; split; [lia|done]). }
    apply (Hrow (seq 0 width) D dst); [|done].
    intros x Hx%elem_of_seq. lia. }
  apply (blacked_ext _ _ _ (λ x y, False ∨ ((x < width)%nat ∧ y ∈ seq 0 height))).
  { intros x y. rewrite elem_of_seq. split; [intros [[]|[? ?]]; lia|intros [? ?]; right; lia]. }
  apply Hrows.
  - intros y Hy%elem_of_seq. lia.
  - split; [done|]. split; [done|]. by intros x y [].
Qed.

(** Every NaN is the one [nan]. *)
Lemma is_nan_eq (x : number) : is_nan x = true → x = nan.
Proof.
  unfold is_nan. intros H. apply Prim2SF_inj. rewrite FloatAxioms.eqb_spec in H.
  destruct (Prim2SF x) as [s|s| |s m e] eqn:Hx; try reflexivity.
  - destruct s; discriminate H.
  - destruct s; discriminate H.
  - exfalso. unfold SFeqb, SFcompare in H.
    assert (Hm : Pos.compare_cont Eq m m = Eq) by apply Pos.compare_cont_refl.
    destruct s; rewrite Z.compare_refl in H; cbv beta iota in H;
      rewrite Hm in H; discriminate H.
Qed.

(** X24. A NaN [sigma] does not fail: on a [width] x [height] picture
    the Gaussian filter then posts a buffer of the same length in which
    every pixel is black and keeps the alpha of the input. *)
Theorem gaussian_nan_sigma_blacks_out Math_exp imageData width height sigma :
  Forall octet imageData → length imageData = (4 * (width * height))%nat →
  is_nan sigma = true →
  ∃ out,
    Worker.applyGaussianFilterOptimized Math_exp imageData width height sigma = Some out ∧
    length out = length imageData ∧
    ∀ x y, (x < width)%nat → (y < height)%nat →
      out !! ((y * width + x) * 4)%nat = Some 0 ∧
      out !! ((y * width + x) * 4 + 1)%nat = Some 0 ∧
      out !! ((y * width + x) * 4 + 2)%nat = Some 0 ∧
      out !! ((y * width + x) * 4 + 3)%nat = imageData !! ((y * width + x) * 4 + 3)%nat.
Proof.
  intros Hdata Hlen Hnan. rewrite (is_nan_eq sigma Hnan).
  unfold Worker.applyGaussianFilterOptimized. cbv zeta.
  assert (Hsize : is_nan (Math_ceil (nan * 3) * 2 + 1)%float = true) by reflexivity.
  rewrite Hsize.
  set (tempBuffer := Worker.blur_pass true [] 0 0 width height imageData
                       (replicate (length imageData) 0)).
  assert (Hzeros : length (replicate (length imageData) 0) = length imageData)
    by apply length_replicate.
  destruct (blur_pass_blank true [] 0 width height imageData
              (replicate (length imageData) 0) Hdata Hlen Hzeros)
    as (Htemplen & _ & Htemp).
  fold tempBuffer in Htemplen, Htemp.
  assert (Htempoct : Forall octet tempBuffer).
  { apply blur_pass_octets, Forall_replicate. unfold octet. lia. }
  assert (Htemplen' : length tempBuffer = (4 * (width * height))%nat) by congruence.
  assert (Hsame : length imageData = length tempBuffer) by congruence.
  destruct (blur_pass_blank false [] 0 width height tempBuffer imageData
              Htempoct Htemplen' Hsame) as (Houtlen & _ & Hout).
  eexists. split; [reflexivity|]. split; [exact Houtlen|].
  intros x y Hx Hy.
  destruct (Hout x y (conj Hx Hy)) as (_ & H0 & H1 & H2 & H3).
  destruct (Htemp x y (conj Hx Hy)) as (_ & _ & _ & _ & H3').
  split; [exact H0|]. split; [exact H1|]. split; [exact H2|]. congruence.
Qed.

Lemma gaussian_nan_sigma_blacks_out_witness :
  ∃ out,
    Worker.applyGaussianFilterOptimized (λ x, x) two_pixels 2 1 nan = Some out ∧
    length out = length two_pixels ∧
    ∀ x y, (x < 2)%nat → (y < 1)%nat →
      out !! ((y * 2 + x) * 4)%nat = Some 0 ∧
      out !! ((y * 2 + x) * 4 + 1)%nat = Some 0 ∧
      out !! ((y * 2 + x) * 4 + 2)%nat = Some 0 ∧
      out !! ((y * 2 + x) * 4 + 3)%nat = two_pixels !! ((y * 2 + x) * 4 + 3)%nat.
Proof.
  apply (gaussian_nan_sigma_blacks_out (λ x, x) two_pixels 2 1 nan).
  - repeat constructor; unfold octet; lia.
  - reflexivity.
  - reflexivity.
Defined.

(** What a successful [applyColorReplaceEffect] does to the page. *)
Lemma applyColorReplaceEffect_shape now p p' count :
  ColorReplace.applyColorReplaceEffect now p = (p', Some count) →
  ∃ entry,
    entry.(ColorReplace.id) = now ∧
    entry.(ColorReplace.replacedPixels) = count ∧
    entry.(ColorReplace.originalImageData) = p.(ColorReplace.the_canvas).(ColorReplace.pixels) ∧
    p'.(ColorReplace.the_canvas).(ColorReplace.width)
    = p.(ColorReplace.the_canvas).(ColorReplace.width) ∧
    p'.(ColorReplace.the_canvas).(ColorReplace.height)
    = p.(ColorReplace.the_canvas).(ColorReplace.height) ∧
    p'.(ColorReplace.colorReplaceHistory)
    = (if 0 <=? p.(ColorReplace.currentEditingIndex)
       then ColorReplace.array_assign p.(ColorReplace.colorReplaceHistory)
                                      (Z.to_nat p.(ColorReplace.currentEditingIndex)) entry
       else p.(ColorReplace.colorReplaceHistory) ++ [Some entry]) ∧
    p'.(ColorReplace.currentEditingIndex)
    = (if 0 <=? p.(ColorReplace.currentEditingIndex)
       then -1 else p.(ColorReplace.currentEditingIndex)).
Proof.
  intros Happly. unfold ColorReplace.applyColorReplaceEffect in Happly.
  destruct (ColorReplace.findColorsInRange _ _ _ _ _) as [colorsInRange colorCache].
  destruct (decide (length colorsInRange = 0)%nat); [done|].
  destruct (ColorReplace.applyColorReplaceToImageData _ _ _ _ _ _ _)
    as [imageData replacedPixels].
  destruct p as [[w h pixels] ctl history editing cache]. cbn in Happly |- *.
  destruct (0 <=? editing) eqn:Hedit; injection Happly as <- <-;
    eexists; cbn; repeat split; done.
Qed.

(** X25. Applying a replacement while an entry of the history is in edit
    overwrites that entry in place: the history keeps its length and its
    other entries, the slot edited holds the new entry, whose snapshot is
    the canvas as it was before this call, and the page leaves edit
    mode. *)
Theorem edited_entry_is_replaced_in_place now p p' count i :
  p.(ColorReplace.currentEditingIndex) = Z.of_nat i →
  (i < length p.(ColorReplace.colorReplaceHistory))%nat →
  ColorReplace.applyColorReplaceEffect now p = (p', Some count) →
  length p'.(ColorReplace.colorReplaceHistory) = length p.(ColorReplace.colorReplaceHistory) ∧
  p'.(ColorReplace.currentEditingIndex) = -1 ∧
  (∀ j, j ≠ i →
        p'.(ColorReplace.colorReplaceHistory) !! j = p.(ColorReplace.colorReplaceHistory) !! j) ∧
  ∃ entry,
    p'.(ColorReplace.colorReplaceHistory) !! i = Some (Some entry) ∧
    entry.(ColorReplace.id) = now ∧
    entry.(ColorReplace.replacedPixels) = count ∧
    entry.(ColorReplace.originalImageData) = p.(ColorReplace.the_canvas).(ColorReplace.pixels).
Proof.
  intros Hedit Hi Happly.
  destruct (applyColorReplaceEffect_shape now p p' count Happly)
    as (entry & Hid & Hcount & Hsnapshot & Hwidth & Hheight & Hhistory & Hediting).
  rewrite Hedit in Hhistory, Hediting.
  assert (Hle : (0 <=? Z.of_nat i) = true) by (apply Z.leb_le; lia).
  rewrite Hle, Nat2Z.id in Hhistory. rewrite Hle in Hediting.
  unfold ColorReplace.array_assign in Hhistory.
  rewrite decide_True in Hhistory by done.
  rewrite Hhistory. split; [apply length_insert|]. split; [done|]. split.
  - intros j Hj. by apply list_lookup_insert_ne.
  - exists entry. split; [by apply list_lookup_insert_eq|done].
Qed.

Lemma edited_entry_is_replaced_in_place_witness :
  length (ColorReplace.applyColorReplaceEffect 3 editing_session).1
           .(ColorReplace.colorReplaceHistory)
  = length editing_session.(ColorReplace.colorReplaceHistory) ∧
  (ColorReplace.applyColorReplaceEffect 3 editing_session).1.(ColorReplace.currentEditingIndex)
  = -1 ∧
  (∀ j, j ≠ 0%nat →
        (ColorReplace.applyColorReplaceEffect 3 editing_session).1
          .(ColorReplace.colorReplaceHistory) !! j
        = editing_session.(ColorReplace.colorReplaceHistory) !! j) ∧
  ∃ entry,
    (ColorReplace.applyColorReplaceEffect 3 editing_session).1
      .(ColorReplace.colorReplaceHistory) !! 0%nat = Some (Some entry) ∧
    entry.(ColorReplace.id) = 3 ∧
    entry.(ColorReplace.replacedPixels) = 1%nat ∧
    entry.(ColorReplace.originalImageData)
    = editing_session.(ColorReplace.the_canvas).(ColorReplace.pixels).
Proof.
  apply (edited_entry_is_replaced_in_place 3 editing_session
           (ColorReplace.applyColorReplaceEffect 3 editing_session).1 1 0).
  - reflexivity.
  - vm_compute. lia.
  - vm_compute. reflexivity.
Defined.

(** X26. When the index in edit points past the end of the history, as
    it does in [stale_session] after an entry was opened for editing and
    the entries were undone, a replacement that goes through is stored at
    that index and the slots before it are holes: the first undo restores
    the canvas, and the next one fails on the hole. *)
Theorem stale_edit_index_breaks_undo now p p' count i :
  p.(ColorReplace.currentEditingIndex) = Z.of_nat i →
  (length p.(ColorReplace.colorReplaceHistory) < i)%nat →
  ColorReplace.applyColorReplaceEffect now p = (p', Some count) →
  length p'.(ColorReplace.colorReplaceHistory) = S i ∧
  ∃ p'',
    ColorReplace.undoLastColorReplace p' = Some p'' ∧
    p''.(ColorReplace.the_canvas) = p.(ColorReplace.the_canvas) ∧
    ColorReplace.undoLastColorReplace p'' = None.
Proof.
  intros Hedit Hi Happly.
  destruct (applyColorReplaceEffect_shape now p p' count Happly)
    as (entry & Hid & Hcount & Hsnapshot & Hwidth & Hheight & Hhistory & Hediting).
  rewrite Hedit in Hhistory, Hediting.
  assert (Hle : (0 <=? Z.of_nat i) = true) by (apply Z.leb_le; lia).
  rewrite Hle, Nat2Z.id in Hhistory. rewrite Hle in Hediting.
  unfold ColorReplace.array_assign in Hhistory.
  rewrite decide_False in Hhistory by lia.
  destruct (i - length (ColorReplace.colorReplaceHistory p))%nat as [|holes] eqn:Hholes;
    [lia|].
  rewrite replicate_S_end in Hhistory.
  assert (Hhistory' : ColorReplace.colorReplaceHistory p'
                      = (ColorReplace.colorReplaceHistory p ++ replicate holes None ++ [None])
                          ++ [Some entry])
    by (rewrite Hhistory, <- !app_assoc; done).
  split.
  { rewrite Hhistory'. rewrite !length_app, length_replicate. cbn. lia. }
  unfold ColorReplace.undoLastColorReplace at 1.
  rewrite Hhistory', last_snoc, removelast_last.
  eexists. split; [reflexivity|]. split.
  - destruct p as [[w h pixels] ctl history editing cache]. cbn in *.
    unfold ColorReplace.putImageData. by rewrite Hsnapshot, Hwidth, Hheight.
  - unfold ColorReplace.undoLastColorReplace. cbn.
    by rewrite !app_assoc, last_snoc.
Qed.

Lemma stale_edit_index_breaks_undo_witness :
  length (ColorReplace.applyColorReplaceEffect 3 stale_session).1
           .(ColorReplace.colorReplaceHistory) = 2%nat ∧
  ∃ p'',
    ColorReplace.undoLastColorReplace (ColorReplace.applyColorReplaceEffect 3 stale_session).1
    = Some p'' ∧
    p''.(ColorReplace.the_canvas) = stale_session.(ColorReplace.the_canvas) ∧
    ColorReplace.undoLastColorReplace p'' = None.
Proof.
  apply (stale_edit_index_breaks_undo 3 stale_session
           (ColorReplace.applyColorReplaceEffect 3 stale_session).1 1 1).
  - reflexivity.
  - vm_compute. lia.
  - vm_compute. reflexivity.
Defined.
